(** * Gemini text-adventure RPG: the turn assembler and the game-state reconciler

    A shallow embedding of the gameplay core of the repository:
    - [GameScreen] (components/GameScreen.tsx): [executeAction] with its
      streaming loop and its [setGameState] updater, [handleUseItem],
      [handleAcceptUpdate], [handleRejectUpdate], [handleLevelUpConfirm];
    - [LoreGenerator] (components/LoreGenerator.tsx): the sigil loop of
      [handleAcceptFoundation] and the gate of the factions review;
    - [generateSigilImage] and [generateLoreFactions] (services/geminiService.ts);
    - the interfaces of types.ts.

    Conventions of the model.
    - A JavaScript string is the list of its UTF-16 code units ([jsstring]);
      [js "..."] builds one from an ASCII literal.
    - A JavaScript number is an integer of [Z]: the schema declares every
      numeric field of a turn result as INTEGER.  Fractions and exponents
      are outside the model.  Sums and differences are those of [Z]; they
      are the code's where operands and result are safe integers
      ([isSafeInteger]), and the statements about the arithmetic of a
      level-up say so.  The product by 1.5 of a level-up is modelled with
      the rounding of the language ([timesOneAndHalf]).
    - [JSON.parse] and the regular expression of the streaming loop are
      built-ins of the language; they are modelled here by a parser of the
      JSON grammar and by a matcher written for that one expression.
    - [executeAction] is one turn from the submit to its [finally] block
      with no other state update in between; [executeActionAcross] is the
      turn with the callback of an image request run in between. *)

From Stdlib Require Import ZArith NArith List String Ascii Bool Lia.
From stdpp Require Import base decidable option list.

Set Warnings "-register-all".

Local Open Scope N_scope.

(** ** Strings as lists of UTF-16 code units *)

Abbreviation jsstring := (list N).

Definition cu (c : ascii) : N := N_of_ascii c.

Definition js (s : string) : jsstring := List.map cu (list_ascii_of_string s).

(** [jsq] reads a literal in which an apostrophe stands for the double
    quote (code unit 34), so that JSON texts can be written down. *)
Definition jsq (s : string) : jsstring :=
  List.map (fun c => if c =? 39 then 34 else c) (js s).

(** [WhiteSpace] and [LineTerminator] of ECMAScript: the characters that
    [String.prototype.trim] strips and that [\s] matches. *)
Definition isLineTerminator (c : N) : bool :=
  (c =? 10) || (c =? 13) || (c =? 8232) || (c =? 8233).

Definition isWhiteSpace (c : N) : bool :=
  (c =? 9) || (c =? 11) || (c =? 12) || (c =? 32) || (c =? 160)
  || (c =? 5760) || ((8192 <=? c) && (c <=? 8202)) || (c =? 8239)
  || (c =? 8287) || (c =? 12288) || (c =? 65279).

Definition isSpace (c : N) : bool := isWhiteSpace c || isLineTerminator c.

Fixpoint trimStart (s : jsstring) : jsstring :=
  match s with
  | c :: r => if isSpace c then trimStart r else s
  | [] => []
  end.

Definition trimEnd (s : jsstring) : jsstring := rev (trimStart (rev s)).

Definition trim (s : jsstring) : jsstring := trimEnd (trimStart s).

(** Truthiness of a string: the empty string is the only falsy one. *)
Definition truthy (s : jsstring) : bool :=
  match s with [] => false | _ :: _ => true end.

(** ** JSON.parse *)

Module Json.

Inductive t : Type :=
| Null
| Bool (b : bool)
| Number (lexeme : jsstring)
| String (s : jsstring)
| Array (elements : list t)
| Object (members : list (jsstring * t)).

Definition isJsonWs (c : N) : bool :=
  (c =? 32) || (c =? 9) || (c =? 10) || (c =? 13).

Fixpoint skipWs (s : jsstring) : jsstring :=
  match s with
  | c :: r => if isJsonWs c then skipWs r else s
  | [] => []
  end.

Definition isDigit (c : N) : bool := (48 <=? c) && (c <=? 57).

Definition hexVal (c : N) : option N :=
  if isDigit c then Some (c - 48)
  else if (97 <=? c) && (c <=? 102) then Some (c - 87)
  else if (65 <=? c) && (c <=? 70) then Some (c - 55)
  else None.

Definition hex4 (a b c d : N) : option N :=
  match hexVal a, hexVal b, hexVal c, hexVal d with
  | Some x, Some y, Some z, Some w => Some (((x * 16 + y) * 16 + z) * 16 + w)
  | _, _, _, _ => None
  end.

(** The single-character escapes of a JSON string. *)
Definition unescape (e : N) : option N :=
  if e =? 34 then Some 34          (* quote *)
  else if e =? 92 then Some 92     (* backslash *)
  else if e =? 47 then Some 47     (* slash *)
  else if e =? 98 then Some 8      (* b: backspace *)
  else if e =? 102 then Some 12    (* f: form feed *)
  else if e =? 110 then Some 10    (* n: line feed *)
  else if e =? 114 then Some 13    (* r: carriage return *)
  else if e =? 116 then Some 9     (* t: tab *)
  else None.

(** The body of a string, read after its opening quote: the decoded
    code units and what follows the closing quote. *)
Fixpoint parseStringBody (s : jsstring) : option (jsstring * jsstring) :=
  match s with
  | [] => None
  | c :: r =>
      if c =? 34 then Some ([], r)
      else if c =? 92 then
        match r with
        | [] => None
        | e :: r1 =>
            if e =? 117 then
              match r1 with
              | h1 :: h2 :: h3 :: h4 :: r2 =>
                  match hex4 h1 h2 h3 h4 with
                  | Some u =>
                      match parseStringBody r2 with
                      | Some (body, rest) => Some (u :: body, rest)
                      | None => None
                      end
                  | None => None
                  end
              | _ => None
              end
            else
              match unescape e with
              | Some d =>
                  match parseStringBody r1 with
                  | Some (body, rest) => Some (d :: body, rest)
                  | None => None
                  end
              | None => None
              end
        end
      else if c <? 32 then None
      else
        match parseStringBody r with
        | Some (body, rest) => Some (c :: body, rest)
        | None => None
        end
  end.

Fixpoint spanDigits (s : jsstring) : jsstring * jsstring :=
  match s with
  | c :: r =>
      if isDigit c then let '(ds, rest) := spanDigits r in (c :: ds, rest)
      else ([], s)
  | [] => ([], [])
  end.

(** A number: an optional minus sign; then a single zero, or a digit
    from 1 to 9 with any digits after it; then an optional fraction (a
    dot and one digit or more); then an optional exponent (e or E, an
    optional sign, one digit or more).  The lexeme is kept as written. *)
Definition parseInt (s : jsstring) : option (jsstring * jsstring) :=
  match s with
  | c :: r =>
      if c =? 48 then Some ([c], r)
      else if isDigit c then let '(ds, rest) := spanDigits r in Some (c :: ds, rest)
      else None
  | [] => None
  end.

Definition parseFrac (s : jsstring) : option (jsstring * jsstring) :=
  match s with
  | c :: r =>
      if c =? 46 then
        match spanDigits r with
        | ([], _) => None
        | (ds, rest) => Some (c :: ds, rest)
        end
      else Some ([], s)
  | [] => Some ([], [])
  end.

Definition parseExp (s : jsstring) : option (jsstring * jsstring) :=
  match s with
  | c :: r =>
      if (c =? 101) || (c =? 69) then
        let '(sign, r1) :=
          match r with
          | d :: r' => if (d =? 43) || (d =? 45) then ([d], r') else ([], r)
          | [] => ([], r)
          end in
        match spanDigits r1 with
        | ([], _) => None
        | (ds, rest) => Some (c :: sign ++ ds, rest)
        end
      else Some ([], s)
  | [] => Some ([], [])
  end.

Definition parseNumber (s : jsstring) : option (jsstring * jsstring) :=
  let '(sign, s1) :=
    match s with
    | c :: r => if c =? 45 then ([c], r) else ([], s)
    | [] => ([], s)
    end in
  match parseInt s1 with
  | Some (i, s2) =>
      match parseFrac s2 with
      | Some (f, s3) =>
          match parseExp s3 with
          | Some (e, s4) => Some (sign ++ i ++ f ++ e, s4)
          | None => None
          end
      | None => None
      end
  | None => None
  end.

Fixpoint stripPrefix (p s : jsstring) : option jsstring :=
  match p, s with
  | [], _ => Some s
  | a :: p', b :: s' => if a =? b then stripPrefix p' s' else None
  | _ :: _, [] => None
  end.

(** What a parser of values returns: a value, the [SyntaxError] that
    [JSON.parse] throws, or the end of the fuel of the model (which
    [parse] never reaches, lemma [parse_fuel]). *)
Inductive result (A : Type) : Type :=
| Ok (a : A)
| SyntaxError
| OutOfFuel.

Arguments Ok {A} a.
Arguments SyntaxError {A}.
Arguments OutOfFuel {A}.

(** Values.  The fuel bounds the depth of the calls; every call reads at
    least one code unit before it calls deeper. *)
Fixpoint parseValue (fuel : nat) (s : jsstring) : result (t * jsstring) :=
  match fuel with
  | O => OutOfFuel
  | S fuel' =>
      match skipWs s with
      | [] => SyntaxError
      | c :: r =>
          if c =? 34 then
            match parseStringBody r with
            | Some (str, rest) => Ok (String str, rest)
            | None => SyntaxError
            end
          else if c =? 91 then
            match skipWs r with
            | c1 :: r1 =>
                if c1 =? 93 then Ok (Array [], r1)
                else
                  match parseElements fuel' r with
                  | Ok (xs, rest) => Ok (Array xs, rest)
                  | SyntaxError => SyntaxError
                  | OutOfFuel => OutOfFuel
                  end
            | [] => SyntaxError
            end
          else if c =? 123 then
            match skipWs r with
            | c1 :: r1 =>
                if c1 =? 125 then Ok (Object [], r1)
                else
                  match parseMembers fuel' r with
                  | Ok (ms, rest) => Ok (Object ms, rest)
                  | SyntaxError => SyntaxError
                  | OutOfFuel => OutOfFuel
                  end
            | [] => SyntaxError
            end
          else if c =? 116 then
            match stripPrefix (js "true") (c :: r) with
            | Some rest => Ok (Bool true, rest)
            | None => SyntaxError
            end
          else if c =? 102 then
            match stripPrefix (js "false") (c :: r) with
            | Some rest => Ok (Bool false, rest)
            | None => SyntaxError
            end
          else if c =? 110 then
            match stripPrefix (js "null") (c :: r) with
            | Some rest => Ok (Null, rest)
            | None => SyntaxError
            end
          else
            match parseNumber (c :: r) with
            | Some (lexeme, rest) => Ok (Number lexeme, rest)
            | None => SyntaxError
            end
      end
  end
with parseElements (fuel : nat) (s : jsstring) : result (list t * jsstring) :=
  match fuel with
  | O => OutOfFuel
  | S fuel' =>
      match parseValue fuel' s with
      | Ok (v, r) =>
          match skipWs r with
          | c :: r1 =>
              if c =? 93 then Ok ([v], r1)
              else if c =? 44 then
                match parseElements fuel' r1 with
                | Ok (vs, rest) => Ok (v :: vs, rest)
                | SyntaxError => SyntaxError
                | OutOfFuel => OutOfFuel
                end
              else SyntaxError
          | [] => SyntaxError
          end
      | SyntaxError => SyntaxError
      | OutOfFuel => OutOfFuel
      end
  end
with parseMembers (fuel : nat) (s : jsstring) : result (list (jsstring * t) * jsstring) :=
  match fuel with
  | O => OutOfFuel
  | S fuel' =>
      match skipWs s with
      | q :: r0 =>
          if q =? 34 then
            match parseStringBody r0 with
            | Some (key, r1) =>
                match skipWs r1 with
                | colon :: r2 =>
                    if colon =? 58 then
                      match parseValue fuel' r2 with
                      | Ok (v, r3) =>
                          match skipWs r3 with
                          | c :: r4 =>
                              if c =? 125 then Ok ([(key, v)], r4)
                              else if c =? 44 then
                                match parseMembers fuel' r4 with
                                | Ok (ms, rest) => Ok ((key, v) :: ms, rest)
                                | SyntaxError => SyntaxError
                                | OutOfFuel => OutOfFuel
                                end
                              else SyntaxError
                          | [] => SyntaxError
                          end
                      | SyntaxError => SyntaxError
                      | OutOfFuel => OutOfFuel
                      end
                    else SyntaxError
                | [] => SyntaxError
                end
            | None => SyntaxError
            end
          else SyntaxError
      | [] => SyntaxError
      end
  end.

(** [JSON.parse text]: one value, with nothing but white space after it. *)
Definition parse (text : jsstring) : result t :=
  match parseValue (2 * length text + 2) text with
  | Ok (v, rest) =>
      match skipWs rest with
      | [] => Ok v
      | _ :: _ => SyntaxError
      end
  | SyntaxError => SyntaxError
  | OutOfFuel => OutOfFuel
  end.

(** Property access on a parsed object: with a repeated key the last
    member wins. *)
Fixpoint lookup (k : jsstring) (ms : list (jsstring * t)) : option t :=
  match ms with
  | [] => None
  | (k', v) :: ms' =>
      match lookup k ms' with
      | Some v' => Some v'
      | None => if bool_decide (k' = k) then Some v else None
      end
  end.

Definition get (k : jsstring) (v : t) : option t :=
  match v with
  | Object ms => lookup k ms
  | _ => None
  end.

End Json.

(** ** The regular expression of the streaming loop

    The expression reads, with Q for the double quote and B for the
    backslash:  Q narrative Q \s* : \s* Q ( (?: B . | [^ Q B] )* ) Q.
    [narrativeMatch] is the capture of its leftmost match.  The two
    alternatives of the group begin with different code units and neither
    begins with a quote, so the greedy reading of the body is the only one
    and no shorter body can be followed by the closing quote. *)

Fixpoint skipSpaces (s : jsstring) : jsstring :=
  match s with
  | c :: r => if isSpace c then skipSpaces r else s
  | [] => []
  end.

(** The group and the closing quote: the captured body, up to the quote
    that ends it.  The dot does not match a line terminator. *)
Fixpoint narrativeBody (s : jsstring) : option jsstring :=
  match s with
  | [] => None
  | c :: r =>
      if c =? 34 then Some []
      else if c =? 92 then
        match r with
        | e :: r1 =>
            if isLineTerminator e then None
            else
              match narrativeBody r1 with
              | Some body => Some (c :: e :: body)
              | None => None
              end
        | [] => None
        end
      else
        match narrativeBody r with
        | Some body => Some (c :: body)
        | None => None
        end
  end.

(** The expression tried at the start of [s]. *)
Definition narrativeMatchHere (s : jsstring) : option jsstring :=
  match Json.stripPrefix (jsq "'narrative'") s with
  | Some r =>
      match skipSpaces r with
      | colon :: r1 =>
          if colon =? 58 then
            match skipSpaces r1 with
            | q :: r2 => if q =? 34 then narrativeBody r2 else None
            | [] => None
            end
          else None
      | [] => None
      end
  | None => None
  end.

(** [accumulatedJson.match(...)]: [Some capture] for the leftmost start
    at which the expression matches, [None] when there is none. *)
Fixpoint narrativeMatch (s : jsstring) : option jsstring :=
  match narrativeMatchHere s with
  | Some body => Some body
  | None =>
      match s with
      | _ :: r => narrativeMatch r
      | [] => None
      end
  end.

(** ** The interfaces of types.ts *)

Local Open Scope Z_scope.

Module Faction.
Record t := mk {
  name : jsstring;
  description : jsstring;
  leader : jsstring;
  headquarters : jsstring;
  ideology : jsstring;
  relationships : jsstring;
  sigilImageUrl : jsstring
}.

(** The spread of a faction with a new [sigilImageUrl]. *)
Definition withSigil (f : t) (url : jsstring) : t :=
  mk (name f) (description f) (leader f) (headquarters f) (ideology f)
     (relationships f) url.
End Faction.

Module TimelineEvent.
Record t := mk { era : jsstring; description : jsstring }.
End TimelineEvent.

(** The entries of [Lore.locations] and [Lore.characters]. *)
Module Entry.
Record t := mk { name : jsstring; description : jsstring }.
End Entry.

Module Secret.
Record t := mk { title : jsstring; description : jsstring }.
End Secret.

Module Deity.
Record t := mk { name : jsstring; domain : jsstring; description : jsstring }.
End Deity.

Module Cosmology.
Record t := mk { creationMyth : jsstring; deities : list Deity.t }.
End Cosmology.

Module MagicSystem.
Record t := mk { name : jsstring; description : jsstring; rules : list jsstring }.
End MagicSystem.

Module Race.
Record t := mk { name : jsstring; description : jsstring; abilities : jsstring }.
End Race.

Module Creature.
Record t := mk { name : jsstring; description : jsstring; habitat : jsstring }.
End Creature.

Module HistoricalFigure.
Record t := mk { name : jsstring; description : jsstring; significance : jsstring }.
End HistoricalFigure.

Module Lore.
Record t := mk {
  worldName : jsstring;
  coreConcept : jsstring;
  factions : list Faction.t;
  timeline : list TimelineEvent.t;
  locations : list Entry.t;
  characters : list Entry.t;
  knowledge : list jsstring;
  secrets : list Secret.t;
  cosmology : Cosmology.t;
  magicSystem : MagicSystem.t;
  races : list Race.t;
  creatures : list Creature.t;
  historicalFigures : list HistoricalFigure.t
}.

Definition withLocations (l : t) (v : list Entry.t) : t :=
  mk (worldName l) (coreConcept l) (factions l) (timeline l) v
     (characters l) (knowledge l) (secrets l) (cosmology l) (magicSystem l)
     (races l) (creatures l) (historicalFigures l).

Definition withCharacters (l : t) (v : list Entry.t) : t :=
  mk (worldName l) (coreConcept l) (factions l) (timeline l) (locations l)
     v (knowledge l) (secrets l) (cosmology l) (magicSystem l)
     (races l) (creatures l) (historicalFigures l).

Definition withKnowledge (l : t) (v : list jsstring) : t :=
  mk (worldName l) (coreConcept l) (factions l) (timeline l) (locations l)
     (characters l) v (secrets l) (cosmology l) (magicSystem l)
     (races l) (creatures l) (historicalFigures l).
End Lore.

Module Character.
Record t := mk {
  name : jsstring;
  backstory : jsstring;
  health : Z;
  maxHealth : Z;
  mana : Z;
  maxMana : Z;
  stamina : Z;
  maxStamina : Z;
  level : Z;
  xp : Z;
  xpToNextLevel : Z
}.

Definition withHealth (c : t) (v : Z) : t :=
  mk (name c) (backstory c) v (maxHealth c) (mana c) (maxMana c)
     (stamina c) (maxStamina c) (level c) (xp c) (xpToNextLevel c).

Definition withMana (c : t) (v : Z) : t :=
  mk (name c) (backstory c) (health c) (maxHealth c) v (maxMana c)
     (stamina c) (maxStamina c) (level c) (xp c) (xpToNextLevel c).

Definition withStamina (c : t) (v : Z) : t :=
  mk (name c) (backstory c) (health c) (maxHealth c) (mana c) (maxMana c)
     v (maxStamina c) (level c) (xp c) (xpToNextLevel c).

Definition withXp (c : t) (v : Z) : t :=
  mk (name c) (backstory c) (health c) (maxHealth c) (mana c) (maxMana c)
     (stamina c) (maxStamina c) (level c) v (xpToNextLevel c).
End Character.

Module Setting.
Record t := mk { name : jsstring; description : jsstring }.
End Setting.

Module Scenario.
Record t := mk {
  character : Character.t;
  setting : Setting.t;
  goal : jsstring;
  objective : jsstring
}.

Definition withCharacter (s : t) (c : Character.t) : t :=
  mk c (setting s) (goal s) (objective s).
End Scenario.

(** An objective is a node of a tree; [subObjectives] is optional. *)
Module Objective.
Inductive t : Type :=
  mk { text : jsstring; isCompleted : bool; subObjectives : option (list t) }.
End Objective.

Inductive QuestStatus := Active | Completed | Failed.

Module Quest.
Record t := mk {
  title : jsstring;
  description : jsstring;
  status : QuestStatus;
  objectives : list Objective.t
}.
End Quest.

Inductive ItemRarity := Common | Uncommon | Rare | Epic | Legendary.
Inductive ItemType := Consumable | QuestItem | Equipment | Tome.
Inductive Stat := StatHealth | StatMana | StatStamina.

Module ItemEffect.
Record t := mk { stat : Stat; value : Z }.
End ItemEffect.

Module Item.
Record t := mk {
  name : jsstring;
  description : jsstring;
  rarity : ItemRarity;
  type : ItemType;
  usable : bool;
  effects : list ItemEffect.t
}.
End Item.

Inductive EntryType := Player | Narrator.

Module StoryEntry.
Record t := mk {
  type : EntryType;
  text : jsstring;
  characterName : option jsstring;
  imageUrl : option jsstring;
  imageIsLoading : option bool
}.

(** The spread of an entry with a new [text]. *)
Definition withText (e : t) (v : jsstring) : t :=
  mk (type e) v (characterName e) (imageUrl e) (imageIsLoading e).

(** The literals of the source. *)
Definition player (v : jsstring) : t := mk Player v None None None.
Definition narrator (v : jsstring) : t := mk Narrator v None None None.
Definition spoken (who v : jsstring) : t := mk Narrator v (Some who) None None.
Definition placeholder : t := mk Narrator [] None None (Some true).
End StoryEntry.

Module GameState.
Record t := mk {
  lore : Lore.t;
  scenario : Scenario.t;
  inventory : list Item.t;
  currentLocation : jsstring;
  storyLog : list StoryEntry.t;
  objective : jsstring;
  quests : list Quest.t;
  isGameOver : bool;
  gameOverMessage : jsstring
}.

Definition withStoryLog (g : t) (v : list StoryEntry.t) : t :=
  mk (lore g) (scenario g) (inventory g) (currentLocation g) v
     (objective g) (quests g) (isGameOver g) (gameOverMessage g).

Definition withLore (g : t) (v : Lore.t) : t :=
  mk v (scenario g) (inventory g) (currentLocation g) (storyLog g)
     (objective g) (quests g) (isGameOver g) (gameOverMessage g).

Definition withScenario (g : t) (v : Scenario.t) : t :=
  mk (lore g) v (inventory g) (currentLocation g) (storyLog g)
     (objective g) (quests g) (isGameOver g) (gameOverMessage g).
End GameState.

Module Dialogue.
Record t := mk { characterName : jsstring; text : jsstring }.
End Dialogue.

(** The override of [questUpdate.newStatus]: 'completed' or 'failed'. *)
Inductive NewStatus := NewCompleted | NewFailed.

Definition statusOf (n : NewStatus) : QuestStatus :=
  match n with NewCompleted => Completed | NewFailed => Failed end.

Module QuestUpdate.
Record t := mk {
  questTitle : jsstring;
  objectiveText : jsstring;
  newStatus : option NewStatus
}.
End QuestUpdate.

Module CharacterUpdate.
Record t := mk {
  health : option Z;
  mana : option Z;
  stamina : option Z;
  xpGained : option Z
}.
End CharacterUpdate.

Inductive LoreType := LoreLocation | LoreCharacter | LoreKnowledge.

Module LoreUpdate.
Record t := mk { type : LoreType; name : jsstring; description : jsstring }.
End LoreUpdate.

Module GeminiResponse.
Record t := mk {
  narrative : jsstring;
  dialogue : option (list Dialogue.t);
  newLocation : jsstring;
  updatedInventory : list Item.t;
  newObjective : jsstring;
  newQuest : option Quest.t;
  questUpdate : option QuestUpdate.t;
  isGameOver : bool;
  gameOverMessage : jsstring;
  characterUpdate : option CharacterUpdate.t;
  loreUpdate : option LoreUpdate.t;
  requestImageGeneration : option bool
}.
End GeminiResponse.

(** ** Reading a parsed document at the type [GeminiResponse]

    [const response: GeminiResponse = JSON.parse(accumulatedJson)] is an
    unchecked cast.  [Decode.response] is the value the code reads when
    the document has the shape of the interface; it is [None] for a
    document outside the interface, which the model does not follow
    further.  An optional property that the code tests for truthiness may
    also be [null]. *)

Module Decode.

Fixpoint depth (v : Json.t) : nat :=
  match v with
  | Json.Array xs => S (list_max (List.map depth xs))
  | Json.Object ms => S (list_max (List.map (fun m => depth (snd m)) ms))
  | _ => 1%nat
  end.

Definition str (v : Json.t) : option jsstring :=
  match v with Json.String s => Some s | _ => None end.

Definition boolean (v : Json.t) : option bool :=
  match v with Json.Bool b => Some b | _ => None end.

Fixpoint digitsValue (acc : Z) (ds : jsstring) : option Z :=
  match ds with
  | [] => Some acc
  | d :: r =>
      if Json.isDigit d then digitsValue (acc * 10 + Z.of_N (d - 48)) r
      else None
  end.

(** An integer written without fraction and exponent. *)
Definition int (v : Json.t) : option Z :=
  match v with
  | Json.Number (c :: ds) =>
      if (c =? 45)%N then Z.opp <$> digitsValue 0 ds
      else digitsValue 0 (c :: ds)
  | _ => None
  end.

Definition array {A} (f : Json.t -> option A) (v : Json.t) : option (list A) :=
  match v with Json.Array xs => mapM f xs | _ => None end.

(** A property of the interface that is not optional. *)
Definition req {A} (k : string) (f : Json.t -> option A) (v : Json.t) : option A :=
  Json.get (js k) v ≫= f.

(** An optional property compared with [undefined]. *)
Definition opt {A} (k : string) (f : Json.t -> option A) (v : Json.t)
  : option (option A) :=
  match Json.get (js k) v with
  | None => Some None
  | Some x => Some <$> f x
  end.

(** An optional property tested for truthiness. *)
Definition optTruthy {A} (k : string) (f : Json.t -> option A) (v : Json.t)
  : option (option A) :=
  match Json.get (js k) v with
  | None | Some Json.Null => Some None
  | Some x => Some <$> f x
  end.

Definition oneOf {A} (table : list (string * A)) (v : Json.t) : option A :=
  s ← str v;
  snd <$> List.find (fun p => bool_decide (js (fst p) = s)) table.

Definition questStatus := oneOf
  [("active"%string, Active); ("completed"%string, Completed);
   ("failed"%string, Failed)].
Definition newStatus := oneOf
  [("completed"%string, NewCompleted); ("failed"%string, NewFailed)].
Definition rarity := oneOf
  [("Common"%string, Common); ("Uncommon"%string, Uncommon);
   ("Rare"%string, Rare); ("Epic"%string, Epic);
   ("Legendary"%string, Legendary)].
Definition itemType := oneOf
  [("Consumable"%string, Consumable); ("Quest Item"%string, QuestItem);
   ("Equipment"%string, Equipment); ("Tome"%string, Tome)].
Definition stat := oneOf
  [("health"%string, StatHealth); ("mana"%string, StatMana);
   ("stamina"%string, StatStamina)].
Definition loreType := oneOf
  [("location"%string, LoreLocation); ("character"%string, LoreCharacter);
   ("knowledge"%string, LoreKnowledge)].

Fixpoint objectiveAt (fuel : nat) (v : Json.t) : option Objective.t :=
  match fuel with
  | O => None
  | S fuel' =>
      t ← req "text" str v;
      c ← req "isCompleted" boolean v;
      subs ← optTruthy "subObjectives" (array (objectiveAt fuel')) v;
      Some (Objective.mk t c subs)
  end.

Definition objective (v : Json.t) : option Objective.t :=
  objectiveAt (depth v) v.

Definition quest (v : Json.t) : option Quest.t :=
  t ← req "title" str v;
  d ← req "description" str v;
  s ← req "status" questStatus v;
  os ← req "objectives" (array objective) v;
  Some (Quest.mk t d s os).

Definition itemEffect (v : Json.t) : option ItemEffect.t :=
  s ← req "stat" stat v;
  n ← req "value" int v;
  Some (ItemEffect.mk s n).

Definition item (v : Json.t) : option Item.t :=
  n ← req "name" str v;
  d ← req "description" str v;
  r ← req "rarity" rarity v;
  t ← req "type" itemType v;
  u ← req "usable" boolean v;
  es ← req "effects" (array itemEffect) v;
  Some (Item.mk n d r t u es).

Definition dialogue (v : Json.t) : option Dialogue.t :=
  c ← req "characterName" str v;
  t ← req "text" str v;
  Some (Dialogue.mk c t).

Definition questUpdate (v : Json.t) : option QuestUpdate.t :=
  q ← req "questTitle" str v;
  o ← req "objectiveText" str v;
  n ← optTruthy "newStatus" newStatus v;
  Some (QuestUpdate.mk q o n).

Definition characterUpdate (v : Json.t) : option CharacterUpdate.t :=
  match v with
  | Json.Object _ =>
      h ← opt "health" int v;
      m ← opt "mana" int v;
      s ← opt "stamina" int v;
      x ← optTruthy "xpGained" int v;
      Some (CharacterUpdate.mk h m s x)
  | _ => None
  end.

Definition loreUpdate (v : Json.t) : option LoreUpdate.t :=
  t ← req "type" loreType v;
  n ← req "name" str v;
  d ← req "description" str v;
  Some (LoreUpdate.mk t n d).

Definition response (v : Json.t) : option GeminiResponse.t :=
  narrative ← req "narrative" str v;
  dialogue ← optTruthy "dialogue" (array dialogue) v;
  newLocation ← req "newLocation" str v;
  updatedInventory ← req "updatedInventory" (array item) v;
  newObjective ← req "newObjective" str v;
  newQuest ← optTruthy "newQuest" quest v;
  questUpdate ← optTruthy "questUpdate" questUpdate v;
  isGameOver ← req "isGameOver" boolean v;
  gameOverMessage ← req "gameOverMessage" str v;
  characterUpdate ← optTruthy "characterUpdate" characterUpdate v;
  loreUpdate ← optTruthy "loreUpdate" loreUpdate v;
  requestImageGeneration ← optTruthy "requestImageGeneration" boolean v;
  Some (GeminiResponse.mk narrative dialogue newLocation updatedInventory
          newObjective newQuest questUpdate isGameOver gameOverMessage
          characterUpdate loreUpdate requestImageGeneration).

End Decode.

(** ** The quest update of the reconciler *)

(** [JSON.stringify(a) === JSON.stringify(b)] on two lists of objectives.
    The serialisation writes the three properties of every node in the
    order they have in the object, which the spreads of
    [updateObjectivesRecursively] keep, so two lists serialise alike
    exactly when they are the same trees (lemma [sameJson_spec]). *)
Fixpoint sameJsonNode (a b : Objective.t) : bool :=
  match a, b with
  | Objective.mk ta ca sa, Objective.mk tb cb sb =>
      bool_decide (ta = tb) && Bool.eqb ca cb &&
      match sa, sb with
      | None, None => true
      | Some xs, Some ys =>
          (fix go (xs ys : list Objective.t) : bool :=
             match xs, ys with
             | [], [] => true
             | x :: xs', y :: ys' => sameJsonNode x y && go xs' ys'
             | _, _ => false
             end) xs ys
      | _, _ => false
      end
  end.

Fixpoint sameJson (xs ys : list Objective.t) : bool :=
  match xs, ys with
  | [], [] => true
  | x :: xs', y :: ys' => sameJsonNode x y && sameJson xs' ys'
  | _, _ => false
  end.

(** The callback of the [map] in [updateObjectivesRecursively]. *)
Fixpoint updateObjective (text : jsstring) (o : Objective.t) : Objective.t :=
  match o with
  | Objective.mk t c subs =>
      if bool_decide (t = text) then Objective.mk t true subs
      else
        match subs with
        | Some subObjectives =>
            let newSubObjectives := List.map (updateObjective text) subObjectives in
            let wasChanged := negb (sameJson newSubObjectives subObjectives) in
            if wasChanged then
              let allSubsComplete := forallb Objective.isCompleted newSubObjectives in
              Objective.mk t allSubsComplete (Some newSubObjectives)
            else o
        | None => o
        end
  end.

Definition updateObjectivesRecursively (objectives : list Objective.t)
    (text : jsstring) : list Objective.t :=
  List.map (updateObjective text) objectives.

(** The callback of the [every] in [areAllObjectivesComplete]. *)
Fixpoint objectiveComplete (o : Objective.t) : bool :=
  match o with
  | Objective.mk _ c subs =>
      c && match subs with
           | None => true
           | Some subObjectives => forallb objectiveComplete subObjectives
           end
  end.

Definition areAllObjectivesComplete (objectives : list Objective.t) : bool :=
  forallb objectiveComplete objectives.

(** The callback of [updatedQuests.map] for a [questUpdate]. *)
Definition updateQuest (u : QuestUpdate.t) (q : Quest.t) : Quest.t :=
  if bool_decide (Quest.title q = QuestUpdate.questTitle u) then
    let updatedObjectives :=
      updateObjectivesRecursively (Quest.objectives q) (QuestUpdate.objectiveText u) in
    let allComplete := areAllObjectivesComplete updatedObjectives in
    let finalStatus :=
      match QuestUpdate.newStatus u with
      | Some newStatus => statusOf newStatus
      | None => if allComplete then Completed else Quest.status q
      end in
    Quest.mk (Quest.title q) (Quest.description q) finalStatus updatedObjectives
  else q.

(** [updatedQuests] of the updater: the new quest is appended first, the
    quest update is mapped over the result. *)
Definition reconcileQuests (response : GeminiResponse.t) (quests : list Quest.t)
    : list Quest.t :=
  let updatedQuests :=
    match GeminiResponse.newQuest response with
    | Some newQuest => quests ++ [newQuest]
    | None => quests
    end in
  match GeminiResponse.questUpdate response with
  | Some u => List.map (updateQuest u) updatedQuests
  | None => updatedQuests
  end.

(** ** The character update of the reconciler *)

Definition overwrite (field : option Z) (set : Character.t -> Z -> Character.t)
    (c : Character.t) : Character.t :=
  match field with Some v => set c v | None => c end.

(** The three [!== undefined] assignments. *)
Definition applyStats (response : GeminiResponse.t) (c : Character.t) : Character.t :=
  match GeminiResponse.characterUpdate response with
  | Some cu =>
      overwrite (CharacterUpdate.stamina cu) Character.withStamina
        (overwrite (CharacterUpdate.mana cu) Character.withMana
           (overwrite (CharacterUpdate.health cu) Character.withHealth c))
  | None => c
  end.

(** [response.characterUpdate?.xpGained] when it is truthy: a number
    other than zero. *)
Definition truthyXpGained (response : GeminiResponse.t) : option Z :=
  match GeminiResponse.characterUpdate response with
  | Some cu =>
      match CharacterUpdate.xpGained cu with
      | Some xpGained => if xpGained =? 0 then None else Some xpGained
      | None => None
      end
  | None => None
  end.

(** The character after the turn, and whether [setIsLevelingUp(true)] ran. *)
Definition reconcileCharacter (response : GeminiResponse.t) (c : Character.t)
    : Character.t * bool :=
  let updatedCharacter := applyStats response c in
  match truthyXpGained response with
  | Some xpGained =>
      let newXp := Character.xp updatedCharacter + xpGained in
      (Character.withXp updatedCharacter newXp,
       newXp >=? Character.xpToNextLevel updatedCharacter)
  | None => (updatedCharacter, false)
  end.

(** ** The story log of the reconciler *)

(** [log[i] = entry] on an array: inside the array the element is
    replaced, at its end the array grows by one; further out JavaScript
    leaves holes, which a list of entries does not have ([None]). *)
Definition arraySet (log : list StoryEntry.t) (i : nat) (entry : StoryEntry.t)
    : option (list StoryEntry.t) :=
  if decide (i < length log)%nat then Some (<[i := entry]> log)
  else if decide (i = length log) then Some (log ++ [entry])
  else None.

(** [if (log[i]) log[i] = f(log[i])]: an entry is an object, hence truthy. *)
Definition setIfPresent (log : list StoryEntry.t) (i : nat)
    (f : StoryEntry.t -> StoryEntry.t) : list StoryEntry.t :=
  match log !! i with
  | Some entry => <[i := f entry]> log
  | None => log
  end.

Definition dialogueEntries (response : GeminiResponse.t) : list StoryEntry.t :=
  match GeminiResponse.dialogue response with
  | Some ds =>
      List.map (fun d => StoryEntry.spoken (Dialogue.characterName d) (Dialogue.text d)) ds
  | None => []
  end.

(** The updater passed to [setGameState] once the response is parsed,
    with the flag of [setIsLevelingUp(true)]. *)
Definition reconcile (narratorEntryIndex : nat) (response : GeminiResponse.t)
    (prev : GameState.t) : option (GameState.t * bool) :=
  finalLog ← arraySet (GameState.storyLog prev) narratorEntryIndex
                (StoryEntry.narrator (GeminiResponse.narrative response));
  let '(updatedCharacter, levelUp) :=
    reconcileCharacter response (Scenario.character (GameState.scenario prev)) in
  Some (GameState.mk
          (GameState.lore prev)
          (Scenario.withCharacter (GameState.scenario prev) updatedCharacter)
          (GeminiResponse.updatedInventory response)
          (GeminiResponse.newLocation response)
          (finalLog ++ dialogueEntries response)
          (GeminiResponse.newObjective response)
          (reconcileQuests response (GameState.quests prev))
          (GeminiResponse.isGameOver response)
          (GeminiResponse.gameOverMessage response),
        levelUp).

(** ** The state of the game screen *)

Module Screen.
(** The [useState] cells of [GameScreen] that the handlers read and
    write.  The notification lists, the active tab and the tooltip only
    feed the rendering. *)
Record t := mk {
  gameState : GameState.t;
  playerInput : jsstring;
  isLoading : bool;
  proposedUpdate : option LoreUpdate.t;
  isLevelingUp : bool
}.

Definition withGameState (s : t) (g : GameState.t) : t :=
  mk g (playerInput s) (isLoading s) (proposedUpdate s) (isLevelingUp s).

Definition withPlayerInput (s : t) (v : jsstring) : t :=
  mk (gameState s) v (isLoading s) (proposedUpdate s) (isLevelingUp s).

Definition withIsLoading (s : t) (v : bool) : t :=
  mk (gameState s) (playerInput s) v (proposedUpdate s) (isLevelingUp s).

Definition withProposedUpdate (s : t) (v : option LoreUpdate.t) : t :=
  mk (gameState s) (playerInput s) (isLoading s) v (isLevelingUp s).

Definition withIsLevelingUp (s : t) (v : bool) : t :=
  mk (gameState s) (playerInput s) (isLoading s) (proposedUpdate s) v.

(** The initial state of the component. *)
Definition initial (lore : Lore.t) (scenario : Scenario.t) : t :=
  mk (GameState.mk lore scenario [] (Setting.name (Scenario.setting scenario))
        [StoryEntry.narrator (Setting.description (Scenario.setting scenario))]
        (Scenario.objective scenario) [] false [])
     [] false None false.
End Screen.

(** What a [catch] receives. *)
Inductive Thrown :=
| ErrorObject (message : jsstring)
| OtherValue.

(** [err instanceof Error ? err.message : 'An unknown error occurred.'] *)
Definition errorText (err : Thrown) : jsstring :=
  match err with
  | ErrorObject message => message
  | OtherValue => js "An unknown error occurred."
  end.

(** What the gateway delivers for one turn: the texts of the chunks in
    their order, and then either the end of the stream or a throw. *)
Module Stream.
Record t := mk { fragments : list jsstring; failure : option Thrown }.

(** [getNextStepStream] rejecting before any chunk. *)
Definition frozen : t :=
  mk [] (Some (ErrorObject
    (js "The world seems to be frozen in time. Please try your action again."))).
End Stream.

(** The argument of [handleLevelUpConfirm]. *)
Module StatIncreases.
Record t := mk { maxHealth : Z; maxMana : Z; maxStamina : Z }.
End StatIncreases.

(** ** The handlers of the game screen *)

Section GameScreen.

(** The message of the [SyntaxError] that [JSON.parse] throws on a text;
    it depends on the engine. *)
Variable syntaxErrorMessage : jsstring -> jsstring.

(** [handleAcceptUpdate], the updater of its [setGameState]. *)
Definition acceptIntoLore (proposedUpdate : LoreUpdate.t) (lore : Lore.t) : Lore.t :=
  let name := LoreUpdate.name proposedUpdate in
  let description := LoreUpdate.description proposedUpdate in
  match LoreUpdate.type proposedUpdate with
  | LoreLocation =>
      if existsb (fun l => bool_decide (Entry.name l = name)) (Lore.locations lore)
      then lore
      else Lore.withLocations lore (Lore.locations lore ++ [Entry.mk name description])
  | LoreCharacter =>
      if existsb (fun c => bool_decide (Entry.name c = name)) (Lore.characters lore)
      then lore
      else Lore.withCharacters lore (Lore.characters lore ++ [Entry.mk name description])
  | LoreKnowledge =>
      let newKnowledge := name ++ js ": " ++ description in
      if existsb (fun k => bool_decide (k = newKnowledge)) (Lore.knowledge lore)
      then lore
      else Lore.withKnowledge lore (Lore.knowledge lore ++ [newKnowledge])
  end.

Definition handleAcceptUpdate (s : Screen.t) : Screen.t :=
  match Screen.proposedUpdate s with
  | None => s
  | Some proposedUpdate =>
      let prev := Screen.gameState s in
      Screen.withProposedUpdate
        (Screen.withGameState s
           (GameState.withLore prev (acceptIntoLore proposedUpdate (GameState.lore prev))))
        None
  end.

Definition handleRejectUpdate (s : Screen.t) : Screen.t :=
  Screen.withProposedUpdate s None.

(** The guard at the head of [executeAction]. *)
Definition returnsEarly (action : jsstring) (s : Screen.t) : bool :=
  negb (truthy (trim action))
  || Screen.isLoading s
  || GameState.isGameOver (Screen.gameState s)
  || bool_decide (is_Some (Screen.proposedUpdate s))
  || Screen.isLevelingUp s.

(** The state after the synchronous head of [executeAction]. *)
Definition beginTurn (action : jsstring) (s : Screen.t) : Screen.t :=
  let prev := Screen.gameState s in
  Screen.withIsLoading
    (Screen.withPlayerInput
       (Screen.withGameState s
          (GameState.withStoryLog prev
             (GameState.storyLog prev ++ [StoryEntry.player action; StoryEntry.narrator []])))
       [])
    true.

(** The text that the body of the streaming loop shows for a buffer,
    when it shows one: the match, its non-empty capture, and the capture
    decoded between two quotes.  A parse that throws is caught and
    ignored. *)
Definition narrativePreview (accumulatedJson : jsstring) : option jsstring :=
  match narrativeMatch accumulatedJson with
  | Some capture =>
      if truthy capture then
        match Json.parse ([34%N] ++ capture ++ [34%N]) with
        | Json.Ok (Json.String narrativeText) => Some narrativeText
        | _ => None
        end
      else None
  | None => None
  end.

(** One iteration of [for await (const chunk of stream)]. *)
Definition onChunk (narratorEntryIndex : nat) (st : jsstring * Screen.t)
    (chunk : jsstring) : jsstring * Screen.t :=
  let '(accumulatedJson, s) := st in
  let accumulatedJson := accumulatedJson ++ chunk in
  match narrativePreview accumulatedJson with
  | Some narrativeText =>
      let prev := Screen.gameState s in
      (accumulatedJson,
       Screen.withGameState s
         (GameState.withStoryLog prev
            (setIfPresent (GameState.storyLog prev) narratorEntryIndex
               (fun entry => StoryEntry.withText entry narrativeText))))
  | None => (accumulatedJson, s)
  end.

Definition consume (narratorEntryIndex : nat) (fragments : list jsstring)
    (s : Screen.t) : jsstring * Screen.t :=
  fold_left (onChunk narratorEntryIndex) fragments ([], s).

(** The [catch] block. *)
Definition catchTurn (narratorEntryIndex : nat) (err : Thrown) (s : Screen.t)
    : Screen.t :=
  let prev := Screen.gameState s in
  Screen.withGameState s
    (GameState.withStoryLog prev
       (setIfPresent (GameState.storyLog prev) narratorEntryIndex
          (fun _ => StoryEntry.narrator (errorText err)))).

(** The [try] block after a successful parse. *)
Definition applyResponse (narratorEntryIndex : nat) (response : GeminiResponse.t)
    (s : Screen.t) : option Screen.t :=
  match reconcile narratorEntryIndex response (Screen.gameState s) with
  | None => None
  | Some (next, levelUp) =>
      let s1 := Screen.withGameState s next in
      let s2 := if levelUp then Screen.withIsLevelingUp s1 true else s1 in
      let s3 :=
        match GeminiResponse.loreUpdate response with
        | Some u => Screen.withProposedUpdate s2 (Some u)
        | None => s2
        end in
      let wantsImage :=
        match GeminiResponse.requestImageGeneration response with
        | Some b => b
        | None => false
        end in
      Some (if wantsImage && negb (GeminiResponse.isGameOver response) then
              Screen.withGameState s3
                (GameState.withStoryLog (Screen.gameState s3)
                   (GameState.storyLog (Screen.gameState s3) ++ [StoryEntry.placeholder]))
            else s3)
  end.

(** How the [try] block ends for a stream.  [OutsideInterface]: the
    buffer parses to a document that is not a [GeminiResponse].  The
    parser never stops for lack of fuel (lemma [parse_fuel]). *)
Inductive Outcome :=
| Parsed (response : GeminiResponse.t)
| Caught (err : Thrown)
| OutsideInterface.

Definition outcomeOf (stream : Stream.t) (accumulatedJson : jsstring) : Outcome :=
  match Stream.failure stream with
  | Some err => Caught err
  | None =>
      match Json.parse accumulatedJson with
      | Json.SyntaxError => Caught (ErrorObject (syntaxErrorMessage accumulatedJson))
      | Json.Ok document =>
          match Decode.response document with
          | Some response => Parsed response
          | None => OutsideInterface
          end
      | Json.OutOfFuel => OutsideInterface
      end
  end.

(** [executeAction action], for the stream that the gateway delivers.
    [None]: the parsed document is outside [GeminiResponse]. *)
Definition executeAction (action : jsstring) (stream : Stream.t) (s : Screen.t)
    : option Screen.t :=
  if returnsEarly action s then Some s
  else
    let narratorEntryIndex := (length (GameState.storyLog (Screen.gameState s)) + 1)%nat in
    let '(accumulatedJson, s1) :=
      consume narratorEntryIndex (Stream.fragments stream) (beginTurn action s) in
    match outcomeOf stream accumulatedJson with
    | Parsed response =>
        s2 ← applyResponse narratorEntryIndex response s1;
        Some (Screen.withIsLoading s2 false)
    | Caught err =>
        Some (Screen.withIsLoading (catchTurn narratorEntryIndex err s1) false)
    | OutsideInterface => None
    end.

(** [handleSubmit]: the action is the text of the input field. *)
Definition handleSubmit (stream : Stream.t) (s : Screen.t) : option Screen.t :=
  executeAction (Screen.playerInput s) stream s.

Definition handleUseItem (item : Item.t) (stream : Stream.t) (s : Screen.t)
    : option Screen.t :=
  if negb (Item.usable item)
     || Screen.isLoading s
     || GameState.isGameOver (Screen.gameState s)
     || bool_decide (is_Some (Screen.proposedUpdate s))
     || Screen.isLevelingUp s
  then Some s
  else executeAction (js "use " ++ [34%N] ++ Item.name item ++ [34%N]) stream s.

(** [Number.isSafeInteger]: the integers that a number of the language
    holds exactly, together with their two neighbours. *)
Definition isSafeInteger (z : Z) : Prop := - (2 ^ 53 - 1) <= z <= 2 ^ 53 - 1.

(** The number nearest to [n / 2], in halves, for an integer [n]: a
    number has 53 significant bits, so [n / 2] is held as it is when [n]
    has no more than 53, and is rounded otherwise to the nearest multiple
    of the unit of its last bit, [u] halves, a tie going to the even
    multiple.  (Infinity, reached from 2 ^ 1024 on, is outside the model.) *)
Definition nearestHalves (n : Z) : Z :=
  let a := Z.abs n in
  if a <? 2 ^ 53 then n
  else
    let u := 2 ^ (Z.log2 a - 52) in
    let q := a / u in
    let r := a mod u in
    let rounded :=
      if 2 * r <? u then q
      else if u <? 2 * r then q + 1
      else if Z.even q then q else q + 1 in
    Z.sgn n * (rounded * u).

(** [Math.floor(x * 1.5)] for a number that holds the integer [x]: the
    product is the number nearest to [3 * x / 2]. *)
Definition timesOneAndHalf (x : Z) : Z := nearestHalves (3 * x) / 2.

(** The updater of [handleLevelUpConfirm]. *)
Definition levelUp (statIncreases : StatIncreases.t) (char : Character.t) : Character.t :=
  let newMaxHealth := Character.maxHealth char + StatIncreases.maxHealth statIncreases in
  let newMaxMana := Character.maxMana char + StatIncreases.maxMana statIncreases in
  let newMaxStamina := Character.maxStamina char + StatIncreases.maxStamina statIncreases in
  Character.mk
    (Character.name char)
    (Character.backstory char)
    newMaxHealth newMaxHealth
    newMaxMana newMaxMana
    newMaxStamina newMaxStamina
    (Character.level char + 1)
    (Character.xp char - Character.xpToNextLevel char)
    (timesOneAndHalf (Character.xpToNextLevel char)).

Definition handleLevelUpConfirm (statIncreases : StatIncreases.t) (s : Screen.t)
    : Screen.t :=
  let prev := Screen.gameState s in
  Screen.withIsLevelingUp
    (Screen.withGameState s
       (GameState.withScenario prev
          (Scenario.withCharacter (GameState.scenario prev)
             (levelUp statIncreases (Scenario.character (GameState.scenario prev))))))
    false.

End GameScreen.

(** ** The level-up modal *)

Module LevelUpModal.
Record t := mk { points : Z; healthInc : Z; manaInc : Z; staminaInc : Z }.

Definition initial : t := mk 10 0 0 0.

Definition handleIncrease (stat : Stat) (m : t) : t :=
  if points m >? 0 then
    match stat with
    | StatHealth => mk (points m - 1) (healthInc m + 5) (manaInc m) (staminaInc m)
    | StatMana => mk (points m - 1) (healthInc m) (manaInc m + 5) (staminaInc m)
    | StatStamina => mk (points m - 1) (healthInc m) (manaInc m) (staminaInc m + 5)
    end
  else m.

(** The argument that [handleConfirm] passes to [onConfirm]. *)
Definition handleConfirm (m : t) : StatIncreases.t :=
  StatIncreases.mk (healthInc m) (manaInc m) (staminaInc m).
End LevelUpModal.

(** ** The game screen as a transition system *)

(** What the player can do on the screen.  A submit carries the stream
    that the gateway will deliver for it. *)
Inductive Event :=
| InputChange (value : jsstring)
| SubmitForm (stream : Stream.t)
| ClickUseItem (item : Item.t) (stream : Stream.t)
| ClickAddToLore
| ClickIgnore
| ConfirmLevelUp (statIncreases : StatIncreases.t).

Section Transitions.

Variable syntaxErrorMessage : jsstring -> jsstring.

(** The discovery panel is rendered for [proposedUpdate && !isLoading],
    the modal for [isLevelingUp]. *)
Definition step (e : Event) (s : Screen.t) : option Screen.t :=
  match e with
  | InputChange value => Some (Screen.withPlayerInput s value)
  | SubmitForm stream => handleSubmit syntaxErrorMessage stream s
  | ClickUseItem item stream => handleUseItem syntaxErrorMessage item stream s
  | ClickAddToLore =>
      Some (if Screen.isLoading s then s else handleAcceptUpdate s)
  | ClickIgnore =>
      Some (if bool_decide (is_Some (Screen.proposedUpdate s)) && negb (Screen.isLoading s)
            then handleRejectUpdate s else s)
  | ConfirmLevelUp statIncreases =>
      Some (if Screen.isLevelingUp s then handleLevelUpConfirm statIncreases s else s)
  end.

Fixpoint run (events : list Event) (s : Screen.t) : option Screen.t :=
  match events with
  | [] => Some s
  | e :: events' =>
      match step e s with
      | Some s' => run events' s'
      | None => None
      end
  end.

End Transitions.

(** ** The factions stage of the lore generator *)

Module LoreGenerator.

Inductive GenerationStep :=
| Inputs | FoundationReview | FactionsReview | SystemsReview
| InhabitantsReview | Finalizing | Complete.

(** The cells of [LoreGenerator] that the factions stage reads and
    writes; [factions] is [loreBuilder.factions]. *)
Record t := mk {
  step : GenerationStep;
  coreConcept : jsstring;
  factions : option (list Faction.t);
  isLoading : bool;
  error : option jsstring
}.

Section Generation.

(** The image service for a sigil, by faction name, faction
    description and world concept: the image data of the first inline
    part of the answer, or [None] when the call throws or the answer
    has no image. *)
Variable sigilService : jsstring -> jsstring -> jsstring -> option jsstring.

(** [generateSigilImage]: every failure is caught and becomes the
    empty string. *)
Definition generateSigilImage (factionName factionDescription worldConcept : jsstring)
    : jsstring :=
  match sigilService factionName factionDescription worldConcept with
  | Some base64ImageBytes => js "data:image/png;base64," ++ base64ImageBytes
  | None => []
  end.

(** [generateLoreFactions], from the factions of the parsed answer, or
    from the failure of the call. *)
Definition generateLoreFactions (answer : option (list Faction.t))
    : Thrown + list Faction.t :=
  match answer with
  | Some data => inr (List.map (fun f => Faction.withSigil f []) data)
  | None =>
      inl (ErrorObject (js "Failed to raise the factions. The banners are in disarray."))
  end.

(** One iteration of the sigil loop, as the updater of its
    [setLoreBuilder] acts on [loreBuilder.factions]. *)
Definition carveSigil (worldConcept : jsstring) (builderFactions : list Faction.t)
    (faction : Faction.t) : list Faction.t :=
  let sigilImageUrl :=
    generateSigilImage (Faction.name faction) (Faction.description faction) worldConcept in
  let updatedFaction := Faction.withSigil faction sigilImageUrl in
  List.map (fun f => if bool_decide (Faction.name f = Faction.name updatedFaction)
                     then updatedFaction else f)
    builderFactions.

Definition carveSigils (worldConcept : jsstring) (baseFactions : list Faction.t)
    : list Faction.t :=
  fold_left (carveSigil worldConcept) baseFactions baseFactions.

(** [handleAcceptFoundation], run to its [finally] block. *)
Definition handleAcceptFoundation (answer : option (list Faction.t)) (s : t) : t :=
  match generateLoreFactions answer with
  | inr baseFactions =>
      mk FactionsReview (coreConcept s)
         (Some (carveSigils (coreConcept s) baseFactions)) false None
  | inl err =>
      mk FoundationReview (coreConcept s) (factions s) false (Some (errorText err))
  end.

End Generation.

(** The [disabled] attribute of the button of the factions review,
    the only control that calls [handleAcceptFactions]. *)
Definition acceptFactionsDisabled (s : t) : bool :=
  isLoading s ||
  match factions s with
  | Some fs => existsb (fun f => negb (truthy (Faction.sigilImageUrl f))) fs
  | None => true
  end.

End LoreGenerator.

(** ** Sample values for the concrete statements *)

Module Sample.

Definition lore : Lore.t :=
  Lore.mk (js "Aeth") (js "A drowned world") [] [] [] [] [] []
    (Cosmology.mk (js "The tide rose") []) (MagicSystem.mk (js "Tidecraft") (js "Salt magic") [])
    [] [] [].

Definition hero : Character.t :=
  Character.mk (js "Mira") (js "A ferry pilot") 80 100 30 50 40 60 1 95 100.

Definition scenario : Scenario.t :=
  Scenario.mk hero (Setting.mk (js "Harbor") (js "A grey harbor at dawn."))
    (js "Find the lighthouse") (js "Leave the harbor").

Definition screen : Screen.t := Screen.initial lore scenario.

(** The engine's message for a text that does not parse. *)
Definition message (text : jsstring) : jsstring := js "Unexpected end of JSON input".

(** The three fragments of the narrative example, and their buffers. *)
Definition helloFragments : list jsstring :=
  [jsq "{'narrative':'Hel"; js "lo wor"; jsq "ld','newLocation':'X'}"].

Definition helloDocument : jsstring :=
  jsq "{'narrative':'Hello world','newLocation':'X'}".

Definition potion : Item.t :=
  Item.mk (js "Potion") (js "A red vial") Common Consumable true
    [ItemEffect.mk StatHealth 20].

(** [JSON.parse] and the cast to the interface, in one. *)
Definition read (text : jsstring) : option GeminiResponse.t :=
  match Json.parse text with
  | Json.Ok document => Decode.response document
  | _ => None
  end.

(** A turn result of the interface with nothing optional in it. *)
Definition plain : GeminiResponse.t :=
  GeminiResponse.mk (js "You walk on.") None (js "Pier") [potion] (js "Reach the pier")
    None None false [] None None None.

Definition withQuest (q : Quest.t) : GeminiResponse.t :=
  GeminiResponse.mk (js "You walk on.") None (js "Pier") [potion] (js "Reach the pier")
    (Some q) None false [] None None None.

Definition leaf (text : string) (done : bool) : Objective.t :=
  Objective.mk (js text) done None.

Definition node (text : string) (done : bool) (subs : list Objective.t) : Objective.t :=
  Objective.mk (js text) done (Some subs).

(** A turn result as the gateway streams it, in two fragments. *)
Definition xpDocument : list jsstring :=
  [jsq "{'narrative':'You win the duel.','newLocation':'Pier','updatedInventory':[],";
   jsq "'newObjective':'Rest','isGameOver':false,'gameOverMessage':'','characterUpdate':{'xpGained':10}}"].

(** The same turn result, read at the interface. *)
Definition xpResponse : GeminiResponse.t :=
  Eval vm_compute in
    match read (concat xpDocument) with
    | Some response => response
    | None => plain
    end.

(** A turn result cut short. *)
Definition truncated : list jsstring :=
  [jsq "{'narrative':'You win the duel.','newLoc"].

End Sample.

(** ** Notions used in the statements, and sample values *)

(** The game state of a turn in flight: the state at the submit, with
    the player's entry and the narrator's entry (showing [t]) appended. *)
Definition inTurn (action : jsstring) (g : GameState.t) (t : jsstring) : GameState.t :=
  GameState.withStoryLog g
    (GameState.storyLog g ++ [StoryEntry.player action; StoryEntry.narrator t]).

(** The screen after a turn that ended in the catch block with [err]. *)
Definition voided (action : jsstring) (err : Thrown) (s : Screen.t) : Screen.t :=
  Screen.mk
    (GameState.withStoryLog (Screen.gameState s)
       (GameState.storyLog (Screen.gameState s)
        ++ [StoryEntry.player action; StoryEntry.narrator (errorText err)]))
    [] false (Screen.proposedUpdate s) (Screen.isLevelingUp s).

(** Every node of a tree, the root first; every node of a list of trees. *)
Fixpoint nodes (o : Objective.t) : list Objective.t :=
  match o with
  | Objective.mk _ _ subs =>
      o :: match subs with
           | Some subObjectives => flat_map nodes subObjectives
           | None => []
           end
  end.

Definition allNodes (objectives : list Objective.t) : list Objective.t :=
  flat_map nodes objectives.

Definition completed (o : Objective.t) : Prop := Objective.isCompleted o = true.

(** A quest is consistent when its status is 'completed' only with every
    objective, at every depth, completed. *)
Definition consistent (q : Quest.t) : Prop :=
  Quest.status q = Completed -> Forall completed (allNodes (Quest.objectives q)).

(** The turn result carries no explicit status for the quest it updates. *)
Definition noOverride (response : GeminiResponse.t) : Prop :=
  match GeminiResponse.questUpdate response with
  | Some u => QuestUpdate.newStatus u = None
  | None => True
  end.

(** The new quest of the turn result, when there is one, is consistent. *)
Definition arrivesConsistent (response : GeminiResponse.t) : Prop :=
  match GeminiResponse.newQuest response with
  | Some q => consistent q
  | None => True
  end.

Module SampleQuests.

(** An active quest whose only root objective has one open
    sub-objective. *)
Definition nested : Quest.t :=
  Quest.mk (js "The Lamp") (js "Relight the lamp") Active
    [Sample.node "Climb the tower" false [Sample.leaf "Find the key" false]].

(** The update that names the root objective, without a status. *)
Definition markRoot : QuestUpdate.t :=
  QuestUpdate.mk (js "The Lamp") (js "Climb the tower") None.

(** The update that names the sub-objective, without a status. *)
Definition markLeaf : QuestUpdate.t :=
  QuestUpdate.mk (js "The Lamp") (js "Find the key") None.

(** The same, with the explicit status 'failed'. *)
Definition markLeafFailed : QuestUpdate.t :=
  QuestUpdate.mk (js "The Lamp") (js "Find the key") (Some NewFailed).

(** A quest that the turn result delivers as 'completed' with an open
    objective. *)
Definition bornCompleted : Quest.t :=
  Quest.mk (js "The Bell") (js "Ring the bell") Completed
    [Sample.leaf "Find the rope" false].

(** A quest that an update with the explicit status 'failed' left with
    its only objective completed, and the update that names this
    objective once more, without a status. *)
Definition gate : Quest.t :=
  Quest.mk (js "The Gate") (js "Open the gate") Active [Sample.leaf "Find the lever" false].

Definition leverFailed : QuestUpdate.t :=
  QuestUpdate.mk (js "The Gate") (js "Find the lever") (Some NewFailed).

Definition leverAgain : QuestUpdate.t :=
  QuestUpdate.mk (js "The Gate") (js "Find the lever") None.

Definition gateFailed : Quest.t := Eval vm_compute in updateQuest leverFailed gate.

Definition withUpdate (u : QuestUpdate.t) : GeminiResponse.t :=
  GeminiResponse.mk (js "You walk on.") None (js "Pier") [] (js "Reach the pier")
    None (Some u) false [] None None None.

(** The sample screen in the middle of a turn; the narrator's entry is
    at index 2. *)
Definition inFlight : GameState.t :=
  Screen.gameState (beginTurn (js "look") Sample.screen).

Definition afterBornCompleted : GameState.t * bool :=
  Eval vm_compute in
    match reconcile 2 (Sample.withQuest bornCompleted) inFlight with
    | Some r => r
    | None => (inFlight, false)
    end.

End SampleQuests.

(** The screen after an accepted turn with the turn result [response]. *)
Definition resolved (action : jsstring) (response : GeminiResponse.t) (s : Screen.t)
    : Screen.t :=
  let prev := Screen.gameState s in
  let '(updatedCharacter, levelUp) :=
    reconcileCharacter response (Scenario.character (GameState.scenario prev)) in
  let wantsImage :=
    match GeminiResponse.requestImageGeneration response with
    | Some b => b && negb (GeminiResponse.isGameOver response)
    | None => false
    end in
  Screen.mk
    (GameState.mk
       (GameState.lore prev)
       (Scenario.withCharacter (GameState.scenario prev) updatedCharacter)
       (GeminiResponse.updatedInventory response)
       (GeminiResponse.newLocation response)
       ((GameState.storyLog prev
         ++ [StoryEntry.player action;
             StoryEntry.narrator (GeminiResponse.narrative response)])
        ++ dialogueEntries response
        ++ (if wantsImage then [StoryEntry.placeholder] else []))
       (GeminiResponse.newObjective response)
       (reconcileQuests response (GameState.quests prev))
       (GeminiResponse.isGameOver response)
       (GeminiResponse.gameOverMessage response))
    []
    false
    match GeminiResponse.loreUpdate response with
    | Some u => Some u
    | None => Screen.proposedUpdate s
    end
    (Screen.isLevelingUp s || levelUp).

(** Ten clicks on the health button of the modal. *)
Definition allPointsToHealth : StatIncreases.t :=
  LevelUpModal.handleConfirm
    (Nat.iter 10 (LevelUpModal.handleIncrease StatHealth) LevelUpModal.initial).

Definition characterOf (s : Screen.t) : Character.t :=
  Scenario.character (GameState.scenario (Screen.gameState s)).

(** The numbers of a character and of an allocation on which the
    arithmetic of a level-up is exact in the numbers of the language:
    every operand and every sum or difference is a safe integer, and
    three times the threshold has no more than 53 bits. *)
Definition levelUpExact (statIncreases : StatIncreases.t) (char : Character.t) : Prop :=
  isSafeInteger (Character.level char)
  /\ isSafeInteger (Character.level char + 1)
  /\ isSafeInteger (Character.xp char)
  /\ isSafeInteger (Character.xpToNextLevel char)
  /\ isSafeInteger (Character.xp char - Character.xpToNextLevel char)
  /\ Z.abs (3 * Character.xpToNextLevel char) < 2 ^ 53
  /\ isSafeInteger (Character.maxHealth char)
  /\ isSafeInteger (StatIncreases.maxHealth statIncreases)
  /\ isSafeInteger (Character.maxHealth char + StatIncreases.maxHealth statIncreases)
  /\ isSafeInteger (Character.maxMana char)
  /\ isSafeInteger (StatIncreases.maxMana statIncreases)
  /\ isSafeInteger (Character.maxMana char + StatIncreases.maxMana statIncreases)
  /\ isSafeInteger (Character.maxStamina char)
  /\ isSafeInteger (StatIncreases.maxStamina statIncreases)
  /\ isSafeInteger (Character.maxStamina char + StatIncreases.maxStamina statIncreases).

Module SampleXp.



End SampleXp.



Module SampleDiscovery.

Definition document : list jsstring :=
  [jsq "{'narrative':'A pier of black stone.','newLocation':'Pier','updatedInventory':[],";
   jsq "'newObjective':'Rest','isGameOver':false,'gameOverMessage':'',";
   jsq "'loreUpdate':{'type':'location','name':'Old Pier','description':'A pier of black stone.'}}"].

Definition response : GeminiResponse.t :=
  Eval vm_compute in
    match Sample.read (concat document) with
    | Some r => r
    | None => Sample.plain
    end.



End SampleDiscovery.

(** A turn is outstanding, a level-up is pending, a discovery awaits its
    decision, or the game is over. *)
Definition gated (s : Screen.t) : Prop :=
  Screen.isLoading s = true
  \/ Screen.isLevelingUp s = true
  \/ is_Some (Screen.proposedUpdate s)
  \/ GameState.isGameOver (Screen.gameState s) = true.

(** What no step changes once the game is over. *)
Definition sameStory (g g' : GameState.t) : Prop :=
  GameState.isGameOver g' = GameState.isGameOver g
  /\ GameState.gameOverMessage g' = GameState.gameOverMessage g
  /\ GameState.storyLog g' = GameState.storyLog g
  /\ GameState.inventory g' = GameState.inventory g
  /\ GameState.currentLocation g' = GameState.currentLocation g
  /\ GameState.objective g' = GameState.objective g
  /\ GameState.quests g' = GameState.quests g.

Module SampleEnding.

Definition document : list jsstring :=
  [jsq "{'narrative':'The sea takes you.','newLocation':'Deep','updatedInventory':[],";
   jsq "'newObjective':'','isGameOver':true,'gameOverMessage':'You drowned.'}"].

(** The sample screen after the turn that ends the game. *)
Definition ended : Screen.t :=
  Eval vm_compute in
    match executeAction Sample.message (js "jump") (Stream.mk document None)
            Sample.screen with
    | Some s => s
    | None => Sample.screen
    end.

(** What a player may still try. *)
Definition attempts : list Event :=
  [InputChange (js "swim"); SubmitForm (Stream.mk Sample.xpDocument None);
   ClickUseItem Sample.potion (Stream.mk Sample.xpDocument None);
   ClickAddToLore; ClickIgnore;
   ConfirmLevelUp (StatIncreases.mk 50 0 0)].

End SampleEnding.

(** The faction as the sigil loop leaves it. *)
Definition carved (sigilService : jsstring -> jsstring -> jsstring -> option jsstring)
    (worldConcept : jsstring) (f : Faction.t) : Faction.t :=
  Faction.withSigil f
    (LoreGenerator.generateSigilImage sigilService (Faction.name f)
       (Faction.description f) worldConcept).

Module SampleFactions.

Definition faction (name : string) : Faction.t :=
  Faction.mk (js name) (js "A power of the coast") (js "The Warden")
    (js "Saltgate") (js "Hold the tide") (js "Wary of all") [].

(** The factions of the answer of the text service. *)
Definition data : list Faction.t :=
  [faction "Tidewardens"; faction "Lamplighters"; faction "Drowned Court"].

(** An image service that fails for the second faction only. *)
Definition service (name description concept : jsstring) : option jsstring :=
  if bool_decide (name = js "Lamplighters") then None else Some (js "iVBORw0KGgo=").

(** An image service that never fails. *)
Definition reliable (name description concept : jsstring) : option jsstring :=
  Some (js "iVBORw0KGgo=").

Definition reviewing : LoreGenerator.t :=
  LoreGenerator.mk LoreGenerator.FoundationReview (js "A drowned world") None false None.

End SampleFactions.

(** ** Notions used in the further properties *)

(** The expression of the streaming loop after its key, and after its
    colon ([narrativeMatchHere] in two stages). *)
Definition afterColon (r1 : jsstring) : option jsstring :=
  match skipSpaces r1 with
  | q :: r2 => if (q =? 34)%N then narrativeBody r2 else None
  | [] => None
  end.

Definition afterKey (r : jsstring) : option jsstring :=
  match skipSpaces r with
  | colon :: r1 => if (colon =? 58)%N then afterColon r1 else None
  | [] => None
  end.

(** What the body of the streaming loop does to the screen for the
    preview of the buffer. *)
Definition showPreview (narratorEntryIndex : nat) (preview : option jsstring)
    (s : Screen.t) : Screen.t :=
  match preview with
  | Some narrativeText =>
      Screen.withGameState s
        (GameState.withStoryLog (Screen.gameState s)
           (setIfPresent (GameState.storyLog (Screen.gameState s)) narratorEntryIndex
              (fun entry => StoryEntry.withText entry narrativeText)))
  | None => s
  end.

(** No turn outstanding, no level-up pending, no discovery awaiting its
    decision, and the game not over. *)
Definition idle (s : Screen.t) : Prop :=
  Screen.isLoading s = false
  /\ GameState.isGameOver (Screen.gameState s) = false
  /\ Screen.proposedUpdate s = None
  /\ Screen.isLevelingUp s = false.

(** The action text of an item use. *)
Definition useAction (item : Item.t) : jsstring :=
  js "use " ++ [34%N] ++ Item.name item ++ [34%N].

(** A pending level-up has the experience for it. *)
Definition levelUpEarned (s : Screen.t) : Prop :=
  Screen.isLevelingUp s = true ->
  Character.xp (characterOf s) >= Character.xpToNextLevel (characterOf s).

(** What only a confirmed level-up changes. *)
Definition sameBuild (c c' : Character.t) : Prop :=
  Character.name c' = Character.name c
  /\ Character.backstory c' = Character.backstory c
  /\ Character.level c' = Character.level c
  /\ Character.maxHealth c' = Character.maxHealth c
  /\ Character.maxMana c' = Character.maxMana c
  /\ Character.maxStamina c' = Character.maxStamina c
  /\ Character.xpToNextLevel c' = Character.xpToNextLevel c.

Definition isConfirmLevelUp (e : Event) : bool :=
  match e with ConfirmLevelUp _ => true | _ => false end.

Module SampleStats.

(** A turn result that sets the health above the maximum and the mana
    below zero. *)
Definition document : list jsstring :=
  [jsq "{'narrative':'A strange draught.','newLocation':'Pier','updatedInventory':[],";
   jsq "'newObjective':'Rest','isGameOver':false,'gameOverMessage':'',";
   jsq "'characterUpdate':{'health':250,'mana':-5}}"].

Definition response : GeminiResponse.t :=
  Eval vm_compute in
    match Sample.read (concat document) with
    | Some r => r
    | None => Sample.plain
    end.

(** A turn result that grants experience for more than two levels. *)
Definition windfall : list jsstring :=
  [jsq "{'narrative':'A dragon falls.','newLocation':'Pier','updatedInventory':[],";
   jsq "'newObjective':'Rest','isGameOver':false,'gameOverMessage':'',";
   jsq "'characterUpdate':{'xpGained':400}}"].

Definition windfallResponse : GeminiResponse.t :=
  Eval vm_compute in
    match Sample.read (concat windfall) with
    | Some r => r
    | None => Sample.plain
    end.

End SampleStats.

(** What happens to the level-up modal while it is shown.  The
    component [LevelUpModal] is declared in the body of [GameScreen]:
    every render of [GameScreen] (the timer that removes the experience
    announcement, an image callback, a tooltip) makes a new component,
    which is mounted anew with its initial state. *)
Inductive ModalEvent :=
| ClickIncrease (stat : Stat)
| Remount.

Definition modalStep (m : LevelUpModal.t) (e : ModalEvent) : LevelUpModal.t :=
  match e with
  | ClickIncrease stat => LevelUpModal.handleIncrease stat m
  | Remount => LevelUpModal.initial
  end.

(** The modal after a sequence of events, from its first mount. *)
Definition spend (events : list ModalEvent) : LevelUpModal.t :=
  fold_left modalStep events LevelUpModal.initial.

(** The clicks since the modal was last mounted. *)
Definition clicksSinceMount (events : list ModalEvent) : nat :=
  fold_left (fun k e => match e with ClickIncrease _ => S k | Remount => 0%nat end)
    events 0%nat.

(** The Confirm button, disabled while points remain: the argument that
    reaches [handleLevelUpConfirm], if any. *)
Definition confirm (m : LevelUpModal.t) : option StatIncreases.t :=
  if LevelUpModal.points m >? 0 then None else Some (LevelUpModal.handleConfirm m).

(** The budget of a modal that has taken [k] clicks since its mount. *)
Definition budgeted (m : LevelUpModal.t) (k : nat) : Prop :=
  LevelUpModal.points m = Z.max 0 (10 - Z.of_nat k)
  /\ 0 <= LevelUpModal.healthInc m
  /\ 0 <= LevelUpModal.manaInc m
  /\ 0 <= LevelUpModal.staminaInc m
  /\ (5 | LevelUpModal.healthInc m)
  /\ (5 | LevelUpModal.manaInc m)
  /\ (5 | LevelUpModal.staminaInc m)
  /\ LevelUpModal.healthInc m + LevelUpModal.manaInc m + LevelUpModal.staminaInc m
     + 5 * LevelUpModal.points m = 50.

(** ** The image callbacks of the game screen *)

(** [entry.imageIsLoading], as a condition. *)
Definition pending (entry : StoryEntry.t) : bool :=
  match StoryEntry.imageIsLoading entry with
  | Some b => b
  | None => false
  end.

(** The updater that runs when [generateImage] resolves with [imageUrl]
    (for the initial image and for a scene image alike). *)
Definition imageArrived (imageUrl : jsstring) (prev : GameState.t) : GameState.t :=
  GameState.withStoryLog prev
    (List.map
       (fun entry =>
          if pending entry then
            StoryEntry.mk (StoryEntry.type entry) (StoryEntry.text entry)
              (StoryEntry.characterName entry) (Some imageUrl) (Some false)
          else entry)
       (GameState.storyLog prev)).

(** The updater that runs when [generateImage] rejects. *)
Definition imageFailed (prev : GameState.t) : GameState.t :=
  GameState.withStoryLog prev
    (List.filter (fun entry => negb (pending entry)) (GameState.storyLog prev)).

(** The synchronous head of [generateInitialImage], run once when the
    screen is mounted. *)
Definition generateInitialImage (scenario : Scenario.t) (prev : GameState.t)
    : GameState.t :=
  if negb (truthy (Setting.description (Scenario.setting scenario))) then prev
  else GameState.withStoryLog prev (GameState.storyLog prev ++ [StoryEntry.placeholder]).

(** A callback of an image request, applied to the screen. *)
Definition onImage (outcome : option jsstring) (s : Screen.t) : Screen.t :=
  Screen.withGameState s
    match outcome with
    | Some imageUrl => imageArrived imageUrl (Screen.gameState s)
    | None => imageFailed (Screen.gameState s)
    end.

(** The screen once mounted, with the request of the initial image
    outstanding. *)
Definition mounted (lore : Lore.t) (scenario : Scenario.t) : Screen.t :=
  Screen.withGameState (Screen.initial lore scenario)
    (generateInitialImage scenario (Screen.gameState (Screen.initial lore scenario))).

(** The text that the narrator's entry of a turn shows once the
    fragments have been read, from the buffer [accumulatedJson] and the
    text [t] on. *)
Fixpoint shown (accumulatedJson : jsstring) (fragments : list jsstring) (t : jsstring)
    : jsstring :=
  match fragments with
  | [] => t
  | chunk :: rest =>
      shown (accumulatedJson ++ chunk) rest
        match narrativePreview (accumulatedJson ++ chunk) with
        | Some narrativeText => narrativeText
        | None => t
        end
  end.

(** [executeAction] with the callback of an outstanding image request
    run while the stream is read, once [n] fragments have been received.
    Every update of the game state is an updater of the previous state,
    so the updates compose in the order in which they are run. *)
Definition executeActionAcross (syntaxErrorMessage : jsstring -> jsstring)
    (action : jsstring) (stream : Stream.t) (n : nat) (outcome : option jsstring)
    (s : Screen.t) : option Screen.t :=
  if returnsEarly action s then Some s
  else
    let narratorEntryIndex := (length (GameState.storyLog (Screen.gameState s)) + 1)%nat in
    let '(received, s0) :=
      fold_left (onChunk narratorEntryIndex) (take n (Stream.fragments stream))
        ([], beginTurn action s) in
    let '(accumulatedJson, s1) :=
      fold_left (onChunk narratorEntryIndex) (drop n (Stream.fragments stream))
        (received, onImage outcome s0) in
    match outcomeOf syntaxErrorMessage stream accumulatedJson with
    | Parsed response =>
        s2 ← applyResponse narratorEntryIndex response s1;
        Some (Screen.withIsLoading s2 false)
    | Caught err =>
        Some (Screen.withIsLoading (catchTurn narratorEntryIndex err s1) false)
    | OutsideInterface => None
    end.

(** The log without its pending placeholders. *)
Definition settledLog (log : list StoryEntry.t) : list StoryEntry.t :=
  List.filter (fun entry => negb (pending entry)) log.

(** The log that a turn leaves when the placeholders were removed under
    it after the narrator's entry had come to show [t]. *)
Definition halted (action t : jsstring) (s : Screen.t) : list StoryEntry.t :=
  settledLog (GameState.storyLog (Screen.gameState s))
  ++ [StoryEntry.player action; StoryEntry.narrator t].

Module SampleImages.

(** The first turn is submitted while the initial image is awaited. *)
Definition screen : Screen.t := mounted Sample.lore Sample.scenario.

Definition stream : Stream.t := Stream.mk Sample.xpDocument None.

Definition cut : Stream.t := Stream.mk Sample.truncated None.

End SampleImages.

(** ** App.tsx: the phases of the application *)

Module App.

Inductive GamePhase := LORE_CREATION | SCENARIO_CREATION | GAMEPLAY.

Record t := mk {
  gamePhase : GamePhase;
  lore : option Lore.t;
  scenario : option Scenario.t
}.

Definition initial : t := mk LORE_CREATION None None.

Definition handleLoreCreated (newLore : Lore.t) (s : t) : t :=
  mk SCENARIO_CREATION (Some newLore) (scenario s).

Definition handleScenarioCreated (newScenario : Scenario.t) (s : t) : t :=
  mk GAMEPLAY (lore s) (Some newScenario).

Definition handlePlayAgain (s : t) : t := mk LORE_CREATION None None.

(** The component that [renderContent] returns, with its props.  The
    [default] branch of the switch is not modelled: the enumeration has
    the three values above. *)
Inductive Content :=
| LoreGeneratorContent
| ScenarioGeneratorContent (lore : Lore.t)
| GameScreenContent (lore : Lore.t) (scenario : Scenario.t).

Definition renderContent (s : t) : Content :=
  match gamePhase s with
  | LORE_CREATION => LoreGeneratorContent
  | SCENARIO_CREATION =>
      match lore s with
      | Some l => ScenarioGeneratorContent l
      | None => LoreGeneratorContent
      end
  | GAMEPLAY =>
      match scenario s, lore s with
      | Some sc, Some l => GameScreenContent l sc
      | _, _ => LoreGeneratorContent
      end
  end.

(** The callbacks that the components call. *)
Inductive Event :=
| LoreCreated (newLore : Lore.t)
| ScenarioCreated (newScenario : Scenario.t)
| PlayAgain.

(** A component can only call the callback it was given. *)
Definition step (s : t) (e : Event) : t :=
  match e, renderContent s with
  | LoreCreated newLore, LoreGeneratorContent => handleLoreCreated newLore s
  | ScenarioCreated newScenario, ScenarioGeneratorContent _ =>
      handleScenarioCreated newScenario s
  | PlayAgain, GameScreenContent _ _ => handlePlayAgain s
  | _, _ => s
  end.

Definition run (events : list Event) (s : t) : t := fold_left step events s.

(** The values that the phase should find in the two cells. *)
Definition coherent (s : t) : bool :=
  match gamePhase s, lore s, scenario s with
  | LORE_CREATION, None, None => true
  | SCENARIO_CREATION, Some _, None => true
  | GAMEPLAY, Some _, Some _ => true
  | _, _, _ => false
  end.

End App.

(** ** LoreGenerator.tsx: the stages of the world builder *)

Module LoreBuilder.

(** [Partial<Lore>], the type of [loreBuilder]. *)
Record t := mk {
  worldName : option jsstring;
  coreConcept : option jsstring;
  factions : option (list Faction.t);
  timeline : option (list TimelineEvent.t);
  locations : option (list Entry.t);
  characters : option (list Entry.t);
  knowledge : option (list jsstring);
  secrets : option (list Secret.t);
  cosmology : option Cosmology.t;
  magicSystem : option MagicSystem.t;
  races : option (list Race.t);
  creatures : option (list Creature.t);
  historicalFigures : option (list HistoricalFigure.t)
}.

(** The object [{}]. *)
Definition empty : t :=
  mk None None None None None None None None None None None None None.

(** What the cast [as Lore] claims: no field is missing. *)
Definition asLore (b : t) : option Lore.t :=
  match b with
  | mk (Some worldName) (Some coreConcept) (Some factions) (Some timeline)
       (Some locations) (Some characters) (Some knowledge) (Some secrets)
       (Some cosmology) (Some magicSystem) (Some races) (Some creatures)
       (Some historicalFigures) =>
      Some (Lore.mk worldName coreConcept factions timeline locations characters
              knowledge secrets cosmology magicSystem races creatures historicalFigures)
  | _ => None
  end.

(** The fields that are there, in the order of the interface. *)
Definition present (b : t) : list bool :=
  [bool_decide (is_Some (worldName b)); bool_decide (is_Some (coreConcept b));
   bool_decide (is_Some (factions b)); bool_decide (is_Some (timeline b));
   bool_decide (is_Some (locations b)); bool_decide (is_Some (characters b));
   bool_decide (is_Some (knowledge b)); bool_decide (is_Some (secrets b));
   bool_decide (is_Some (cosmology b)); bool_decide (is_Some (magicSystem b));
   bool_decide (is_Some (races b)); bool_decide (is_Some (creatures b));
   bool_decide (is_Some (historicalFigures b))].

End LoreBuilder.

(** The answers of the gateway, as its return types have them. *)
Module Foundation.
Record t := mk {
  worldName : jsstring;
  coreConcept : jsstring;
  timeline : list TimelineEvent.t;
  anomaly : jsstring
}.
End Foundation.

Module Inhabitants.
Record t := mk {
  races : list Race.t;
  creatures : list Creature.t;
  historicalFigures : list HistoricalFigure.t
}.
End Inhabitants.

Module FinalDetails.
Record t := mk { locations : list Entry.t; secrets : list Secret.t }.
End FinalDetails.

(** The functions of the gateway: the parsed answer of the model, or
    [None] when the call or the parse throws; every failure is caught
    and thrown again as an [Error] with the message of the function. *)
Definition generateLoreFoundation (answer : option Foundation.t)
    : Thrown + Foundation.t :=
  match answer with
  | Some data => inr data
  | None =>
      inl (ErrorObject
             (js "Failed to forge the world's foundation. The cosmic energies are unstable."))
  end.

Definition generateLoreCosmology (answer : option Cosmology.t) : Thrown + Cosmology.t :=
  match answer with
  | Some data => inr data
  | None => inl (ErrorObject (js "Failed to chart the heavens. The stars are scattered."))
  end.

Definition generateLoreMagicSystem (answer : option MagicSystem.t)
    : Thrown + MagicSystem.t :=
  match answer with
  | Some data => inr data
  | None =>
      inl (ErrorObject (js "Failed to weave the arcane arts. The ley lines are tangled."))
  end.

Definition generateLoreInhabitants (answer : option Inhabitants.t)
    : Thrown + Inhabitants.t :=
  match answer with
  | Some data => inr data
  | None => inl (ErrorObject (js "Failed to populate the world. The lands are barren."))
  end.

(** [generateFinalLoreDetails]: two calls, awaited together. *)
Definition generateFinalLoreDetails (locationsResult : option (list Entry.t))
    (secretsResult : option (list Secret.t)) : Thrown + FinalDetails.t :=
  match locationsResult, secretsResult with
  | Some locations, Some secrets => inr (FinalDetails.mk locations secrets)
  | _, _ =>
      inl (ErrorObject
             (js "Failed to uncover the world's secrets. The maps are unreadable."))
  end.

Module LoreWizard.

Inductive InputMode := Simple | Detailed.

(** The [useState] cells of [LoreGenerator]; [progressMessage] only
    feeds the rendering and is empty whenever a handler has returned. *)
Record t := mk {
  step : LoreGenerator.GenerationStep;
  loreBuilder : LoreBuilder.t;
  finalLore : option LoreBuilder.t;
  inputMode : InputMode;
  spark : jsstring;
  conflict : jsstring;
  anomaly : jsstring;
  detailedPrompt : jsstring;
  generatedAnomaly : jsstring;
  isLoading : bool;
  error : option jsstring
}.

Definition initial : t :=
  mk LoreGenerator.Inputs LoreBuilder.empty None Simple [] [] [] [] [] false None.

(** The cells that a handler writes when it returns: the step, the
    builder, the final lore, the anomaly, and the error; [isLoading] is
    false again. *)
Definition settle (s : t) (step : LoreGenerator.GenerationStep)
    (loreBuilder : LoreBuilder.t) (finalLore : option LoreBuilder.t)
    (generatedAnomaly : jsstring) (error : option jsstring) : t :=
  mk step loreBuilder finalLore (inputMode s) (spark s) (conflict s) (anomaly s)
     (detailedPrompt s) generatedAnomaly false error.

(** [setLoreBuilder(foundation)]: the answer without its anomaly. *)
Definition ofFoundation (data : Foundation.t) : LoreBuilder.t :=
  LoreBuilder.mk (Some (Foundation.worldName data)) (Some (Foundation.coreConcept data))
    None (Some (Foundation.timeline data)) None None None None None None None None None.

Definition handleStartWeaving (answer : option Foundation.t) (s : t) : t :=
  let isSimple := match inputMode s with Simple => true | Detailed => false end in
  if (isSimple && (negb (truthy (trim (spark s))) || negb (truthy (trim (conflict s)))
                   || negb (truthy (trim (anomaly s)))))
     || (negb isSimple && negb (truthy (trim (detailedPrompt s))))
  then
    mk (step s) (loreBuilder s) (finalLore s) (inputMode s) (spark s) (conflict s)
       (anomaly s) (detailedPrompt s) (generatedAnomaly s) (isLoading s)
       (Some (js "Please fill out all creative prompts to begin."))
  else
    match generateLoreFoundation answer with
    | inr data =>
        settle s LoreGenerator.FoundationReview (ofFoundation data) (finalLore s)
          (Foundation.anomaly data) None
    | inl err =>
        settle s (step s) (loreBuilder s) (finalLore s) (generatedAnomaly s)
          (Some (errorText err))
    end.

Definition handleRerollFoundation (answer : option Foundation.t) (s : t) : t :=
  match generateLoreFoundation answer with
  | inr data =>
      settle s (step s) (ofFoundation data) (finalLore s) (Foundation.anomaly data) None
  | inl err =>
      settle s (step s) (loreBuilder s) (finalLore s) (generatedAnomaly s)
        (Some (errorText err))
  end.

(** The casts [loreBuilder as Pick<Lore, ...>] of the handlers: [None]
    when the builder lacks one of the fields. *)
Definition asFoundation (b : LoreBuilder.t)
    : option (jsstring * jsstring * list TimelineEvent.t) :=
  match LoreBuilder.worldName b, LoreBuilder.coreConcept b, LoreBuilder.timeline b with
  | Some worldName, Some coreConcept, Some timeline =>
      Some (worldName, coreConcept, timeline)
  | _, _, _ => None
  end.

Definition asContext (b : LoreBuilder.t) : option unit :=
  match asFoundation b, LoreBuilder.factions b, LoreBuilder.cosmology b,
        LoreBuilder.magicSystem b with
  | Some _, Some _, Some _, Some _ => Some tt
  | _, _, _, _ => None
  end.

Definition withFactions (b : LoreBuilder.t) (v : list Faction.t) : LoreBuilder.t :=
  LoreBuilder.mk (LoreBuilder.worldName b) (LoreBuilder.coreConcept b) (Some v)
    (LoreBuilder.timeline b) (LoreBuilder.locations b) (LoreBuilder.characters b)
    (LoreBuilder.knowledge b) (LoreBuilder.secrets b) (LoreBuilder.cosmology b)
    (LoreBuilder.magicSystem b) (LoreBuilder.races b) (LoreBuilder.creatures b)
    (LoreBuilder.historicalFigures b).

Definition withSystems (b : LoreBuilder.t) (cosmology : Cosmology.t)
    (magicSystem : MagicSystem.t) : LoreBuilder.t :=
  LoreBuilder.mk (LoreBuilder.worldName b) (LoreBuilder.coreConcept b)
    (LoreBuilder.factions b) (LoreBuilder.timeline b) (LoreBuilder.locations b)
    (LoreBuilder.characters b) (LoreBuilder.knowledge b) (LoreBuilder.secrets b)
    (Some cosmology) (Some magicSystem) (LoreBuilder.races b) (LoreBuilder.creatures b)
    (LoreBuilder.historicalFigures b).

Definition withInhabitants (b : LoreBuilder.t) (data : Inhabitants.t) : LoreBuilder.t :=
  LoreBuilder.mk (LoreBuilder.worldName b) (LoreBuilder.coreConcept b)
    (LoreBuilder.factions b) (LoreBuilder.timeline b) (LoreBuilder.locations b)
    (LoreBuilder.characters b) (LoreBuilder.knowledge b) (LoreBuilder.secrets b)
    (LoreBuilder.cosmology b) (LoreBuilder.magicSystem b)
    (Some (Inhabitants.races data)) (Some (Inhabitants.creatures data))
    (Some (Inhabitants.historicalFigures data)).

(** [{ ...loreBuilder, ...finalDetails, characters: [], knowledge: [] }]. *)
Definition completeLore (b : LoreBuilder.t) (finalDetails : FinalDetails.t)
    : LoreBuilder.t :=
  LoreBuilder.mk (LoreBuilder.worldName b) (LoreBuilder.coreConcept b)
    (LoreBuilder.factions b) (LoreBuilder.timeline b)
    (Some (FinalDetails.locations finalDetails)) (Some []) (Some [])
    (Some (FinalDetails.secrets finalDetails)) (LoreBuilder.cosmology b)
    (LoreBuilder.magicSystem b) (LoreBuilder.races b) (LoreBuilder.creatures b)
    (LoreBuilder.historicalFigures b).

(** [handleAcceptFoundation], run to its [finally] block: the factions
    of the answer, then one sigil after the other. *)
Definition handleAcceptFoundation
    (sigilService : jsstring -> jsstring -> jsstring -> option jsstring)
    (answer : option (list Faction.t)) (s : t) : option t :=
  match asFoundation (loreBuilder s) with
  | Some (_, coreConcept, _) =>
      Some
        match LoreGenerator.generateLoreFactions answer with
        | inr baseFactions =>
            settle s LoreGenerator.FactionsReview
              (withFactions (loreBuilder s)
                 (LoreGenerator.carveSigils sigilService coreConcept baseFactions))
              (finalLore s) (generatedAnomaly s) None
        | inl err =>
            settle s LoreGenerator.FoundationReview (loreBuilder s) (finalLore s)
              (generatedAnomaly s) (Some (errorText err))
        end
  | None => None
  end.

Definition handleAcceptFactions (cosmologyAnswer : option Cosmology.t)
    (magicAnswer : option MagicSystem.t) (s : t) : option t :=
  match asFoundation (loreBuilder s) with
  | Some _ =>
      Some
        match generateLoreCosmology cosmologyAnswer with
        | inr cosmology =>
            match generateLoreMagicSystem magicAnswer with
            | inr magicSystem =>
                settle s LoreGenerator.SystemsReview
                  (withSystems (loreBuilder s) cosmology magicSystem)
                  (finalLore s) (generatedAnomaly s) None
            | inl err =>
                settle s LoreGenerator.FactionsReview (loreBuilder s) (finalLore s)
                  (generatedAnomaly s) (Some (errorText err))
            end
        | inl err =>
            settle s LoreGenerator.FactionsReview (loreBuilder s) (finalLore s)
              (generatedAnomaly s) (Some (errorText err))
        end
  | None => None
  end.

Definition handleAcceptSystems (answer : option Inhabitants.t) (s : t) : option t :=
  match asContext (loreBuilder s) with
  | Some _ =>
      Some
        match generateLoreInhabitants answer with
        | inr inhabitants =>
            settle s LoreGenerator.InhabitantsReview
              (withInhabitants (loreBuilder s) inhabitants)
              (finalLore s) (generatedAnomaly s) None
        | inl err =>
            settle s LoreGenerator.SystemsReview (loreBuilder s) (finalLore s)
              (generatedAnomaly s) (Some (errorText err))
        end
  | None => None
  end.

Definition handleFinalizeWorld (locationsResult : option (list Entry.t))
    (secretsResult : option (list Secret.t)) (s : t) : t :=
  match generateFinalLoreDetails locationsResult secretsResult with
  | inr finalDetails =>
      settle s LoreGenerator.Complete (loreBuilder s)
        (Some (completeLore (loreBuilder s) finalDetails)) (generatedAnomaly s) None
  | inl err =>
      settle s LoreGenerator.InhabitantsReview (loreBuilder s) (finalLore s)
        (generatedAnomaly s) (Some (errorText err))
  end.

(** What [renderContent] returns. *)
Inductive Content :=
| FinalizingSpinner
| InputsForm
| FoundationReviewPanel
| FactionsReviewPanel
| SystemsReviewPanel
| InhabitantsReviewPanel
| LoreDisplay
| ErrorRenderingLore.

Definition renderContent (s : t) : Content :=
  if isLoading s && match step s with LoreGenerator.Finalizing => true | _ => false end
  then FinalizingSpinner
  else
    match step s with
    | LoreGenerator.Inputs => InputsForm
    | LoreGenerator.FoundationReview => FoundationReviewPanel
    | LoreGenerator.FactionsReview => FactionsReviewPanel
    | LoreGenerator.SystemsReview => SystemsReviewPanel
    | LoreGenerator.InhabitantsReview => InhabitantsReviewPanel
    | LoreGenerator.Complete =>
        match finalLore s with
        | Some _ => LoreDisplay
        | None => ErrorRenderingLore
        end
    | LoreGenerator.Finalizing => InputsForm
    end.

(** The [disabled] attribute of the button of the factions review. *)
Definition acceptFactionsDisabled (s : t) : bool :=
  isLoading s ||
  match LoreBuilder.factions (loreBuilder s) with
  | Some fs => existsb (fun f => negb (truthy (Faction.sigilImageUrl f))) fs
  | None => true
  end.

(** What the user can do, with the answers that the gateway then gives. *)
Inductive Event :=
| ClickInputMode (mode : InputMode)
| TypeSpark (v : jsstring)
| TypeConflict (v : jsstring)
| TypeAnomaly (v : jsstring)
| TypeDetailedPrompt (v : jsstring)
| ClickStartWeaving (answer : option Foundation.t)
| ClickReroll (answer : option Foundation.t)
| ClickAcceptFoundation
    (sigilService : jsstring -> jsstring -> jsstring -> option jsstring)
    (answer : option (list Faction.t))
| ClickAcceptFactions (cosmologyAnswer : option Cosmology.t)
    (magicAnswer : option MagicSystem.t)
| ClickAcceptSystems (answer : option Inhabitants.t)
| ClickFinalizeWorld (locationsResult : option (list Entry.t))
    (secretsResult : option (list Secret.t)).

Definition withInputs (s : t) (inputMode : InputMode)
    (spark conflict anomaly detailedPrompt : jsstring) : t :=
  mk (step s) (loreBuilder s) (finalLore s) inputMode spark conflict anomaly
     detailedPrompt (generatedAnomaly s) (isLoading s) (error s).

(** An event acts through the control that the rendered content offers
    for it, unless the control is disabled; a handler runs to its end
    before the next event.  [None]: a cast of a handler is wrong. *)
Definition handle (e : Event) (s : t) : option t :=
  match renderContent s, e with
  | InputsForm, ClickInputMode mode =>
      Some (withInputs s mode (spark s) (conflict s) (anomaly s) (detailedPrompt s))
  | InputsForm, TypeSpark v =>
      match inputMode s with
      | Simple =>
          if isLoading s then Some s
          else Some (withInputs s (inputMode s) v (conflict s) (anomaly s)
                       (detailedPrompt s))
      | Detailed => Some s
      end
  | InputsForm, TypeConflict v =>
      match inputMode s with
      | Simple =>
          if isLoading s then Some s
          else Some (withInputs s (inputMode s) (spark s) v (anomaly s)
                       (detailedPrompt s))
      | Detailed => Some s
      end
  | InputsForm, TypeAnomaly v =>
      match inputMode s with
      | Simple =>
          if isLoading s then Some s
          else Some (withInputs s (inputMode s) (spark s) (conflict s) v
                       (detailedPrompt s))
      | Detailed => Some s
      end
  | InputsForm, TypeDetailedPrompt v =>
      match inputMode s with
      | Detailed =>
          if isLoading s then Some s
          else Some (withInputs s (inputMode s) (spark s) (conflict s) (anomaly s) v)
      | Simple => Some s
      end
  | InputsForm, ClickStartWeaving answer =>
      if isLoading s then Some s else Some (handleStartWeaving answer s)
  | FoundationReviewPanel, ClickReroll answer =>
      if isLoading s then Some s else Some (handleRerollFoundation answer s)
  | FoundationReviewPanel, ClickAcceptFoundation sigilService answer =>
      if isLoading s then Some s else handleAcceptFoundation sigilService answer s
  | FactionsReviewPanel, ClickAcceptFactions cosmologyAnswer magicAnswer =>
      if acceptFactionsDisabled s then Some s
      else handleAcceptFactions cosmologyAnswer magicAnswer s
  | SystemsReviewPanel, ClickAcceptSystems answer =>
      if isLoading s then Some s else handleAcceptSystems answer s
  | InhabitantsReviewPanel, ClickFinalizeWorld locationsResult secretsResult =>
      if isLoading s then Some s
      else Some (handleFinalizeWorld locationsResult secretsResult s)
  | _, _ => Some s
  end.

Fixpoint run (events : list Event) (s : t) : option t :=
  match events with
  | [] => Some s
  | e :: rest =>
      match handle e s with
      | Some s' => run rest s'
      | None => None
      end
  end.

(** The fields that the builder holds at each step. *)
Definition heldAt (step : LoreGenerator.GenerationStep) : list bool :=
  match step with
  | LoreGenerator.Inputs =>
      [false; false; false; false; false; false; false; false; false; false; false;
       false; false]
  | LoreGenerator.FoundationReview =>
      [true; true; false; true; false; false; false; false; false; false; false;
       false; false]
  | LoreGenerator.FactionsReview =>
      [true; true; true; true; false; false; false; false; false; false; false;
       false; false]
  | LoreGenerator.SystemsReview =>
      [true; true; true; true; false; false; false; false; true; true; false;
       false; false]
  | LoreGenerator.InhabitantsReview | LoreGenerator.Finalizing | LoreGenerator.Complete =>
      [true; true; true; true; false; false; false; false; true; true; true;
       true; true]
  end.

(** The step that a stage leads to. *)
Definition next (step : LoreGenerator.GenerationStep) : LoreGenerator.GenerationStep :=
  match step with
  | LoreGenerator.Inputs => LoreGenerator.FoundationReview
  | LoreGenerator.FoundationReview => LoreGenerator.FactionsReview
  | LoreGenerator.FactionsReview => LoreGenerator.SystemsReview
  | LoreGenerator.SystemsReview => LoreGenerator.InhabitantsReview
  | LoreGenerator.InhabitantsReview => LoreGenerator.Complete
  | LoreGenerator.Finalizing => LoreGenerator.Complete
  | LoreGenerator.Complete => LoreGenerator.Complete
  end.

Definition isReroll (e : Event) : bool :=
  match e with ClickReroll _ => true | _ => false end.

(** The cells of the factions stage, as the module [LoreGenerator] has
    them. *)
Definition factionsStage (s : t) : LoreGenerator.t :=
  LoreGenerator.mk (step s) (default [] (LoreBuilder.coreConcept (loreBuilder s)))
    (LoreBuilder.factions (loreBuilder s)) (isLoading s) (error s).

End LoreWizard.

(** The steps after the factions review. *)
Definition pastFactions (step : LoreGenerator.GenerationStep) : bool :=
  match step with
  | LoreGenerator.SystemsReview | LoreGenerator.InhabitantsReview
  | LoreGenerator.Finalizing | LoreGenerator.Complete => true
  | _ => false
  end.

(** The state of the world builder between two events: no handler is
    running, the builder holds the fields of its step and no other, past
    the factions review every faction has a sigil, and the final lore is
    there exactly at the last step, made of the builder. *)
Definition wellFormed (s : LoreWizard.t) : Prop :=
  LoreWizard.isLoading s = false
  /\ LoreWizard.step s <> LoreGenerator.Finalizing
  /\ LoreBuilder.present (LoreWizard.loreBuilder s) = LoreWizard.heldAt (LoreWizard.step s)
  /\ (pastFactions (LoreWizard.step s) = true ->
      LoreWizard.acceptFactionsDisabled s = false)
  /\ match LoreWizard.finalLore s with
     | Some final =>
         LoreWizard.step s = LoreGenerator.Complete
         /\ exists finalDetails,
              final = LoreWizard.completeLore (LoreWizard.loreBuilder s) finalDetails
     | None => LoreWizard.step s <> LoreGenerator.Complete
     end.

(** The texts of the current input mode all have a character that is
    not white space. *)
Definition filled (s : LoreWizard.t) : Prop :=
  let written (v : jsstring) := exists c, In c v /\ isSpace c = false in
  match LoreWizard.inputMode s with
  | LoreWizard.Simple =>
      written (LoreWizard.spark s) /\ written (LoreWizard.conflict s)
      /\ written (LoreWizard.anomaly s)
  | LoreWizard.Detailed => written (LoreWizard.detailedPrompt s)
  end.

Module SampleWizard.

Definition foundation : Foundation.t :=
  Foundation.mk (js "Aeth") (js "A drowned world")
    [TimelineEvent.mk (js "The Rising") (js "The tide rose")]
    (js "The sea remembers").

Definition cosmology : Cosmology.t := Cosmology.mk (js "The tide rose") [].

Definition magicSystem : MagicSystem.t :=
  MagicSystem.mk (js "Tidecraft") (js "Salt magic") [].

Definition inhabitants : Inhabitants.t := Inhabitants.mk [] [] [].

(** The user fills the three prompts and accepts the foundation. *)
Definition opening
    (sigilService : jsstring -> jsstring -> jsstring -> option jsstring)
    : list LoreWizard.Event :=
  [LoreWizard.TypeSpark (js "A city on a sleeping god");
   LoreWizard.TypeConflict (js "Tide and stone");
   LoreWizard.TypeAnomaly (js "Memories can be traded");
   LoreWizard.ClickStartWeaving (Some foundation);
   LoreWizard.ClickAcceptFoundation sigilService (Some SampleFactions.data)].

(** The other stages, each answered. *)
Definition closing : list LoreWizard.Event :=
  [LoreWizard.ClickAcceptFactions (Some cosmology) (Some magicSystem);
   LoreWizard.ClickAcceptSystems (Some inhabitants);
   LoreWizard.ClickFinalizeWorld (Some []) (Some [])].

(** The factions review with the sigil of one faction failed. *)
Definition stuck : LoreWizard.t :=
  Eval vm_compute in
    match LoreWizard.run (opening SampleFactions.service) LoreWizard.initial with
    | Some s => s
    | None => LoreWizard.initial
    end.

(** The factions review with every sigil carved. *)
Definition reviewed : LoreWizard.t :=
  Eval vm_compute in
    match LoreWizard.run (opening SampleFactions.reliable) LoreWizard.initial with
    | Some s => s
    | None => LoreWizard.initial
    end.

(** The inputs step with the three prompts written. *)
Definition ready : LoreWizard.t :=
  Eval vm_compute in
    match LoreWizard.run (take 3 (opening SampleFactions.reliable)) LoreWizard.initial with
    | Some s => s
    | None => LoreWizard.initial
    end.

End SampleWizard.

(** ** geminiService.ts: the image of a scene *)

(** A part of the answer of the image model: its inline data, when it
    is an image. *)
Module Part.
Record t := mk { text : option jsstring; inlineData : option jsstring }.
End Part.

(** The loop over the parts of the first candidate: the first part with
    inline data gives the result. *)
Fixpoint firstImage (parts : list Part.t) : option jsstring :=
  match parts with
  | [] => None
  | part :: rest =>
      match Part.inlineData part with
      | Some base64ImageBytes => Some (js "data:image/png;base64," ++ base64ImageBytes)
      | None => firstImage rest
      end
  end.

(** The body of the [try] of [generateImage], for the parts of the
    first candidate of the answer, or for what is thrown before the loop
    (by the call, or by the access to a candidate that is not there). *)
Definition tryGenerateImage (answer : Thrown + list Part.t) : Thrown + jsstring :=
  match answer with
  | inr parts =>
      match firstImage parts with
      | Some imageUrl => inr imageUrl
      | None => inl (ErrorObject (js "No image was generated by the model."))
      end
  | inl thrown => inl thrown
  end.

(** [generateImage]: whatever is thrown is caught and replaced. *)
Definition generateImage (answer : Thrown + list Part.t) : Thrown + jsstring :=
  match tryGenerateImage answer with
  | inr imageUrl => inr imageUrl
  | inl _ =>
      inl (ErrorObject
             (js "Failed to conjure a vision of the scene. The aether is cloudy."))
  end.

(** The callback that the promise of [generateImage] runs. *)
Definition settleImage (answer : Thrown + list Part.t) (s : Screen.t) : Screen.t :=
  onImage match generateImage answer with
          | inr imageUrl => Some imageUrl
          | inl _ => None
          end s.

(** * Properties *)

(** ** The fuel of the parser *)

Lemma skipWs_length s : (length (Json.skipWs s) <= length s)%nat.
Proof.
  induction s as [| c s IH]; cbn [Json.skipWs length]; [lia |].
  destruct (Json.isJsonWs c); cbn [length]; lia.
Qed.

Lemma skipWs_cons s c r : Json.skipWs s = c :: r -> (length r < length s)%nat.
Proof.
  intros H. pose proof (skipWs_length s) as L. rewrite H in L. cbn [length] in L. lia.
Qed.

Lemma parseStringBody_length s :
  forall body rest, Json.parseStringBody s = Some (body, rest) -> (length rest < length s)%nat.
Proof.
  induction s as [s IH] using (induction_ltof1 _ (@length N)). unfold ltof in IH.
  intros body rest H. destruct s as [| c r]; [discriminate H |].
  cbn [Json.parseStringBody] in H.
  repeat case_match; simplify_eq; cbn [length] in *;
    repeat match goal with
           | E : Json.parseStringBody ?x = Some _ |- _ =>
               apply IH in E; [| cbn [length]; lia]
           end;
    lia.
Qed.

Lemma spanDigits_length s :
  forall ds rest, Json.spanDigits s = (ds, rest) -> (length rest <= length s)%nat.
Proof.
  induction s as [| c s IH]; intros ds rest H; cbn [Json.spanDigits] in H.
  - injection H as <- <-. cbn. lia.
  - destruct (Json.isDigit c).
    + destruct (Json.spanDigits s) as [ds' rest'] eqn:E. injection H as <- <-.
      specialize (IH _ _ eq_refl). cbn [length]. lia.
    + injection H as <- <-. lia.
Qed.

Lemma parseNumber_length s lexeme rest :
  Json.parseNumber s = Some (lexeme, rest) -> (length rest < length s)%nat.
Proof.
  unfold Json.parseNumber, Json.parseInt, Json.parseFrac, Json.parseExp. intros H.
  repeat case_match; simplify_eq; cbn [length] in *;
    repeat match goal with
           | E : Json.spanDigits _ = _ |- _ => apply spanDigits_length in E
           end;
    cbn [length] in *; lia.
Qed.

Lemma stripPrefix_length p :
  forall s rest, Json.stripPrefix p s = Some rest -> (length rest + length p = length s)%nat.
Proof.
  induction p as [| a p IH]; intros s rest H; cbn [Json.stripPrefix] in H.
  - injection H as <-. cbn. lia.
  - destruct s as [| b s]; [discriminate H |].
    destruct (a =? b)%N; [| discriminate H]. apply IH in H. cbn [length]. lia.
Qed.

Ltac parser_lengths :=
  repeat match goal with
         | E : Json.skipWs _ = _ :: _ |- _ => apply skipWs_cons in E
         | E : Json.parseStringBody _ = Some _ |- _ => apply parseStringBody_length in E
         | E : Json.parseNumber _ = Some _ |- _ => apply parseNumber_length in E
         | E : Json.stripPrefix _ _ = Some _ |- _ =>
             apply stripPrefix_length in E; vm_compute (length (js _)) in E
         end.

(** A value that parses has read at least one code unit. *)
Lemma parse_progress fuel :
  (forall s v r, Json.parseValue fuel s = Json.Ok (v, r) -> (length r < length s)%nat)
  /\ (forall s vs r, Json.parseElements fuel s = Json.Ok (vs, r) -> (length r < length s)%nat)
  /\ (forall s ms r, Json.parseMembers fuel s = Json.Ok (ms, r) -> (length r < length s)%nat).
Proof.
  induction fuel as [| fuel (IHv & IHe & IHm)];
    (split; [| split]); intros s x r H; try discriminate H.
  - cbn [Json.parseValue] in H.
    repeat case_match; simplify_eq; parser_lengths;
      repeat match goal with
             | E : Json.parseElements fuel _ = Json.Ok _ |- _ => apply IHe in E
             | E : Json.parseMembers fuel _ = Json.Ok _ |- _ => apply IHm in E
             end;
      cbn [length] in *; lia.
  - cbn [Json.parseElements] in H.
    repeat case_match; simplify_eq; parser_lengths;
      repeat match goal with
             | E : Json.parseValue fuel _ = Json.Ok _ |- _ => apply IHv in E
             | E : Json.parseElements fuel _ = Json.Ok _ |- _ => apply IHe in E
             end;
      cbn [length] in *; lia.
  - cbn [Json.parseMembers] in H.
    repeat case_match; simplify_eq; parser_lengths;
      repeat match goal with
             | E : Json.parseValue fuel _ = Json.Ok _ |- _ => apply IHv in E
             | E : Json.parseMembers fuel _ = Json.Ok _ |- _ => apply IHm in E
             end;
      cbn [length] in *; lia.
Qed.

(** With fuel for twice the length of the text, the parser of values
    does not stop for lack of fuel. *)
Lemma parse_fuel_enough fuel :
  (forall s, (2 * length s + 2 <= fuel)%nat -> Json.parseValue fuel s <> Json.OutOfFuel)
  /\ (forall s, (2 * length s + 3 <= fuel)%nat -> Json.parseElements fuel s <> Json.OutOfFuel)
  /\ (forall s, (2 * length s + 3 <= fuel)%nat -> Json.parseMembers fuel s <> Json.OutOfFuel).
Proof.
  induction fuel as [| fuel (IHv & IHe & IHm)];
    (split; [| split]); intros s Hfuel; try lia.
  - cbn [Json.parseValue]. intros H.
    repeat case_match; simplify_eq; parser_lengths;
      match goal with
      | E : Json.parseElements fuel _ = Json.OutOfFuel |- _ => revert E; apply IHe
      | E : Json.parseMembers fuel _ = Json.OutOfFuel |- _ => revert E; apply IHm
      end;
      cbn [length] in *; lia.
  - cbn [Json.parseElements]. intros H.
    repeat case_match; simplify_eq; parser_lengths;
      repeat match goal with
             | E : Json.parseValue fuel _ = Json.Ok _ |- _ =>
                 apply (proj1 (parse_progress fuel)) in E
             end;
      match goal with
      | E : Json.parseValue fuel _ = Json.OutOfFuel |- _ => revert E; apply IHv
      | E : Json.parseElements fuel _ = Json.OutOfFuel |- _ => revert E; apply IHe
      end;
      cbn [length] in *; lia.
  - cbn [Json.parseMembers]. intros H.
    repeat case_match; simplify_eq; parser_lengths;
      repeat match goal with
             | E : Json.parseValue fuel _ = Json.Ok _ |- _ =>
                 apply (proj1 (parse_progress fuel)) in E
             end;
      match goal with
      | E : Json.parseValue fuel _ = Json.OutOfFuel |- _ => revert E; apply IHv
      | E : Json.parseMembers fuel _ = Json.OutOfFuel |- _ => revert E; apply IHm
      end;
      cbn [length] in *; lia.
Qed.

(** [JSON.parse] of the model always answers: a value or a syntax error. *)
Lemma parse_fuel text : Json.parse text <> Json.OutOfFuel.
Proof.
  unfold Json.parse. intros H.
  destruct (Json.parseValue (2 * length text + 2) text) as [[v rest] | |] eqn:E.
  - destruct (Json.skipWs rest); discriminate H.
  - discriminate H.
  - revert E. apply (proj1 (parse_fuel_enough (2 * length text + 2))). lia.
Qed.

(** ** The preview of a buffer *)

(** A text that begins with a quote parses to a string or not at all, so
    the preview ignores nothing but a thrown [SyntaxError]. *)
Lemma parse_quoted s v : Json.parse (34%N :: s) = Json.Ok v -> exists t, v = Json.String t.
Proof.
  unfold Json.parse.
  replace (2 * length (34%N :: s) + 2)%nat with (S (2 * length s + 3)) by (cbn [length]; lia).
  cbn [Json.parseValue Json.skipWs]. change (Json.isJsonWs 34) with false. cbn iota.
  change (34 =? 34)%N with true. cbn iota.
  destruct (Json.parseStringBody s) as [[str rest] |]; [| discriminate].
  destruct (Json.skipWs rest); [| discriminate].
  intros H. injection H as <-. eexists. reflexivity.
Qed.

(** White space around the colon and an escaped quote in the narrative:
    the capture keeps the escape, the preview decodes it. *)
Example preview_escaped_quote :
  narrativeMatch (jsq "{ 'narrative' :  'He said \'hi\'.', 'newLoc") = Some (jsq "He said \'hi\'.")
  /\ narrativePreview (jsq "{ 'narrative' :  'He said \'hi\'.', 'newLoc")
     = Some (jsq "He said 'hi'.").
Proof. vm_compute. split; reflexivity. Qed.

(** A raw line feed inside the narrative: the expression matches, the
    capture does not decode, and the throw is ignored. *)
Example preview_raw_line_feed :
  narrativeMatch (jsq "{'narrative':'one" ++ [10%N] ++ jsq "two'") = Some (js "one" ++ [10%N] ++ js "two")
  /\ narrativePreview (jsq "{'narrative':'one" ++ [10%N] ++ jsq "two'") = None.
Proof. vm_compute. split; reflexivity. Qed.

(** An empty narrative is a falsy capture: nothing is shown. *)
Example preview_empty_narrative :
  narrativeMatch (jsq "{'narrative':'','newLocation':'X'}") = Some []
  /\ narrativePreview (jsq "{'narrative':'','newLocation':'X'}") = None.
Proof. vm_compute. split; reflexivity. Qed.

(** A few texts, as [JSON.parse] reads them. *)
Example parse_samples :
  Json.parse (jsq " [1, -2.5e+3, true, null, {'a': [], 'a': 'A\u00e9'}] ")
  = Json.Ok (Json.Array
       [Json.Number (js "1"); Json.Number (js "-2.5e+3"); Json.Bool true; Json.Null;
        Json.Object [(js "a", Json.Array []); (js "a", Json.String [65%N; 233%N])]])
  /\ Json.get (js "a") (Json.Object [(js "a", Json.Array []); (js "a", Json.Null)])
     = Some Json.Null
  /\ Json.parse (js "01") = Json.SyntaxError
  /\ Json.parse (js "[1,]") = Json.SyntaxError
  /\ Json.parse (js "1 2") = Json.SyntaxError
  /\ Json.parse (jsq "{'a':1") = Json.SyntaxError
  /\ Json.parse (jsq "'a" ++ [9%N] ++ jsq "b'") = Json.SyntaxError
  /\ Json.parse [] = Json.SyntaxError.
Proof. vm_compute. repeat split; reflexivity. Qed.

(** ** The story log during a turn *)

Lemma beginTurn_gameState action s :
  Screen.gameState (beginTurn action s) = inTurn action (Screen.gameState s) [].
Proof. reflexivity. Qed.

Lemma narrator_slot (log : list StoryEntry.t) (a b : StoryEntry.t) :
  (log ++ [a; b]) !! (length log + 1)%nat = Some b.
Proof.
  rewrite lookup_app_r by lia.
  replace (length log + 1 - length log)%nat with 1%nat by lia.
  reflexivity.
Qed.

Lemma setIfPresent_narrator (log : list StoryEntry.t) (a b : StoryEntry.t) f :
  setIfPresent (log ++ [a; b]) (length log + 1) f = log ++ [a; f b].
Proof.
  unfold setIfPresent. rewrite narrator_slot.
  rewrite insert_app_r. reflexivity.
Qed.

Lemma arraySet_narrator (log : list StoryEntry.t) (a b e : StoryEntry.t) :
  arraySet (log ++ [a; b]) (length log + 1) e = Some (log ++ [a; e]).
Proof.
  unfold arraySet. rewrite length_app. simpl.
  destruct (decide (length log + 1 < length log + 2)%nat) as [_ | H]; [| lia].
  rewrite insert_app_r. reflexivity.
Qed.

(** One chunk keeps the shape of the turn in flight: only the text of the
    narrator's entry can change. *)
Lemma onChunk_inTurn action g t acc s chunk :
  Screen.gameState s = inTurn action g t ->
  exists t',
    onChunk (length (GameState.storyLog g) + 1) (acc, s) chunk
    = (acc ++ chunk, Screen.withGameState s (inTurn action g t')).
Proof.
  intros Hs. unfold onChunk.
  destruct (narrativePreview (acc ++ chunk)) as [text |].
  - exists text. f_equal. f_equal. rewrite Hs. unfold inTurn. simpl.
    rewrite setIfPresent_narrator. reflexivity.
  - exists t. f_equal. rewrite <- Hs. destruct s; reflexivity.
Qed.

Lemma fold_onChunk_inTurn action g fragments :
  forall t acc s,
    Screen.gameState s = inTurn action g t ->
    exists t',
      fold_left (onChunk (length (GameState.storyLog g) + 1)) fragments (acc, s)
      = (acc ++ concat fragments, Screen.withGameState s (inTurn action g t')).
Proof.
  induction fragments as [| chunk fragments IH]; intros t acc s Hs; cbn [fold_left concat].
  - exists t. rewrite app_nil_r. f_equal. rewrite <- Hs. destruct s; reflexivity.
  - destruct (onChunk_inTurn action g t acc s chunk Hs) as [t1 E1]. rewrite E1.
    destruct (IH t1 (acc ++ chunk) (Screen.withGameState s (inTurn action g t1)) eq_refl)
      as [t2 E2].
    exists t2. rewrite E2. rewrite <- app_assoc. reflexivity.
Qed.

(** The streaming loop: the buffer is the concatenation of the
    fragments, and the state differs from the one at the submit only in
    the text of the narrator's entry. *)
Lemma consume_beginTurn action fragments s :
  exists t,
    consume (length (GameState.storyLog (Screen.gameState s)) + 1) fragments
      (beginTurn action s)
    = (concat fragments,
       Screen.withGameState (beginTurn action s) (inTurn action (Screen.gameState s) t)).
Proof.
  unfold consume.
  destruct (fold_onChunk_inTurn action (Screen.gameState s) fragments [] []
              (beginTurn action s) (beginTurn_gameState action s)) as [t E].
  exists t. exact E.
Qed.

(** ** The streaming assembler on the narrative example *)

Lemma hello_preview_1 :
  narrativePreview ([] ++ jsq "{'narrative':'Hel") = None.
Proof. vm_compute. reflexivity. Qed.

Lemma hello_preview_2 :
  narrativePreview (([] ++ jsq "{'narrative':'Hel") ++ js "lo wor") = None.
Proof. vm_compute. reflexivity. Qed.

Lemma hello_preview_3 :
  narrativePreview
    ((([] ++ jsq "{'narrative':'Hel") ++ js "lo wor") ++ jsq "ld','newLocation':'X'}")
  = Some (js "Hello world").
Proof. vm_compute. reflexivity. Qed.

Lemma hello_buffer :
  (([] ++ jsq "{'narrative':'Hel") ++ js "lo wor") ++ jsq "ld','newLocation':'X'}"
  = Sample.helloDocument.
Proof. vm_compute. reflexivity. Qed.

Lemma hello_parse :
  Json.parse Sample.helloDocument
  = Json.Ok (Json.Object [(js "narrative", Json.String (js "Hello world"));
                       (js "newLocation", Json.String (js "X"))]).
Proof. vm_compute. reflexivity. Qed.

(** C1, as the code has it.  Fed the three fragments of the example, the
    streaming loop shows nothing after the first fragment and nothing
    after the second (the expression needs the quote that closes the
    narrative, and only the third fragment brings it); the third fragment
    sets the preview to Hello world; the buffer is then the whole
    document, it parses, its narrative is exactly Hello world, and the
    turn does not reach the catch block. *)
Theorem C1_streaming_preview_needs_closing_quote
    (syntaxErrorMessage : jsstring -> jsstring) (action : jsstring) (s : Screen.t) :
  let narratorEntryIndex := (length (GameState.storyLog (Screen.gameState s)) + 1)%nat in
  let after k :=
    consume narratorEntryIndex (take k Sample.helloFragments) (beginTurn action s) in
  let shown k :=
    StoryEntry.text <$>
      GameState.storyLog (Screen.gameState (snd (after k))) !! narratorEntryIndex in
  shown 0%nat = Some []
  /\ snd (after 1%nat) = beginTurn action s
  /\ snd (after 2%nat) = beginTurn action s
  /\ shown 3%nat = Some (js "Hello world")
  /\ fst (after 3%nat) = Sample.helloDocument
  /\ (exists document,
        Json.parse (fst (after 3%nat)) = Json.Ok document
        /\ Json.get (js "narrative") document = Some (Json.String (js "Hello world")))
  /\ (forall err,
        outcomeOf syntaxErrorMessage (Stream.mk Sample.helloFragments None) (fst (after 3%nat))
        <> Caught err).
Proof.
  intros idx after shown.
  assert (E1 : after 1%nat = ([] ++ jsq "{'narrative':'Hel", beginTurn action s)).
  { unfold after, consume, Sample.helloFragments. cbn [take fold_left].
    unfold onChunk. rewrite hello_preview_1. reflexivity. }
  assert (E2 : after 2%nat
               = (([] ++ jsq "{'narrative':'Hel") ++ js "lo wor", beginTurn action s)).
  { unfold after, consume, Sample.helloFragments. cbn [take fold_left].
    unfold onChunk. rewrite hello_preview_1, hello_preview_2. reflexivity. }
  assert (E3 : after 3%nat
               = (Sample.helloDocument,
                  Screen.withGameState (beginTurn action s)
                    (inTurn action (Screen.gameState s) (js "Hello world")))).
  { unfold after, consume, Sample.helloFragments. cbn [take fold_left].
    unfold onChunk. rewrite hello_preview_1, hello_preview_2, hello_preview_3.
    rewrite hello_buffer. f_equal. f_equal.
    rewrite beginTurn_gameState. unfold inTurn, idx. cbn [GameState.storyLog GameState.withStoryLog].
    rewrite setIfPresent_narrator. reflexivity. }
  split; [| split; [| split; [| split; [| split; [| split]]]]].
  - unfold shown, after, consume, Sample.helloFragments. cbn [take fold_left snd].
    rewrite beginTurn_gameState. unfold inTurn, idx. cbn [GameState.storyLog GameState.withStoryLog].
    rewrite narrator_slot. reflexivity.
  - rewrite E1. reflexivity.
  - rewrite E2. reflexivity.
  - unfold shown. rewrite E3. cbn [snd Screen.gameState Screen.withGameState].
    unfold inTurn, idx. cbn [GameState.storyLog GameState.withStoryLog].
    rewrite narrator_slot. reflexivity.
  - rewrite E3. reflexivity.
  - rewrite E3. cbn [fst]. rewrite hello_parse. eexists. split; [reflexivity |].
    vm_compute. reflexivity.
  - intros err. rewrite E3. cbn [fst]. unfold outcomeOf. cbn [Stream.failure].
    rewrite hello_parse.
    destruct (Decode.response _); discriminate.
Qed.

(** C1 as it is stated fails on the first fragment: the buffer has no
    closing quote yet, so nothing is shown; the narrator's entry of the
    sample screen still has the empty text where C1 has Hel. *)
Lemma C1_counterexample :
  let narratorEntryIndex := 2%nat in
  let after1 :=
    consume narratorEntryIndex (take 1 Sample.helloFragments)
      (beginTurn (js "look") Sample.screen) in
  narrativePreview (fst after1) = None
  /\ StoryEntry.text <$>
       GameState.storyLog (Screen.gameState (snd after1)) !! narratorEntryIndex
     = Some []
  /\ js "Hel" <> [].
Proof. vm_compute. repeat split; discriminate. Qed.

(** ** A final buffer that does not parse *)

Lemma executeAction_caught syntaxErrorMessage action stream s err :
  returnsEarly action s = false ->
  outcomeOf syntaxErrorMessage stream (concat (Stream.fragments stream)) = Caught err ->
  executeAction syntaxErrorMessage action stream s = Some (voided action err s).
Proof.
  intros Hguard Hout. unfold executeAction. rewrite Hguard.
  destruct (consume_beginTurn action (Stream.fragments stream) s) as [t E].
  rewrite E, Hout. f_equal.
  unfold catchTurn, voided, inTurn.
  cbn [Screen.gameState Screen.withGameState GameState.storyLog GameState.withStoryLog].
  rewrite setIfPresent_narrator. destruct s as [g input loading proposed leveling].
  destruct g. reflexivity.
Qed.

(** A turn with no other update in between, whose final buffer does
    not parse, ends with one failure: the log is the prior log, the
    player's entry, and one narrator entry holding the error text in
    place of the preview; inventory, location, quests, main objective,
    scenario (hence every character stat), lore and the game-over flag
    and message are those of the prior state, and the loading flag is
    cleared. *)
Lemma undisturbed_turn_voided_by_malformed_buffer
    (syntaxErrorMessage : jsstring -> jsstring)
    (action : jsstring) (fragments : list jsstring) (s : Screen.t) :
  returnsEarly action s = false ->
  Json.parse (concat fragments) = Json.SyntaxError ->
  exists s',
    executeAction syntaxErrorMessage action (Stream.mk fragments None) s = Some s'
    /\ GameState.storyLog (Screen.gameState s')
       = GameState.storyLog (Screen.gameState s)
         ++ [StoryEntry.player action;
             StoryEntry.narrator (syntaxErrorMessage (concat fragments))]
    /\ GameState.inventory (Screen.gameState s') = GameState.inventory (Screen.gameState s)
    /\ GameState.currentLocation (Screen.gameState s')
       = GameState.currentLocation (Screen.gameState s)
    /\ GameState.quests (Screen.gameState s') = GameState.quests (Screen.gameState s)
    /\ GameState.objective (Screen.gameState s') = GameState.objective (Screen.gameState s)
    /\ GameState.scenario (Screen.gameState s') = GameState.scenario (Screen.gameState s)
    /\ GameState.lore (Screen.gameState s') = GameState.lore (Screen.gameState s)
    /\ GameState.isGameOver (Screen.gameState s')
       = GameState.isGameOver (Screen.gameState s)
    /\ GameState.gameOverMessage (Screen.gameState s')
       = GameState.gameOverMessage (Screen.gameState s)
    /\ Screen.isLoading s' = false
    /\ Screen.proposedUpdate s' = Screen.proposedUpdate s
    /\ Screen.isLevelingUp s' = Screen.isLevelingUp s.
Proof.
  intros Hguard Hparse.
  exists (voided action (ErrorObject (syntaxErrorMessage (concat fragments))) s).
  split.
  - apply executeAction_caught; [exact Hguard |].
    unfold outcomeOf. cbn [Stream.failure Stream.fragments]. rewrite Hparse. reflexivity.
  - repeat split.
Qed.

(** C2.  The catch block writes the error text at the index that the
    turn took at the submit, and only if an entry is there.  When an
    image request fails while the turn is in flight, its callback removes
    the pending placeholder and the narrator's entry of the turn moves
    below that index.  On the screen as mounted, with the placeholder of
    the initial image pending, the player submits fight and the stream
    ends in a truncated document.  With no other update in between the
    narrator's entry shows the error text.  With the image request
    failing before the stream ends, the catch block writes nothing: the
    log ends with the player's entry and an empty narrator's entry, the
    error text is in no entry, and the turn has ended (the loading flag
    is cleared) with inventory, location, quests, objective and scenario
    as before. *)
Theorem C2_image_failure_in_turn_hides_error_text :
  let s := SampleImages.screen in
  let failure := js "Unexpected end of JSON input" in
  returnsEarly (js "fight") s = false
  /\ Json.parse (concat (Stream.fragments SampleImages.cut)) = Json.SyntaxError
  /\ GameState.storyLog (Screen.gameState s)
     = [StoryEntry.narrator (js "A grey harbor at dawn."); StoryEntry.placeholder]
  /\ (exists s',
        executeAction Sample.message (js "fight") SampleImages.cut s = Some s'
        /\ GameState.storyLog (Screen.gameState s')
           = [StoryEntry.narrator (js "A grey harbor at dawn."); StoryEntry.placeholder;
              StoryEntry.player (js "fight"); StoryEntry.narrator failure])
  /\ (exists s',
        executeActionAcross Sample.message (js "fight") SampleImages.cut 0 None s = Some s'
        /\ GameState.storyLog (Screen.gameState s')
           = [StoryEntry.narrator (js "A grey harbor at dawn.");
              StoryEntry.player (js "fight"); StoryEntry.narrator []]
        /\ Forall (fun entry => StoryEntry.text entry <> failure)
             (GameState.storyLog (Screen.gameState s'))
        /\ Screen.isLoading s' = false
        /\ GameState.inventory (Screen.gameState s') = GameState.inventory (Screen.gameState s)
        /\ GameState.currentLocation (Screen.gameState s')
           = GameState.currentLocation (Screen.gameState s)
        /\ GameState.quests (Screen.gameState s') = GameState.quests (Screen.gameState s)
        /\ GameState.objective (Screen.gameState s') = GameState.objective (Screen.gameState s)
        /\ GameState.scenario (Screen.gameState s') = GameState.scenario (Screen.gameState s)).
Proof.
  intros s failure.
  assert (Hguard : returnsEarly (js "fight") s = false) by (vm_compute; reflexivity).
  assert (Hparse : Json.parse (concat (Stream.fragments SampleImages.cut)) = Json.SyntaxError)
    by (vm_compute; reflexivity).
  split; [exact Hguard |]. split; [exact Hparse |]. split; [reflexivity |]. split.
  - destruct (undisturbed_turn_voided_by_malformed_buffer Sample.message (js "fight")
                (Stream.fragments SampleImages.cut) s Hguard Hparse)
      as (s' & Hrun & Hlog & _).
    exists s'. split; [exact Hrun |]. rewrite Hlog. reflexivity.
  - eexists. split; [vm_compute; reflexivity |].
    cbn [Screen.gameState GameState.storyLog Screen.isLoading GameState.inventory
         GameState.currentLocation GameState.quests GameState.objective
         GameState.scenario].
    split; [reflexivity |]. split.
    + repeat constructor; vm_compute; intros H; discriminate H.
    + repeat split; vm_compute; reflexivity.
Qed.

(** ** Objective trees *)

Lemma Objective_tree_ind (P : Objective.t -> Prop) :
  (forall t c, P (Objective.mk t c None)) ->
  (forall t c subs, Forall P subs -> P (Objective.mk t c (Some subs))) ->
  forall o, P o.
Proof.
  intros Hleaf Hnode. fix IH 1. intros [t c [subs |]].
  - apply Hnode. induction subs as [| o subs IHsubs]; constructor.
    + apply IH.
    + exact IHsubs.
  - apply Hleaf.
Qed.

Lemma sameJsonNode_unfold ta ca sa tb cb sb :
  sameJsonNode (Objective.mk ta ca sa) (Objective.mk tb cb sb)
  = bool_decide (ta = tb) && Bool.eqb ca cb &&
    match sa, sb with
    | None, None => true
    | Some xs, Some ys => sameJson xs ys
    | _, _ => false
    end.
Proof.
  destruct sa as [xs |], sb as [ys |]; reflexivity.
Qed.

Lemma sameJson_Forall xs :
  Forall (fun x => forall y, sameJsonNode x y = true <-> x = y) xs ->
  forall ys, sameJson xs ys = true <-> xs = ys.
Proof.
  induction 1 as [| x xs Hx _ IH]; intros [| y ys]; cbn [sameJson];
    try (split; [discriminate | congruence]); try tauto.
  rewrite andb_true_iff, Hx, IH. split.
  - intros [-> ->]. reflexivity.
  - intros E. injection E as -> ->. split; reflexivity.
Qed.

Lemma sameJsonNode_spec a : forall b, sameJsonNode a b = true <-> a = b.
Proof.
  induction a as [ta ca | ta ca subs IH] using Objective_tree_ind;
    intros [tb cb sb]; rewrite sameJsonNode_unfold.
  - destruct sb as [ys |].
    + rewrite andb_false_r. split; [discriminate | congruence].
    + rewrite andb_true_r, andb_true_iff, bool_decide_eq_true, Bool.eqb_true_iff.
      split; [intros [-> ->]; reflexivity | intros E; injection E as -> ->; tauto].
  - destruct sb as [ys |].
    + rewrite !andb_true_iff, bool_decide_eq_true, Bool.eqb_true_iff,
        (sameJson_Forall subs IH ys).
      split; [intros [[-> ->] ->]; reflexivity | intros E; injection E as -> -> ->; tauto].
    + rewrite andb_false_r. split; [discriminate | congruence].
Qed.

(** The comparison of the two serialisations decides equality of the
    trees. *)
Lemma sameJson_spec xs ys : sameJson xs ys = true <-> xs = ys.
Proof.
  apply sameJson_Forall. apply Forall_forall. intros x _. apply sameJsonNode_spec.
Qed.

Lemma sameJson_refl xs : sameJson xs xs = true.
Proof. apply sameJson_spec. reflexivity. Qed.

Lemma map_fixed {A} (f : A -> A) (l : list A) :
  Forall (fun x => f x = x) l -> List.map f l = l.
Proof. induction 1 as [| x l Hx _ IH]; cbn [List.map]; congruence. Qed.

Lemma updateObjective_unfold text t c subs :
  updateObjective text (Objective.mk t c subs)
  = if bool_decide (t = text) then Objective.mk t true subs
    else
      match subs with
      | Some subObjectives =>
          if negb (sameJson (updateObjectivesRecursively subObjectives text) subObjectives)
          then Objective.mk t
                 (forallb Objective.isCompleted
                    (updateObjectivesRecursively subObjectives text))
                 (Some (updateObjectivesRecursively subObjectives text))
          else Objective.mk t c subs
      | None => Objective.mk t c subs
      end.
Proof. reflexivity. Qed.

(** A second application of the same update changes nothing. *)
Lemma updateObjective_idempotent text o :
  updateObjective text (updateObjective text o) = updateObjective text o.
Proof.
  induction o as [t c | t c subs IH] using Objective_tree_ind;
    rewrite (updateObjective_unfold text t c).
  - destruct (bool_decide (t = text)) eqn:E;
      rewrite updateObjective_unfold, E; reflexivity.
  - destruct (bool_decide (t = text)) eqn:E.
    + rewrite updateObjective_unfold, E. reflexivity.
    + destruct (sameJson (updateObjectivesRecursively subs text) subs) eqn:Same; cbn [negb].
      * rewrite updateObjective_unfold, E, Same. reflexivity.
      * rewrite updateObjective_unfold, E.
        assert (Again : updateObjectivesRecursively
                          (updateObjectivesRecursively subs text) text
                        = updateObjectivesRecursively subs text).
        { unfold updateObjectivesRecursively. rewrite List.map_map.
          apply List.map_ext_Forall. exact IH. }
        rewrite Again, sameJson_refl. reflexivity.
Qed.

Lemma updateObjectivesRecursively_idempotent objectives text :
  updateObjectivesRecursively (updateObjectivesRecursively objectives text) text
  = updateObjectivesRecursively objectives text.
Proof.
  unfold updateObjectivesRecursively. rewrite List.map_map.
  apply List.map_ext. intros o. apply updateObjective_idempotent.
Qed.

Lemma Forall_flat_map_nodes (P : Objective.t -> Prop) objectives :
  Forall P (allNodes objectives) <-> Forall (fun o => Forall P (nodes o)) objectives.
Proof.
  unfold allNodes. induction objectives as [| o objectives IH]; cbn [flat_map].
  - split; constructor.
  - rewrite Forall_app, IH. split.
    + intros [H1 H2]. constructor; assumption.
    + intros H. inversion H; subst. split; assumption.
Qed.

Lemma nodes_unfold t c subs :
  nodes (Objective.mk t c subs)
  = Objective.mk t c subs
    :: match subs with Some subObjectives => allNodes subObjectives | None => [] end.
Proof. reflexivity. Qed.

(** An update whose text is carried by completed nodes only (or by no
    node at all) changes nothing. *)
Lemma updateObjective_fixed text o :
  Forall (fun n => Objective.text n = text -> completed n) (nodes o) ->
  updateObjective text o = o.
Proof.
  induction o as [t c | t c subs IH] using Objective_tree_ind;
    rewrite nodes_unfold, updateObjective_unfold; intros H;
    inversion H as [| ? ? Hroot Hsubs]; subst.
  - destruct (bool_decide (t = text)) eqn:E; [| reflexivity].
    apply bool_decide_eq_true in E. rewrite (Hroot E). reflexivity.
  - destruct (bool_decide (t = text)) eqn:E.
    + apply bool_decide_eq_true in E. rewrite (Hroot E). reflexivity.
    + assert (Same : updateObjectivesRecursively subs text = subs).
      { apply map_fixed. apply Forall_flat_map_nodes in Hsubs.
        rewrite Forall_forall in IH, Hsubs |- *.
        intros x Hx. apply IH; [exact Hx | apply Hsubs; exact Hx]. }
      rewrite Same, sameJson_refl. reflexivity.
Qed.

Lemma updateObjectivesRecursively_fixed objectives text :
  Forall (fun n => Objective.text n = text -> completed n) (allNodes objectives) ->
  updateObjectivesRecursively objectives text = objectives.
Proof.
  intros H. apply map_fixed. apply Forall_flat_map_nodes in H.
  rewrite Forall_forall in H |- *. intros o Ho. apply updateObjective_fixed, H, Ho.
Qed.

Lemma objectiveComplete_unfold t c subs :
  objectiveComplete (Objective.mk t c subs)
  = c && match subs with
         | None => true
         | Some subObjectives => areAllObjectivesComplete subObjectives
         end.
Proof. reflexivity. Qed.

Lemma objectiveComplete_nodes o :
  objectiveComplete o = true <-> Forall completed (nodes o).
Proof.
  induction o as [t c | t c subs IH] using Objective_tree_ind;
    rewrite objectiveComplete_unfold, nodes_unfold, Forall_cons; unfold completed at 1;
    cbn [Objective.isCompleted].
  - rewrite andb_true_r. split; [intros ->; split; [reflexivity | constructor] | tauto].
  - rewrite andb_true_iff, Forall_flat_map_nodes.
    unfold areAllObjectivesComplete. rewrite forallb_forall.
    rewrite Forall_forall in IH. rewrite Forall_forall.
    split; intros [Hc Hs]; (split; [exact Hc |]); intros x Hx.
    + apply IH; [exact Hx |]. apply Hs. apply list_elem_of_In. exact Hx.
    + apply list_elem_of_In in Hx. apply IH; [exact Hx |]. apply Hs, Hx.
Qed.

(** [areAllObjectivesComplete] holds exactly when every root objective
    and every sub-objective at every depth is completed. *)
Lemma areAllObjectivesComplete_nodes objectives :
  areAllObjectivesComplete objectives = true <-> Forall completed (allNodes objectives).
Proof.
  unfold areAllObjectivesComplete. rewrite Forall_flat_map_nodes, forallb_forall, Forall_forall.
  split; intros H x Hx.
  - apply objectiveComplete_nodes, H. apply list_elem_of_In. exact Hx.
  - apply objectiveComplete_nodes, H. apply list_elem_of_In. exact Hx.
Qed.

(** ** Quest updates *)

Lemma updateQuest_matching u q :
  Quest.title q = QuestUpdate.questTitle u ->
  updateQuest u q
  = Quest.mk (Quest.title q) (Quest.description q)
      match QuestUpdate.newStatus u with
      | Some newStatus => statusOf newStatus
      | None =>
          if areAllObjectivesComplete
               (updateObjectivesRecursively (Quest.objectives q) (QuestUpdate.objectiveText u))
          then Completed else Quest.status q
      end
      (updateObjectivesRecursively (Quest.objectives q) (QuestUpdate.objectiveText u)).
Proof.
  intros E. unfold updateQuest. rewrite bool_decide_eq_true_2 by exact E. reflexivity.
Qed.

Lemma updateQuest_other u q :
  Quest.title q <> QuestUpdate.questTitle u -> updateQuest u q = q.
Proof.
  intros E. unfold updateQuest. rewrite bool_decide_eq_false_2 by exact E. reflexivity.
Qed.

Lemma updateQuest_idempotent u q : updateQuest u (updateQuest u q) = updateQuest u q.
Proof.
  destruct (decide (Quest.title q = QuestUpdate.questTitle u)) as [E | E].
  - rewrite (updateQuest_matching u q E).
    rewrite updateQuest_matching by exact E.
    cbn [Quest.title Quest.description Quest.status Quest.objectives].
    rewrite updateObjectivesRecursively_idempotent.
    destruct (QuestUpdate.newStatus u); [reflexivity |].
    destruct (areAllObjectivesComplete _); reflexivity.
  - rewrite !(updateQuest_other u q E). reflexivity.
Qed.

Lemma updateQuest_consistent u q :
  QuestUpdate.newStatus u = None -> consistent q -> consistent (updateQuest u q).
Proof.
  intros Hnone Hq.
  destruct (decide (Quest.title q = QuestUpdate.questTitle u)) as [E | E];
    [| rewrite updateQuest_other by exact E; exact Hq].
  rewrite updateQuest_matching by exact E. rewrite Hnone.
  unfold consistent. cbn [Quest.status Quest.objectives].
  destruct (areAllObjectivesComplete _) eqn:All.
  - intros _. apply areAllObjectivesComplete_nodes. exact All.
  - intros Hstatus. specialize (Hq Hstatus).
    assert (Fixed : updateObjectivesRecursively (Quest.objectives q)
                      (QuestUpdate.objectiveText u) = Quest.objectives q).
    { apply updateObjectivesRecursively_fixed.
      eapply Forall_impl; [exact Hq |]. intros n Hn _. exact Hn. }
    rewrite Fixed. exact Hq.
Qed.

(** C3, as the code has it.  A quest update without an explicit status
    sets the status of the quest it targets to 'completed' when, after the
    update, every objective at every depth is completed (the test reaches
    the sub-objectives, not only the roots), and leaves the status as it
    was otherwise; an explicit status always wins.  So such an update keeps
    every consistent quest consistent, and a turn result keeps a consistent
    quest list consistent when it carries no explicit status and its new
    quest, if any, arrives consistent. *)
Theorem C3_status_follows_all_objectives :
  (forall u q,
     Quest.title q = QuestUpdate.questTitle u ->
     QuestUpdate.newStatus u = None ->
     Quest.status (updateQuest u q)
     = if areAllObjectivesComplete (Quest.objectives (updateQuest u q))
       then Completed else Quest.status q)
  /\ (forall u q n,
        Quest.title q = QuestUpdate.questTitle u ->
        QuestUpdate.newStatus u = Some n ->
        Quest.status (updateQuest u q) = statusOf n)
  /\ (forall objectives,
        areAllObjectivesComplete objectives = true
        <-> Forall completed (allNodes objectives))
  /\ (forall u q,
        QuestUpdate.newStatus u = None -> consistent q -> consistent (updateQuest u q))
  /\ (forall response quests,
        noOverride response -> arrivesConsistent response ->
        Forall consistent quests ->
        Forall consistent (reconcileQuests response quests)).
Proof.
  split; [| split; [| split; [| split]]].
  - intros u q E Hnone. rewrite (updateQuest_matching u q E), Hnone. reflexivity.
  - intros u q n E Hsome. rewrite (updateQuest_matching u q E), Hsome. reflexivity.
  - exact areAllObjectivesComplete_nodes.
  - exact updateQuest_consistent.
  - intros response quests Hno Harr Hall. unfold reconcileQuests, noOverride, arrivesConsistent in *.
    assert (Hext : Forall consistent
                     match GeminiResponse.newQuest response with
                     | Some newQuest => quests ++ [newQuest]
                     | None => quests
                     end).
    { destruct (GeminiResponse.newQuest response) as [nq |]; [| exact Hall].
      apply Forall_app. split; [exact Hall | constructor; [exact Harr | constructor]]. }
    destruct (GeminiResponse.questUpdate response) as [u |]; [| exact Hext].
    rewrite Forall_forall in Hext. rewrite Forall_forall. intros q' Hin.
    apply list_elem_of_In, List.in_map_iff in Hin. destruct Hin as (q & <- & Hq).
    apply updateQuest_consistent; [exact Hno |]. apply Hext, list_elem_of_In, Hq.
Qed.

Lemma C3_witness :
  Quest.status (updateQuest SampleQuests.markLeaf SampleQuests.nested) = Completed
  /\ Quest.status (updateQuest SampleQuests.markLeafFailed SampleQuests.nested) = Failed
  /\ consistent (updateQuest SampleQuests.markLeaf SampleQuests.nested)
  /\ Forall consistent
       (reconcileQuests (SampleQuests.withUpdate SampleQuests.markLeaf) [SampleQuests.nested]).
Proof.
  destruct C3_status_follows_all_objectives as (Hstatus & Hwins & _ & Hkeep & Hlist).
  assert (Hcons : consistent SampleQuests.nested) by (intros H; discriminate H).
  split; [| split; [| split]].
  - rewrite (Hstatus SampleQuests.markLeaf SampleQuests.nested); reflexivity.
  - rewrite (Hwins SampleQuests.markLeafFailed SampleQuests.nested NewFailed); reflexivity.
  - apply Hkeep; [reflexivity | exact Hcons].
  - apply Hlist; [reflexivity | exact I | constructor; [exact Hcons | constructor]].
Defined.

(** C3 as it is stated fails twice.  Marking the only root objective of
    the nested quest completes every root objective, yet the status stays
    'active', because the sub-objective is still open.  And a quest that
    arrives 'completed' with an open objective enters the quest list as it
    is, with no explicit status in any quest update. *)
Lemma C3_counterexample :
  let q := updateQuest SampleQuests.markRoot SampleQuests.nested in
  QuestUpdate.newStatus SampleQuests.markRoot = None
  /\ forallb Objective.isCompleted (Quest.objectives q) = true
  /\ Quest.status q = Active
  /\ reconcileQuests (Sample.withQuest SampleQuests.bornCompleted) []
     = [SampleQuests.bornCompleted]
  /\ Quest.status SampleQuests.bornCompleted = Completed
  /\ forallb Objective.isCompleted (Quest.objectives SampleQuests.bornCompleted) = false.
Proof. vm_compute. repeat split. Qed.

(** ** New quests *)

(** C4, as the code has it.  A new quest is appended to the end of the
    quest list as the turn result carries it, status included; a quest
    update of the same turn result then runs over the extended list, so
    the appended quest is the last one and differs from the one carried
    only when that update targets its title. *)
Theorem C4_new_quest_appended_as_carried
    (narratorEntryIndex : nat) (response : GeminiResponse.t)
    (prev next : GameState.t) (levelUp : bool) (q : Quest.t) :
  reconcile narratorEntryIndex response prev = Some (next, levelUp) ->
  GeminiResponse.newQuest response = Some q ->
  GameState.quests next
  = match GeminiResponse.questUpdate response with
    | None => GameState.quests prev ++ [q]
    | Some u => List.map (updateQuest u) (GameState.quests prev) ++ [updateQuest u q]
    end
  /\ (GeminiResponse.questUpdate response = None ->
      last (GameState.quests next) = Some q)
  /\ (forall u,
        GeminiResponse.questUpdate response = Some u ->
        Quest.title q <> QuestUpdate.questTitle u ->
        last (GameState.quests next) = Some q).
Proof.
  intros Hrec Hnew. unfold reconcile in Hrec.
  destruct (arraySet _ _ _) as [finalLog |]; [| discriminate Hrec].
  cbn [mbind option_bind] in Hrec.
  destruct (reconcileCharacter _ _) as [updatedCharacter flag].
  injection Hrec as <- _. cbn [GameState.quests].
  unfold reconcileQuests. rewrite Hnew.
  split; [| split].
  - destruct (GeminiResponse.questUpdate response); [| reflexivity].
    rewrite List.map_app. reflexivity.
  - intros ->. apply last_snoc.
  - intros u -> Hne. rewrite List.map_app. cbn [List.map].
    rewrite (updateQuest_other u q Hne). apply last_snoc.
Qed.

Lemma C4_witness :
  reconcile 2 (Sample.withQuest SampleQuests.bornCompleted) SampleQuests.inFlight
  = Some SampleQuests.afterBornCompleted
  /\ GameState.quests (fst SampleQuests.afterBornCompleted)
     = GameState.quests SampleQuests.inFlight ++ [SampleQuests.bornCompleted]
  /\ last (GameState.quests (fst SampleQuests.afterBornCompleted))
     = Some SampleQuests.bornCompleted.
Proof.
  assert (Hrec : reconcile 2 (Sample.withQuest SampleQuests.bornCompleted)
                   SampleQuests.inFlight
                 = Some (fst SampleQuests.afterBornCompleted,
                         snd SampleQuests.afterBornCompleted))
    by (vm_compute; reflexivity).
  destruct (C4_new_quest_appended_as_carried 2 _ _ _ _ SampleQuests.bornCompleted
              Hrec eq_refl) as (Hq & Hlast & _).
  split; [vm_compute; reflexivity | split; [exact Hq | exact (Hlast eq_refl)]].
Defined.

(** C4 as it is stated fails: the quest that arrives 'completed' is in
    the quest list with that status, not with 'active'. *)
Lemma C4_counterexample :
  reconcile 2 (Sample.withQuest SampleQuests.bornCompleted) SampleQuests.inFlight
  = Some SampleQuests.afterBornCompleted
  /\ List.map Quest.status (GameState.quests (fst SampleQuests.afterBornCompleted))
     = [Completed]
  /\ Completed <> Active.
Proof. split; [vm_compute; reflexivity | split; [vm_compute; reflexivity | discriminate]]. Qed.

(** ** A turn whose final buffer parses *)

Lemma executeAction_parsed syntaxErrorMessage action stream s response :
  returnsEarly action s = false ->
  outcomeOf syntaxErrorMessage stream (concat (Stream.fragments stream)) = Parsed response ->
  executeAction syntaxErrorMessage action stream s = Some (resolved action response s).
Proof.
  intros Hguard Hout. unfold executeAction. rewrite Hguard.
  destruct (consume_beginTurn action (Stream.fragments stream) s) as [t E].
  rewrite E, Hout. unfold applyResponse, reconcile, resolved, inTurn.
  cbn [Screen.gameState Screen.withGameState GameState.storyLog GameState.withStoryLog
       GameState.scenario GameState.lore GameState.quests].
  rewrite arraySet_narrator. cbn [mbind option_bind].
  destruct (reconcileCharacter _ _) as [updatedCharacter levelUp].
  cbn [mbind option_bind]. f_equal.
  destruct s as [g input loading proposed leveling].
  cbn [Screen.gameState Screen.isLevelingUp Screen.proposedUpdate Screen.isLoading
       Screen.playerInput beginTurn Screen.withGameState Screen.withIsLoading
       Screen.withPlayerInput].
  destruct levelUp, (GeminiResponse.loreUpdate response) as [u |],
    (GeminiResponse.requestImageGeneration response) as [[|] |],
    (GeminiResponse.isGameOver response) eqn:Over;
    cbn; rewrite ?Over, ?orb_true_r, ?orb_false_r, ?app_nil_r, <- ?app_assoc; reflexivity.
Qed.

(** ** Idempotence of the objective update *)

(** An update whose text is carried only by completed objectives leaves
    the objective tree; the status is computed all the same. *)
Lemma updateQuest_settled u q :
  Quest.title q = QuestUpdate.questTitle u ->
  Forall (fun n => Objective.text n = QuestUpdate.objectiveText u -> completed n)
    (allNodes (Quest.objectives q)) ->
  updateQuest u q
  = Quest.mk (Quest.title q) (Quest.description q)
      match QuestUpdate.newStatus u with
      | Some newStatus => statusOf newStatus
      | None =>
          if areAllObjectivesComplete (Quest.objectives q) then Completed
          else Quest.status q
      end
      (Quest.objectives q).
Proof.
  intros Htitle Hdone. rewrite (updateQuest_matching u q Htitle).
  rewrite (updateObjectivesRecursively_fixed _ _ Hdone). reflexivity.
Qed.

(** C5.  Applying a quest update a second time leaves the quest, its
    objective tree and its status, as the first application made it.  An
    update whose text is carried only by objectives that are already
    completed, and in particular one whose text no objective carries,
    leaves the objective tree as it is; the status of the quest it names
    is computed again all the same: the explicit status when the update
    has one, 'completed' when every objective at every depth is
    completed, the status the quest had otherwise.  So such an update
    leaves the whole quest as it is when it has no explicit status and
    either an objective is still open or the quest is 'completed'
    already, and a quest that the update does not name is never touched.
    An objective that does not carry the text stays untouched when the
    update changes nothing among its sub-objectives, its completion being
    recomputed from its direct sub-objectives otherwise. *)
Theorem C5_objective_update_idempotent :
  (forall u q, updateQuest u (updateQuest u q) = updateQuest u q)
  /\ (forall objectives text,
        updateObjectivesRecursively (updateObjectivesRecursively objectives text) text
        = updateObjectivesRecursively objectives text)
  /\ (forall objectives text,
        Forall (fun n => Objective.text n = text -> completed n) (allNodes objectives) ->
        updateObjectivesRecursively objectives text = objectives)
  /\ (forall objectives text,
        Forall (fun n => Objective.text n <> text) (allNodes objectives) ->
        updateObjectivesRecursively objectives text = objectives)
  /\ (forall text t c subs,
        t <> text ->
        (updateObjectivesRecursively subs text = subs ->
         updateObjective text (Objective.mk t c (Some subs)) = Objective.mk t c (Some subs))
        /\ (updateObjectivesRecursively subs text <> subs ->
            updateObjective text (Objective.mk t c (Some subs))
            = Objective.mk t
                (forallb Objective.isCompleted (updateObjectivesRecursively subs text))
                (Some (updateObjectivesRecursively subs text))))
  /\ (forall u q,
        Quest.title q = QuestUpdate.questTitle u ->
        Forall (fun n => Objective.text n = QuestUpdate.objectiveText u -> completed n)
          (allNodes (Quest.objectives q)) ->
        Quest.objectives (updateQuest u q) = Quest.objectives q
        /\ Quest.title (updateQuest u q) = Quest.title q
        /\ Quest.description (updateQuest u q) = Quest.description q
        /\ Quest.status (updateQuest u q)
           = match QuestUpdate.newStatus u with
             | Some newStatus => statusOf newStatus
             | None =>
                 if areAllObjectivesComplete (Quest.objectives q) then Completed
                 else Quest.status q
             end)
  /\ (forall u q,
        Quest.title q = QuestUpdate.questTitle u ->
        Forall (fun n => Objective.text n = QuestUpdate.objectiveText u -> completed n)
          (allNodes (Quest.objectives q)) ->
        QuestUpdate.newStatus u = None ->
        areAllObjectivesComplete (Quest.objectives q) = false
        \/ Quest.status q = Completed ->
        updateQuest u q = q)
  /\ (forall u q, Quest.title q <> QuestUpdate.questTitle u -> updateQuest u q = q).
Proof.
  split; [| split; [| split; [| split; [| split; [| split; [| split]]]]]].
  - exact updateQuest_idempotent.
  - exact updateObjectivesRecursively_idempotent.
  - exact updateObjectivesRecursively_fixed.
  - intros objectives text H. apply updateObjectivesRecursively_fixed.
    eapply Forall_impl; [exact H |]. intros n Hn E. contradiction.
  - intros text t c subs Hne. rewrite updateObjective_unfold.
    rewrite bool_decide_eq_false_2 by exact Hne. split; intros H.
    + rewrite H, sameJson_refl. reflexivity.
    + destruct (sameJson _ subs) eqn:Same; [| reflexivity].
      apply sameJson_spec in Same. contradiction.
  - intros u q Htitle Hdone. rewrite (updateQuest_settled u q Htitle Hdone).
    repeat split.
  - intros u q Htitle Hdone Hnone Hstatus.
    rewrite (updateQuest_settled u q Htitle Hdone), Hnone.
    destruct q as [title description status objectives].
    cbn [Quest.title Quest.description Quest.status Quest.objectives] in *.
    destruct Hstatus as [Hopen | ->].
    + rewrite Hopen. reflexivity.
    + destruct (areAllObjectivesComplete objectives); reflexivity.
  - exact updateQuest_other.
Qed.

Lemma C5_witness :
  updateObjectivesRecursively
    [Sample.node "Climb the tower" false
       [Sample.leaf "Find the key" true; Sample.leaf "Oil the hinge" false]]
    (js "Find the key")
  = [Sample.node "Climb the tower" false
       [Sample.leaf "Find the key" true; Sample.leaf "Oil the hinge" false]]
  /\ updateObjectivesRecursively (Quest.objectives SampleQuests.nested) (js "Ring the bell")
     = Quest.objectives SampleQuests.nested
  /\ updateObjective (js "Find the key")
       (Sample.node "Climb the tower" false [Sample.leaf "Find the key" false])
     = Sample.node "Climb the tower" true [Sample.leaf "Find the key" true]
  /\ Quest.status (updateQuest SampleQuests.leverAgain SampleQuests.gateFailed) = Completed
  /\ updateQuest SampleQuests.markRoot
       (updateQuest SampleQuests.markRoot SampleQuests.nested)
     = updateQuest SampleQuests.markRoot SampleQuests.nested
  /\ updateQuest SampleQuests.leverAgain SampleQuests.nested = SampleQuests.nested.
Proof.
  destruct C5_objective_update_idempotent
    as (_ & _ & Hdone & Hnone & Hparent & Hstatus & Hsame & Hother).
  split; [| split; [| split; [| split; [| split]]]].
  - apply Hdone. vm_compute. repeat constructor; intros H; discriminate H.
  - apply Hnone. vm_compute. repeat constructor; intros H; discriminate H.
  - apply (Hparent (js "Find the key") (js "Climb the tower") false
             [Sample.leaf "Find the key" false]); vm_compute; intros H; discriminate H.
  - destruct (Hstatus SampleQuests.leverAgain SampleQuests.gateFailed eq_refl)
      as (_ & _ & _ & E).
    + vm_compute. repeat constructor.
    + rewrite E. reflexivity.
  - apply (Hsame SampleQuests.markRoot
             (updateQuest SampleQuests.markRoot SampleQuests.nested)).
    + reflexivity.
    + vm_compute. repeat constructor; intros H; try discriminate H; reflexivity.
    + reflexivity.
    + left. vm_compute. reflexivity.
  - apply Hother. vm_compute. intros H. discriminate H.
Defined.

(** C5 as it is stated fails: the update names an objective that is
    already completed, and the quest does not stay as it is, its status
    goes from 'failed' to 'completed'. *)
Lemma C5_counterexample :
  SampleQuests.gateFailed = updateQuest SampleQuests.leverFailed SampleQuests.gate
  /\ Quest.title SampleQuests.gateFailed = QuestUpdate.questTitle SampleQuests.leverAgain
  /\ Quest.objectives SampleQuests.gateFailed = [Sample.leaf "Find the lever" true]
  /\ Quest.status SampleQuests.gateFailed = Failed
  /\ Quest.status (updateQuest SampleQuests.leverAgain SampleQuests.gateFailed) = Completed
  /\ updateQuest SampleQuests.leverAgain SampleQuests.gateFailed <> SampleQuests.gateFailed.
Proof.
  split; [vm_compute; reflexivity |]. split; [reflexivity |].
  split; [vm_compute; reflexivity |]. split; [reflexivity |].
  split; [vm_compute; reflexivity |].
  intros H. apply (f_equal Quest.status) in H. vm_compute in H. discriminate H.
Qed.

(** ** Experience and levels *)

Lemma applyStats_keeps response c :
  Character.xp (applyStats response c) = Character.xp c
  /\ Character.xpToNextLevel (applyStats response c) = Character.xpToNextLevel c
  /\ Character.level (applyStats response c) = Character.level c
  /\ Character.maxHealth (applyStats response c) = Character.maxHealth c
  /\ Character.maxMana (applyStats response c) = Character.maxMana c
  /\ Character.maxStamina (applyStats response c) = Character.maxStamina c.
Proof.
  unfold applyStats. destruct (GeminiResponse.characterUpdate response) as [cu |].
  - destruct (CharacterUpdate.health cu), (CharacterUpdate.mana cu),
      (CharacterUpdate.stamina cu); repeat split.
  - repeat split.
Qed.

Lemma reconcileCharacter_gain response c xpGained :
  truthyXpGained response = Some xpGained ->
  reconcileCharacter response c
  = (Character.withXp (applyStats response c) (Character.xp c + xpGained),
     Character.xp c + xpGained >=? Character.xpToNextLevel c).
Proof.
  intros H. unfold reconcileCharacter. rewrite H.
  destruct (applyStats_keeps response c) as (-> & -> & _). reflexivity.
Qed.

Lemma reconcileCharacter_none response c :
  truthyXpGained response = None ->
  reconcileCharacter response c = (applyStats response c, false).
Proof. intros H. unfold reconcileCharacter. rewrite H. reflexivity. Qed.

Lemma resolved_character action response s :
  Scenario.character (GameState.scenario (Screen.gameState (resolved action response s)))
  = fst (reconcileCharacter response
           (Scenario.character (GameState.scenario (Screen.gameState s))))
  /\ Screen.isLevelingUp (resolved action response s)
     = Screen.isLevelingUp s
       || snd (reconcileCharacter response
                 (Scenario.character (GameState.scenario (Screen.gameState s)))).
Proof.
  unfold resolved. destruct (reconcileCharacter _ _) as [c flag]. split; reflexivity.
Qed.

Lemma returnsEarly_false action s :
  returnsEarly action s = false ->
  truthy (trim action) = true
  /\ Screen.isLoading s = false
  /\ GameState.isGameOver (Screen.gameState s) = false
  /\ Screen.proposedUpdate s = None
  /\ Screen.isLevelingUp s = false.
Proof.
  unfold returnsEarly. rewrite !orb_false_iff, negb_false_iff, bool_decide_eq_false.
  intros [[[[H1 H2] H3] H4] H5]. repeat split; try assumption.
  destruct (Screen.proposedUpdate s); [| reflexivity]. exfalso. apply H4. eexists. reflexivity.
Qed.

(** Where three times [x] has no more than 53 bits the product by 1.5
    is exact, and its floor is that of the integers. *)
Lemma timesOneAndHalf_exact x : Z.abs (3 * x) < 2 ^ 53 -> timesOneAndHalf x = x * 3 / 2.
Proof.
  intros H. unfold timesOneAndHalf, nearestHalves.
  destruct (Z.abs (3 * x) <? 2 ^ 53) eqn:E.
  - rewrite (Z.mul_comm 3 x). reflexivity.
  - apply Z.ltb_ge in E. lia.
Qed.

(** Beyond that range the product is rounded: a safe integer whose
    threshold is not the floor of one and a half times it. *)
Lemma timesOneAndHalf_rounds :
  isSafeInteger 9007199254740989
  /\ timesOneAndHalf 9007199254740989 = 13510798882111484
  /\ 9007199254740989 * 3 / 2 = 13510798882111483.
Proof.
  split; [unfold isSafeInteger; split; vm_compute; discriminate |].
  split; vm_compute; reflexivity.
Qed.

(** C6.  Where the arithmetic of the level-up is exact in the numbers of
    the language (safe integers throughout, and three times the threshold
    within 53 bits), confirming a level-up adds one to the level,
    subtracts the old threshold from the experience, sets the threshold
    to the floor of one and a half times the old one, adds the allocated
    increases to the three maxima and restores health, mana and stamina
    to the new maxima; the handler clears the pending flag and touches
    nothing else.  From 95 experience with a threshold of 100, a turn
    that grants 10 flags a pending level-up at 105; spending the ten
    points on health (50), the confirmation yields the next level, 5
    experience, a threshold of 150 and health at the new maximum. *)
Theorem C6_level_up_confirmation :
  (forall statIncreases char,
     levelUpExact statIncreases char ->
     let c := levelUp statIncreases char in
     Character.level c = Character.level char + 1
     /\ Character.xp c = Character.xp char - Character.xpToNextLevel char
     /\ Character.xpToNextLevel c = Character.xpToNextLevel char * 3 / 2
     /\ 2 * Character.xpToNextLevel c <= 3 * Character.xpToNextLevel char
        < 2 * Character.xpToNextLevel c + 2
     /\ Character.maxHealth c = Character.maxHealth char + StatIncreases.maxHealth statIncreases
     /\ Character.maxMana c = Character.maxMana char + StatIncreases.maxMana statIncreases
     /\ Character.maxStamina c = Character.maxStamina char + StatIncreases.maxStamina statIncreases
     /\ Character.health c = Character.maxHealth c
     /\ Character.mana c = Character.maxMana c
     /\ Character.stamina c = Character.maxStamina c
     /\ Character.name c = Character.name char
     /\ Character.backstory c = Character.backstory char)
  /\ (forall statIncreases s,
        let s' := handleLevelUpConfirm statIncreases s in
        characterOf s' = levelUp statIncreases (characterOf s)
        /\ Screen.isLevelingUp s' = false
        /\ Screen.gameState s'
           = GameState.withScenario (Screen.gameState s)
               (Scenario.withCharacter (GameState.scenario (Screen.gameState s))
                  (characterOf s'))
        /\ Screen.proposedUpdate s' = Screen.proposedUpdate s
        /\ Screen.isLoading s' = Screen.isLoading s)
  /\ allPointsToHealth = StatIncreases.mk 50 0 0
  /\ (forall syntaxErrorMessage action stream s response,
        returnsEarly action s = false ->
        outcomeOf syntaxErrorMessage stream (concat (Stream.fragments stream))
        = Parsed response ->
        Character.xp (characterOf s) = 95 ->
        Character.xpToNextLevel (characterOf s) = 100 ->
        truthyXpGained response = Some 10 ->
        isSafeInteger (Character.level (characterOf s)) ->
        isSafeInteger (Character.level (characterOf s) + 1) ->
        isSafeInteger (Character.maxHealth (characterOf s)) ->
        isSafeInteger (Character.maxHealth (characterOf s) + 50) ->
        exists s1,
          executeAction syntaxErrorMessage action stream s = Some s1
          /\ Screen.isLevelingUp s1 = true
          /\ Character.xp (characterOf s1) = 105
          /\ let s2 := handleLevelUpConfirm allPointsToHealth s1 in
             Character.level (characterOf s2) = Character.level (characterOf s) + 1
             /\ Character.xp (characterOf s2) = 5
             /\ Character.xpToNextLevel (characterOf s2) = 150
             /\ Character.maxHealth (characterOf s2)
                = Character.maxHealth (characterOf s) + 50
             /\ Character.health (characterOf s2) = Character.maxHealth (characterOf s2)
             /\ Screen.isLevelingUp s2 = false).
Proof.
  split; [| split; [| split]].
  - intros statIncreases char Hexact c.
    destruct Hexact as (_ & _ & _ & _ & _ & Hproduct & _).
    unfold c, levelUp.
    cbn [Character.level Character.xp Character.xpToNextLevel Character.maxHealth
         Character.maxMana Character.maxStamina Character.health Character.mana
         Character.stamina Character.name Character.backstory].
    rewrite (timesOneAndHalf_exact _ Hproduct).
    repeat split; try reflexivity.
    + pose proof (Z.div_mod (Character.xpToNextLevel char * 3) 2 ltac:(lia)) as Hd.
      pose proof (Z.mod_pos_bound (Character.xpToNextLevel char * 3) 2 ltac:(lia)). lia.
    + pose proof (Z.div_mod (Character.xpToNextLevel char * 3) 2 ltac:(lia)) as Hd.
      pose proof (Z.mod_pos_bound (Character.xpToNextLevel char * 3) 2 ltac:(lia)). lia.
  - intros statIncreases s s'. unfold s'. repeat split.
  - vm_compute. reflexivity.
  - intros msg action stream s response Hguard Hout Hxp Hnext Hgain _ _ _ _.
    exists (resolved action response s). split; [apply executeAction_parsed; assumption |].
    destruct (returnsEarly_false action s Hguard) as (_ & _ & _ & _ & Hlev).
    destruct (resolved_character action response s) as [Hc Hflag].
    fold (characterOf s) in Hc, Hflag. fold (characterOf (resolved action response s)) in Hc.
    rewrite (reconcileCharacter_gain response (characterOf s) 10 Hgain) in Hc, Hflag.
    cbn [fst snd] in Hc, Hflag.
    destruct (applyStats_keeps response (characterOf s)) as (_ & Hn & Hl & Hm & _).
    split; [| split].
    + rewrite Hflag, Hlev, Hxp, Hnext. reflexivity.
    + rewrite Hc. cbn [Character.xp Character.withXp]. rewrite Hxp. reflexivity.
    + intros s2. unfold s2, characterOf, handleLevelUpConfirm.
      cbn [Screen.gameState Screen.withGameState Screen.withIsLevelingUp
           GameState.scenario GameState.withScenario Scenario.character
           Scenario.withCharacter Screen.isLevelingUp].
      fold (characterOf (resolved action response s)). rewrite Hc.
      unfold levelUp.
      cbn [Character.level Character.xp Character.xpToNextLevel Character.maxHealth
           Character.health Character.withXp allPointsToHealth].
      rewrite Hn, Hl, Hm, Hxp, Hnext.
      repeat split; reflexivity.
Qed.

Lemma C6_witness :
  levelUpExact allPointsToHealth Sample.hero
  /\ Character.xpToNextLevel (levelUp allPointsToHealth Sample.hero) = 150
  /\ returnsEarly (js "fight") Sample.screen = false
  /\ Character.xp (characterOf Sample.screen) = 95
  /\ Character.xpToNextLevel (characterOf Sample.screen) = 100
  /\ exists s1,
       executeAction Sample.message (js "fight") (Stream.mk Sample.xpDocument None)
         Sample.screen = Some s1
       /\ Screen.isLevelingUp s1 = true
       /\ Character.xp (characterOf (handleLevelUpConfirm allPointsToHealth s1)) = 5
       /\ Character.xpToNextLevel (characterOf (handleLevelUpConfirm allPointsToHealth s1))
          = 150
       /\ Character.level (characterOf (handleLevelUpConfirm allPointsToHealth s1)) = 2
       /\ Character.health (characterOf (handleLevelUpConfirm allPointsToHealth s1)) = 150.
Proof.
  destruct C6_level_up_confirmation as (Hlevel & _ & _ & Hturn).
  assert (Hexact : levelUpExact allPointsToHealth Sample.hero)
    by (unfold levelUpExact, isSafeInteger; vm_compute;
        repeat split; solve [reflexivity | discriminate]).
  assert (Hg : returnsEarly (js "fight") Sample.screen = false) by (vm_compute; reflexivity).
  assert (Hsafe : forall z, - (2 ^ 53 - 1) <= z <= 2 ^ 53 - 1 -> isSafeInteger z)
    by (intros z H; exact H).
  split; [exact Hexact |].
  split.
  { destruct (Hlevel allPointsToHealth Sample.hero Hexact) as (_ & _ & Hnext & _).
    rewrite Hnext. reflexivity. }
  split; [exact Hg | split; [reflexivity | split; [reflexivity |]]].
  destruct (Hturn Sample.message (js "fight") (Stream.mk Sample.xpDocument None)
              Sample.screen Sample.xpResponse Hg
              ltac:(vm_compute; reflexivity) eq_refl eq_refl eq_refl
              ltac:(apply Hsafe; vm_compute; split; discriminate)
              ltac:(apply Hsafe; vm_compute; split; discriminate)
              ltac:(apply Hsafe; vm_compute; split; discriminate)
              ltac:(apply Hsafe; vm_compute; split; discriminate))
    as (s1 & Hrun & Hflag & _ & Hlev & Hxp & Hnext & Hmax & Hhealth & _).
  exists s1. split; [exact Hrun | split; [exact Hflag | split; [exact Hxp |
    split; [exact Hnext | split; [exact Hlev |]]]]].
  rewrite Hhealth, Hmax. reflexivity.
Defined.



(** ** The three ways a turn ends *)

Lemma executeAction_cases syntaxErrorMessage action stream s s' :
  executeAction syntaxErrorMessage action stream s = Some s' ->
  (returnsEarly action s = true /\ s' = s)
  \/ (returnsEarly action s = false
      /\ exists response,
           outcomeOf syntaxErrorMessage stream (concat (Stream.fragments stream))
           = Parsed response
           /\ s' = resolved action response s)
  \/ (returnsEarly action s = false
      /\ exists err,
           outcomeOf syntaxErrorMessage stream (concat (Stream.fragments stream))
           = Caught err
           /\ s' = voided action err s).
Proof.
  intros Hrun. destruct (returnsEarly action s) eqn:Hguard.
  - left. unfold executeAction in Hrun. rewrite Hguard in Hrun.
    injection Hrun as <-. split; reflexivity.
  - right.
    destruct (outcomeOf syntaxErrorMessage stream (concat (Stream.fragments stream)))
      as [response | err |] eqn:Hout.
    + left. split; [reflexivity |]. exists response. split; [reflexivity |].
      rewrite (executeAction_parsed _ _ _ _ _ Hguard Hout) in Hrun. congruence.
    + right. split; [reflexivity |]. exists err. split; [reflexivity |].
      rewrite (executeAction_caught _ _ _ _ _ Hguard Hout) in Hrun. congruence.
    + exfalso. unfold executeAction in Hrun. rewrite Hguard in Hrun.
      destruct (consume_beginTurn action (Stream.fragments stream) s) as [t E].
      rewrite E, Hout in Hrun. discriminate Hrun.
Qed.


(** ** Steps of the screen *)

Lemma handleUseItem_cases syntaxErrorMessage item stream s :
  handleUseItem syntaxErrorMessage item stream s = Some s
  \/ handleUseItem syntaxErrorMessage item stream s
     = executeAction syntaxErrorMessage
         (js "use " ++ [34%N] ++ Item.name item ++ [34%N]) stream s.
Proof.
  unfold handleUseItem. destruct (_ || _ || _ || _ || _); [left | right]; reflexivity.
Qed.



(** ** Lore discoveries *)









(** ** The gates of a submit *)

Lemma gated_returnsEarly action s : gated s -> returnsEarly action s = true.
Proof.
  unfold gated, returnsEarly. intros [H | [H | [H | H]]].
  - rewrite H, !orb_true_r. reflexivity.
  - rewrite H, !orb_true_r. reflexivity.
  - rewrite (bool_decide_eq_true_2 _ H), !orb_true_r. reflexivity.
  - rewrite H, !orb_true_r. reflexivity.
Qed.

Lemma gated_executeAction syntaxErrorMessage action stream s :
  gated s -> executeAction syntaxErrorMessage action stream s = Some s.
Proof.
  intros H. unfold executeAction. rewrite (gated_returnsEarly action s H). reflexivity.
Qed.

Lemma gated_handleUseItem syntaxErrorMessage item stream s :
  gated s -> handleUseItem syntaxErrorMessage item stream s = Some s.
Proof.
  intros H. destruct (handleUseItem_cases syntaxErrorMessage item stream s) as [E | E];
    rewrite E; [reflexivity | apply gated_executeAction, H].
Qed.

Lemma consume_isLoading narratorEntryIndex fragments :
  forall acc s,
    Screen.isLoading (snd (fold_left (onChunk narratorEntryIndex) fragments (acc, s)))
    = Screen.isLoading s.
Proof.
  induction fragments as [| chunk fragments IH]; intros acc s; cbn [fold_left].
  - reflexivity.
  - unfold onChunk at 2. destruct (narrativePreview (acc ++ chunk)); rewrite IH; reflexivity.
Qed.

Lemma sameStory_refl g : sameStory g g.
Proof. repeat split. Qed.

Lemma sameStory_trans g1 g2 g3 : sameStory g1 g2 -> sameStory g2 g3 -> sameStory g1 g3.
Proof.
  unfold sameStory. intros (a1 & a2 & a3 & a4 & a5 & a6 & a7) (b1 & b2 & b3 & b4 & b5 & b6 & b7).
  repeat split; congruence.
Qed.

Lemma step_game_over syntaxErrorMessage e s :
  GameState.isGameOver (Screen.gameState s) = true ->
  exists s',
    step syntaxErrorMessage e s = Some s'
    /\ sameStory (Screen.gameState s) (Screen.gameState s')
    /\ match e with
       | SubmitForm _ | ClickUseItem _ _ => s' = s
       | _ => True
       end.
Proof.
  intros Hover. assert (Hg : gated s) by (right; right; right; exact Hover).
  destruct e as [value | stream | item stream | | | statIncreases]; cbn [step].
  - eexists. split; [reflexivity | split; [apply sameStory_refl | exact I]].
  - exists s. unfold handleSubmit. rewrite (gated_executeAction _ _ _ _ Hg).
    split; [reflexivity | split; [apply sameStory_refl | reflexivity]].
  - exists s. rewrite (gated_handleUseItem _ _ _ _ Hg).
    split; [reflexivity | split; [apply sameStory_refl | reflexivity]].
  - eexists. split; [reflexivity | split; [| exact I]].
    destruct (Screen.isLoading s); [apply sameStory_refl |].
    unfold handleAcceptUpdate. destruct (Screen.proposedUpdate s); repeat split.
  - eexists. split; [reflexivity | split; [| exact I]].
    destruct (_ && _); apply sameStory_refl.
  - eexists. split; [reflexivity | split; [| exact I]].
    destruct (Screen.isLevelingUp s); repeat split.
Qed.

Lemma run_game_over syntaxErrorMessage events :
  forall s,
    GameState.isGameOver (Screen.gameState s) = true ->
    exists s',
      run syntaxErrorMessage events s = Some s'
      /\ sameStory (Screen.gameState s) (Screen.gameState s').
Proof.
  induction events as [| e events IH]; intros s Hover; cbn [run].
  - exists s. split; [reflexivity | apply sameStory_refl].
  - destruct (step_game_over syntaxErrorMessage e s Hover) as (s1 & -> & Hsame & _).
    assert (Hover1 : GameState.isGameOver (Screen.gameState s1) = true).
    { destruct Hsame as (E & _). rewrite E. exact Hover. }
    destruct (IH s1 Hover1) as (s' & Hrun & Hsame').
    exists s'. split; [exact Hrun | exact (sameStory_trans _ _ _ Hsame Hsame')].
Qed.

(** C8.  A typed action and an item use are rejected, the whole screen
    state staying as it is, while a turn is outstanding, while a level-up
    is pending, while a discovery awaits its decision, and once the game
    is over.  A turn that has begun keeps the loading flag set through
    every fragment of its stream, so it is outstanding until it ends.
    Once the game is over, every sequence of steps of the screen runs to
    an end with the game still over and with the same story log,
    inventory, location, main objective and quests, and each submit and
    each item use in it leaves the screen state unchanged. *)
Theorem C8_submit_gated_and_game_over_terminal :
  (forall syntaxErrorMessage action item stream s,
     gated s ->
     executeAction syntaxErrorMessage action stream s = Some s
     /\ handleSubmit syntaxErrorMessage stream s = Some s
     /\ handleUseItem syntaxErrorMessage item stream s = Some s)
  /\ (forall action fragments narratorEntryIndex s,
        gated (beginTurn action s)
        /\ gated (snd (consume narratorEntryIndex fragments (beginTurn action s))))
  /\ (forall syntaxErrorMessage e s,
        GameState.isGameOver (Screen.gameState s) = true ->
        exists s',
          step syntaxErrorMessage e s = Some s'
          /\ sameStory (Screen.gameState s) (Screen.gameState s')
          /\ match e with
             | SubmitForm _ | ClickUseItem _ _ => s' = s
             | _ => True
             end)
  /\ (forall syntaxErrorMessage events s,
        GameState.isGameOver (Screen.gameState s) = true ->
        exists s',
          run syntaxErrorMessage events s = Some s'
          /\ GameState.isGameOver (Screen.gameState s') = true
          /\ sameStory (Screen.gameState s) (Screen.gameState s')).
Proof.
  split; [| split; [| split]].
  - intros msg action item stream s Hg. split; [| split].
    + apply gated_executeAction, Hg.
    + apply gated_executeAction, Hg.
    + apply gated_handleUseItem, Hg.
  - intros action fragments idx s. split; left; [reflexivity |].
    unfold consume. rewrite consume_isLoading. reflexivity.
  - exact step_game_over.
  - intros msg events s Hover.
    destruct (run_game_over msg events s Hover) as (s' & Hrun & Hsame).
    exists s'. split; [exact Hrun | split; [| exact Hsame]].
    destruct Hsame as (E & _). rewrite E. exact Hover.
Qed.

Lemma C8_witness :
  GameState.isGameOver (Screen.gameState SampleEnding.ended) = true
  /\ executeAction Sample.message (js "swim") (Stream.mk Sample.xpDocument None)
       SampleEnding.ended = Some SampleEnding.ended
  /\ handleUseItem Sample.message Sample.potion (Stream.mk Sample.xpDocument None)
       SampleEnding.ended = Some SampleEnding.ended
  /\ exists s',
       run Sample.message SampleEnding.attempts SampleEnding.ended = Some s'
       /\ GameState.isGameOver (Screen.gameState s') = true
       /\ GameState.storyLog (Screen.gameState s')
          = GameState.storyLog (Screen.gameState SampleEnding.ended).
Proof.
  destruct C8_submit_gated_and_game_over_terminal as (Hgate & _ & _ & Hrun).
  assert (Hover : GameState.isGameOver (Screen.gameState SampleEnding.ended) = true)
    by reflexivity.
  assert (Hg : gated SampleEnding.ended) by (right; right; right; exact Hover).
  destruct (Hgate Sample.message (js "swim") Sample.potion
              (Stream.mk Sample.xpDocument None) SampleEnding.ended Hg) as (H1 & _ & H3).
  split; [exact Hover | split; [exact H1 | split; [exact H3 |]]].
  destruct (Hrun Sample.message SampleEnding.attempts SampleEnding.ended Hover)
    as (s' & Hr & Ho & Hsame).
  exists s'. split; [exact Hr | split; [exact Ho |]].
  destruct Hsame as (_ & _ & Hlog & _). exact Hlog.
Defined.

(** ** Faction sigils *)

Lemma carveSigil_other sigilService worldConcept faction (fs : list Faction.t) :
  Forall (fun f => Faction.name f <> Faction.name faction) fs ->
  LoreGenerator.carveSigil sigilService worldConcept fs faction = fs.
Proof.
  intros H. unfold LoreGenerator.carveSigil. apply map_fixed.
  eapply Forall_impl; [exact H |]. intros f Hf. cbn [Faction.name Faction.withSigil].
  rewrite bool_decide_eq_false_2 by exact Hf. reflexivity.
Qed.

Lemma fold_carveSigil sigilService worldConcept todo :
  forall done,
    NoDup (List.map Faction.name (done ++ todo)) ->
    fold_left (LoreGenerator.carveSigil sigilService worldConcept) todo
      (List.map (carved sigilService worldConcept) done ++ todo)
    = List.map (carved sigilService worldConcept) (done ++ todo).
Proof.
  induction todo as [| f todo IH]; intros done Hnodup; cbn [fold_left].
  - rewrite !app_nil_r. reflexivity.
  - replace (done ++ f :: todo) with ((done ++ [f]) ++ todo) in *
      by (rewrite <- app_assoc; reflexivity).
    rewrite <- (IH (done ++ [f]) Hnodup). f_equal.
    rewrite List.map_app. cbn [List.map]. rewrite <- app_assoc. cbn [app].
    rewrite List.map_app, List.map_app in Hnodup. cbn [List.map] in Hnodup.
    rewrite <- app_assoc in Hnodup. cbn [app] in Hnodup.
    apply NoDup_app in Hnodup. destruct Hnodup as (_ & Hdisj & Htail).
    apply NoDup_cons in Htail. destruct Htail as [Hnotin _].
    unfold LoreGenerator.carveSigil at 1. rewrite List.map_app. cbn [List.map].
    rewrite bool_decide_eq_true_2 by reflexivity.
    f_equal; [| f_equal].
    + apply map_fixed. apply Forall_forall. intros g Hg.
      apply list_elem_of_In, List.in_map_iff in Hg. destruct Hg as (g0 & <- & Hg0).
      cbn [Faction.name Faction.withSigil carved].
      rewrite bool_decide_eq_false_2; [reflexivity |].
      intros E. apply (Hdisj (Faction.name g0)).
      * apply list_elem_of_In, List.in_map. exact Hg0.
      * rewrite E. left.
    + apply map_fixed. apply Forall_forall. intros g Hg.
      cbn [Faction.name Faction.withSigil].
      rewrite bool_decide_eq_false_2; [reflexivity |].
      intros E. apply Hnotin. rewrite <- E.
      apply list_elem_of_In, List.in_map, list_elem_of_In. exact Hg.
Qed.

(** With factions of distinct names, the loop gives every faction its
    own sigil, the empty one where its generation failed. *)
Lemma carveSigils_distinct sigilService worldConcept baseFactions :
  NoDup (List.map Faction.name baseFactions) ->
  LoreGenerator.carveSigils sigilService worldConcept baseFactions
  = List.map (carved sigilService worldConcept) baseFactions.
Proof.
  intros H. exact (fold_carveSigil sigilService worldConcept baseFactions [] H).
Qed.

(** After the factions are accepted with distinct names, the review
    shows every faction with its own sigil, and its button is disabled
    exactly when the generation of some sigil failed. *)
Lemma factions_review_gate sigilService (data : list Faction.t) s :
  NoDup (List.map Faction.name data) ->
  let s' := LoreGenerator.handleAcceptFoundation sigilService (Some data) s in
  LoreGenerator.step s' = LoreGenerator.FactionsReview
  /\ LoreGenerator.isLoading s' = false
  /\ LoreGenerator.error s' = None
  /\ LoreGenerator.factions s'
     = Some (List.map
               (fun f => carved sigilService (LoreGenerator.coreConcept s)
                           (Faction.withSigil f []))
               data)
  /\ (LoreGenerator.acceptFactionsDisabled s' = true
      <-> exists f,
            In f data
            /\ sigilService (Faction.name f) (Faction.description f)
                 (LoreGenerator.coreConcept s) = None).
Proof.
  intros Hnodup s'. unfold s', LoreGenerator.handleAcceptFoundation.
  cbn [LoreGenerator.generateLoreFactions LoreGenerator.step LoreGenerator.isLoading
       LoreGenerator.error LoreGenerator.factions].
  assert (Hnames : List.map Faction.name (List.map (fun f => Faction.withSigil f []) data)
                   = List.map Faction.name data).
  { rewrite List.map_map. apply List.map_ext. intros f. reflexivity. }
  rewrite carveSigils_distinct by (rewrite Hnames; exact Hnodup).
  rewrite List.map_map.
  split; [reflexivity | split; [reflexivity | split; [reflexivity | split; [reflexivity |]]]].
  unfold LoreGenerator.acceptFactionsDisabled.
  cbn [LoreGenerator.isLoading LoreGenerator.factions orb].
  rewrite List.existsb_exists. split.
  - intros (g & Hin & Hg). apply List.in_map_iff in Hin. destruct Hin as (f & <- & Hf).
    exists f. split; [exact Hf |].
    unfold carved, LoreGenerator.generateSigilImage in Hg.
    cbn [Faction.sigilImageUrl Faction.withSigil Faction.name Faction.description] in Hg.
    destruct (sigilService _ _ _); [discriminate Hg | reflexivity].
  - intros (f & Hf & Hnone).
    exists (carved sigilService (LoreGenerator.coreConcept s) (Faction.withSigil f [])).
    split; [apply List.in_map_iff; exists f; split; [reflexivity | exact Hf] |].
    unfold carved, LoreGenerator.generateSigilImage.
    cbn [Faction.sigilImageUrl Faction.withSigil Faction.name Faction.description].
    rewrite Hnone. reflexivity.
Qed.

(** C9 at its failing input.  The sigil of the second of three factions
    fails.  The failure stays with that faction: it gets the empty sigil,
    the two others get theirs, the loop runs to its end and the stage
    becomes the factions review without an error.  But the button that
    leaves the factions review is disabled, and stays so, since no other
    control fills the missing sigil; with a service that never fails the
    button is enabled. *)
Theorem C9_failed_sigil_blocks_factions_review :
  let s' :=
    LoreGenerator.handleAcceptFoundation SampleFactions.service
      (Some SampleFactions.data) SampleFactions.reviewing in
  LoreGenerator.step s' = LoreGenerator.FactionsReview
  /\ LoreGenerator.isLoading s' = false
  /\ LoreGenerator.error s' = None
  /\ (List.map Faction.sigilImageUrl <$> LoreGenerator.factions s')
     = Some [js "data:image/png;base64,iVBORw0KGgo="; [];
             js "data:image/png;base64,iVBORw0KGgo="]
  /\ LoreGenerator.acceptFactionsDisabled s' = true
  /\ LoreGenerator.acceptFactionsDisabled
       (LoreGenerator.handleAcceptFoundation SampleFactions.reliable
          (Some SampleFactions.data) SampleFactions.reviewing) = false.
Proof.
  assert (Hnodup : NoDup (List.map Faction.name SampleFactions.data)).
  { apply NoDup_ListNoDup. vm_compute.
    repeat (constructor; [intros H; cbn in H; intuition discriminate |]). constructor. }
  destruct (factions_review_gate SampleFactions.service SampleFactions.data
              SampleFactions.reviewing Hnodup) as (Hstep & Hload & Herr & _ & Hgate).
  intros s'. split; [exact Hstep | split; [exact Hload | split; [exact Herr |]]].
  split; [vm_compute; reflexivity |]. split; [| vm_compute; reflexivity].
  apply Hgate. exists (SampleFactions.faction "Lamplighters").
  split; [right; left; reflexivity | reflexivity].
Qed.

(** ** A gateway that rejects the call *)

(** When [getNextStepStream] rejects, the turn is void in the same way:
    the narrator's entry holds the message of the gateway. *)
Example frozen_stream_voids_turn :
  GameState.storyLog
    <$> (Screen.gameState
           <$> executeAction Sample.message (js "look") Stream.frozen Sample.screen)
  = Some [StoryEntry.narrator (js "A grey harbor at dawn.");
          StoryEntry.player (js "look");
          StoryEntry.narrator
            (js "The world seems to be frozen in time. Please try your action again.")].
Proof. vm_compute. reflexivity. Qed.

(** ** A streamed quest, end to end *)

(** A turn result with a new quest whose objective has a sub-objective,
    and a quest update for that sub-objective in the same turn result: the
    quest is appended, then updated, and becomes 'completed'. *)
Example streamed_quest_is_appended_then_updated :
  GameState.quests
    <$> (Screen.gameState
           <$> executeAction Sample.message (js "ask")
                 (Stream.mk
                    [jsq "{'narrative':'She nods.','newLocation':'Pier','updatedInventory':[],";
                     jsq "'newObjective':'Rest','isGameOver':false,'gameOverMessage':'',";
                     jsq "'newQuest':{'title':'The Lamp','description':'Relight it',";
                     jsq "'status':'active','objectives':[{'text':'Climb','isCompleted':false,";
                     jsq "'subObjectives':[{'text':'Find the key','isCompleted':false}]}]},";
                     jsq "'questUpdate':{'questTitle':'The Lamp','objectiveText':'Find the key'}}"]
                    None)
                 Sample.screen)
  = Some [Quest.mk (js "The Lamp") (js "Relight it") Completed
            [Sample.node "Climb" true [Sample.leaf "Find the key" true]]].
Proof. vm_compute. reflexivity. Qed.

(** * Further properties of the code *)

(** ** The preview is stable under the rest of the stream *)

Lemma stripPrefix_spec p : forall s r, Json.stripPrefix p s = Some r <-> s = p ++ r.
Proof.
  induction p as [| a p IH]; intros s r; cbn [Json.stripPrefix app].
  - split; [intros H; injection H as <-; reflexivity | intros ->; reflexivity].
  - destruct s as [| b s]; [split; discriminate |].
    destruct (N.eqb_spec a b) as [-> | Hne].
    + rewrite IH. split; [intros ->; reflexivity | intros H; injection H as ->; reflexivity].
    + split; [discriminate | intros H; injection H as E _; congruence].
Qed.

Lemma stripPrefix_app p s r x :
  Json.stripPrefix p s = Some r -> Json.stripPrefix p (s ++ x) = Some (r ++ x).
Proof.
  intros H. apply stripPrefix_spec in H. subst s.
  apply stripPrefix_spec. rewrite <- app_assoc. reflexivity.
Qed.

Lemma skipSpaces_app r c r1 x :
  skipSpaces r = c :: r1 -> skipSpaces (r ++ x) = c :: r1 ++ x.
Proof.
  induction r as [| a r IH]; cbn [skipSpaces app]; [discriminate |].
  destruct (isSpace a); [exact IH |]. intros H. injection H as <- <-. reflexivity.
Qed.

Lemma narrativeBody_app r :
  forall body x, narrativeBody r = Some body -> narrativeBody (r ++ x) = Some body.
Proof.
  induction r as [r IH] using (induction_ltof1 _ (@length N)). unfold ltof in IH.
  intros body x H. destruct r as [| c r]; [discriminate H |].
  cbn [narrativeBody app] in *.
  destruct (c =? 34)%N; [exact H |].
  destruct (c =? 92)%N.
  - destruct r as [| e r1]; [discriminate H |]. cbn [app].
    destruct (isLineTerminator e); [discriminate H |].
    destruct (narrativeBody r1) as [b |] eqn:E; [| discriminate H].
    rewrite (IH r1 ltac:(cbn [length]; lia) b x E). exact H.
  - destruct (narrativeBody r) as [b |] eqn:E; [| discriminate H].
    rewrite (IH r ltac:(cbn [length]; lia) b x E). exact H.
Qed.

(** A match that is there stays there when the buffer grows. *)
Lemma narrativeMatchHere_app s capture x :
  narrativeMatchHere s = Some capture -> narrativeMatchHere (s ++ x) = Some capture.
Proof.
  unfold narrativeMatchHere. intros H.
  destruct (Json.stripPrefix _ s) as [r |] eqn:E0; [| discriminate H].
  rewrite (stripPrefix_app _ _ _ x E0).
  destruct (skipSpaces r) as [| colon r1] eqn:E1; [discriminate H |].
  rewrite (skipSpaces_app _ _ _ x E1).
  destruct (colon =? 58)%N; [| discriminate H].
  destruct (skipSpaces r1) as [| q r2] eqn:E2; [discriminate H |].
  rewrite (skipSpaces_app _ _ _ x E2).
  destruct (q =? 34)%N; [| discriminate H].
  apply narrativeBody_app. exact H.
Qed.

(** The key of the expression, quotes included. *)
Lemma narrativeKey :
  jsq "'narrative'" = 34%N :: js "narrative" ++ [34%N].
Proof. vm_compute. reflexivity. Qed.

(** Where the key stands, the body that starts after its first quote is
    the word narrative, closed by the second quote of the key. *)
Lemma key_closes_body c r rest :
  Json.stripPrefix (jsq "'narrative'") (c :: r) = Some rest ->
  c = 34%N /\ narrativeBody r = Some (js "narrative").
Proof.
  intros H. apply stripPrefix_spec in H. rewrite narrativeKey in H.
  injection H as -> ->. split; [reflexivity |].
  vm_compute (js "narrative"). cbn. reflexivity.
Qed.

Lemma key_needs_length t rest :
  Json.stripPrefix (jsq "'narrative'") t = Some rest -> (11 <= length t)%nat.
Proof.
  intros H. apply stripPrefix_length in H. vm_compute (length (jsq _)) in H. lia.
Qed.

(** A body that is unfinished in [r] and finished in [r ++ x] has no key
    at any of its positions. *)
Lemma unfinished_body r :
  forall x,
    narrativeBody r = None -> narrativeBody (r ++ x) <> None ->
    forall u t, r = u ++ t -> Json.stripPrefix (jsq "'narrative'") t = None.
Proof.
  induction r as [r IH] using (induction_ltof1 _ (@length N)). unfold ltof in IH.
  intros x Hnone Hsome u t ->.
  destruct (Json.stripPrefix _ t) as [rest |] eqn:Hkey; [exfalso | reflexivity].
  destruct t as [| c0 t0]; [apply key_needs_length in Hkey; cbn in Hkey; lia |].
  destruct (key_closes_body _ _ _ Hkey) as [-> Hclosed].
  destruct u as [| c u].
  - cbn [app narrativeBody] in Hnone. change (34 =? 34)%N with true in Hnone. discriminate Hnone.
  - cbn [app narrativeBody] in Hnone, Hsome.
    destruct (c =? 34)%N; [discriminate Hnone |].
    destruct (c =? 92)%N eqn:Hc.
    + destruct u as [| e u].
      * cbn [app] in Hnone, Hsome.
        change (isLineTerminator 34) with false in Hnone. cbn iota in Hnone.
        rewrite Hclosed in Hnone. discriminate Hnone.
      * cbn [app] in Hnone, Hsome.
        destruct (isLineTerminator e); [contradiction |].
        assert (Hn : Json.stripPrefix (jsq "'narrative'") (34%N :: t0) = None);
          [| rewrite Hkey in Hn; discriminate Hn].
        apply (IH (u ++ 34%N :: t0) ltac:(cbn [length app]; lia) x) with (u := u).
        -- destruct (narrativeBody (u ++ 34%N :: t0)); [discriminate Hnone | reflexivity].
        -- destruct (narrativeBody ((u ++ 34%N :: t0) ++ x)); [discriminate | contradiction].
        -- reflexivity.
    + assert (Hn : Json.stripPrefix (jsq "'narrative'") (34%N :: t0) = None);
        [| rewrite Hkey in Hn; discriminate Hn].
      apply (IH (u ++ 34%N :: t0) ltac:(cbn [length app]; lia) x) with (u := u).
      * destruct (narrativeBody (u ++ 34%N :: t0)); [discriminate Hnone | reflexivity].
      * destruct (narrativeBody ((u ++ 34%N :: t0) ++ x)); [discriminate | contradiction].
      * reflexivity.
Qed.

Lemma narrativeMatchHere_stages s :
  narrativeMatchHere s
  = match Json.stripPrefix (jsq "'narrative'") s with
    | Some r => afterKey r
    | None => None
    end.
Proof. reflexivity. Qed.

Lemma no_key_at_other c t :
  c <> 34%N -> Json.stripPrefix (jsq "'narrative'") (c :: t) = None.
Proof.
  intros Hc. destruct (Json.stripPrefix _ (c :: t)) as [rest |] eqn:E; [| reflexivity].
  apply key_closes_body in E. destruct E as [-> _]. contradiction.
Qed.

Lemma isSpace_not_quote a : isSpace a = true -> a <> 34%N.
Proof. intros H ->. vm_compute in H. discriminate H. Qed.

Lemma unfinished_afterColon r1 :
  forall x,
    afterColon r1 = None -> afterColon (r1 ++ x) <> None ->
    forall u t, r1 = u ++ t -> Json.stripPrefix (jsq "'narrative'") t = None.
Proof.
  induction r1 as [| a r1 IH]; intros x Hnone Hsome u t E.
  - destruct u, t; try discriminate E. reflexivity.
  - unfold afterColon in Hnone, Hsome. cbn [skipSpaces app] in Hnone, Hsome.
    destruct (isSpace a) eqn:Ha.
    + destruct u as [| a' u]; cbn [app] in E.
      * subst t. apply no_key_at_other, isSpace_not_quote, Ha.
      * injection E as <- E. exact (IH x Hnone Hsome u t E).
    + destruct (N.eqb_spec a 34) as [-> | Hq]; [| contradiction].
      destruct u as [| a' u]; cbn [app] in E.
      * subst t. destruct (Json.stripPrefix _ (34%N :: r1)) as [rest |] eqn:Hkey; [| reflexivity].
        apply key_closes_body in Hkey. destruct Hkey as [_ Hclosed].
        rewrite Hclosed in Hnone. discriminate Hnone.
      * injection E as <- E. exact (unfinished_body r1 x Hnone Hsome u t E).
Qed.

Lemma unfinished_afterKey r :
  forall x,
    afterKey r = None -> afterKey (r ++ x) <> None ->
    forall u t, r = u ++ t -> Json.stripPrefix (jsq "'narrative'") t = None.
Proof.
  induction r as [| a r IH]; intros x Hnone Hsome u t E.
  - destruct u, t; try discriminate E. reflexivity.
  - unfold afterKey in Hnone, Hsome. cbn [skipSpaces app] in Hnone, Hsome.
    destruct (isSpace a) eqn:Ha.
    + destruct u as [| a' u]; cbn [app] in E.
      * subst t. apply no_key_at_other, isSpace_not_quote, Ha.
      * injection E as <- E. exact (IH x Hnone Hsome u t E).
    + destruct (N.eqb_spec a 58) as [-> | Hq]; [| contradiction].
      destruct u as [| a' u]; cbn [app] in E.
      * subst t. apply no_key_at_other. discriminate.
      * injection E as <- E. exact (unfinished_afterColon r x Hnone Hsome u t E).
Qed.

Lemma stripPrefix_short p s x rest :
  Json.stripPrefix p s = None -> Json.stripPrefix p (s ++ x) = Some rest ->
  (length s < length p)%nat.
Proof.
  revert s. induction p as [| a p IH]; intros s Hnone Hsome; [discriminate Hnone |].
  destruct s as [| b s]; [cbn [length]; lia |].
  cbn [Json.stripPrefix app] in Hnone, Hsome.
  destruct (a =? b)%N; [| discriminate Hsome].
  specialize (IH s Hnone Hsome). cbn [length]. lia.
Qed.

(** Where the expression matches only once the buffer has grown, no
    later position of the buffer carries the key. *)
Lemma unfinished_match s x :
  narrativeMatchHere s = None -> narrativeMatchHere (s ++ x) <> None ->
  forall u t, s = u ++ t -> u <> [] -> Json.stripPrefix (jsq "'narrative'") t = None.
Proof.
  rewrite !narrativeMatchHere_stages. intros Hnone Hsome u t E Hu.
  destruct (Json.stripPrefix _ s) as [r |] eqn:Hs.
  - rewrite (stripPrefix_app _ _ _ x Hs) in Hsome.
    apply stripPrefix_spec in Hs. rewrite narrativeKey in Hs.
    vm_compute (js "narrative") in Hs. cbn [app] in Hs. subst s.
    do 10 (destruct u as [| ? u];
           [first [contradiction
                  | cbn [app] in E; subst t; apply no_key_at_other; discriminate]
           | cbn [app] in E; injection E as <- E]).
    destruct u as [| ? u]; cbn [app] in E.
    + subst t. destruct (Json.stripPrefix _ (34%N :: r)) as [rest |] eqn:Hkey; [| reflexivity].
      exfalso. apply stripPrefix_spec in Hkey. rewrite narrativeKey in Hkey.
      injection Hkey as ->. vm_compute (js "narrative") in Hsome.
      unfold afterKey in Hsome. cbn in Hsome. contradiction.
    + injection E as <- E. exact (unfinished_afterKey r x Hnone Hsome u t E).
  - destruct (Json.stripPrefix _ (s ++ x)) as [rest |] eqn:Hx; [| contradiction].
    pose proof (stripPrefix_short _ _ _ _ Hs Hx) as Hlen.
    vm_compute (length (jsq _)) in Hlen.
    destruct (Json.stripPrefix _ t) as [rest' |] eqn:Hkey; [| reflexivity].
    apply key_needs_length in Hkey. subst s. rewrite length_app in Hlen. lia.
Qed.

Lemma no_key_no_match r :
  (forall u t, r = u ++ t -> Json.stripPrefix (jsq "'narrative'") t = None) ->
  narrativeMatch r = None.
Proof.
  induction r as [| a r IH]; intros H.
  - cbn [narrativeMatch]. rewrite narrativeMatchHere_stages, (H [] [] eq_refl). reflexivity.
  - cbn [narrativeMatch]. rewrite narrativeMatchHere_stages, (H [] (a :: r) eq_refl).
    apply IH. intros u t E. apply (H (a :: u) t). rewrite E. reflexivity.
Qed.

(** The capture of the leftmost match does not change when the buffer
    grows. *)
Lemma narrativeMatch_app s :
  forall capture x,
    narrativeMatch s = Some capture -> narrativeMatch (s ++ x) = Some capture.
Proof.
  induction s as [| a s IH]; intros capture x H.
  - vm_compute in H. discriminate H.
  - cbn [narrativeMatch app] in *.
    destruct (narrativeMatchHere (a :: s)) as [here |] eqn:Hhere.
    + change (a :: s ++ x) with ((a :: s) ++ x).
      rewrite (narrativeMatchHere_app _ _ x Hhere). exact H.
    + destruct (narrativeMatchHere (a :: s ++ x)) as [late |] eqn:Hlate.
      * exfalso.
        assert (Hnone : narrativeMatch s = None).
        { apply no_key_no_match. intros u t E.
          apply (unfinished_match (a :: s) x Hhere) with (u := a :: u).
          - change ((a :: s) ++ x) with (a :: s ++ x). rewrite Hlate. discriminate.
          - rewrite E. reflexivity.
          - discriminate. }
        rewrite Hnone in H. discriminate H.
      * exact (IH capture x H).
Qed.

Lemma narrativePreview_app buffer capture x :
  narrativeMatch buffer = Some capture ->
  narrativePreview (buffer ++ x) = narrativePreview buffer.
Proof.
  intros H. unfold narrativePreview. rewrite (narrativeMatch_app _ _ x H), H. reflexivity.
Qed.

Lemma onChunk_showPreview idx acc s chunk :
  onChunk idx (acc, s) chunk
  = (acc ++ chunk, showPreview idx (narrativePreview (acc ++ chunk)) s).
Proof. unfold onChunk, showPreview. destruct (narrativePreview _); reflexivity. Qed.

Lemma setIfPresent_twice (log : list StoryEntry.t) idx f :
  (forall e, f (f e) = f e) ->
  setIfPresent (setIfPresent log idx f) idx f = setIfPresent log idx f.
Proof.
  intros Hf. unfold setIfPresent. destruct (log !! idx) as [e |] eqn:E.
  - rewrite list_lookup_insert_eq by (apply lookup_lt_is_Some; eexists; exact E).
    rewrite list_insert_insert_eq, Hf. reflexivity.
  - rewrite E. reflexivity.
Qed.

Lemma showPreview_twice idx preview s :
  showPreview idx preview (showPreview idx preview s) = showPreview idx preview s.
Proof.
  destruct preview as [t |]; [| reflexivity]. unfold showPreview.
  cbn [Screen.gameState Screen.withGameState GameState.storyLog GameState.withStoryLog].
  rewrite setIfPresent_twice by (intros e; reflexivity). reflexivity.
Qed.

Lemma fold_onChunk_buffer idx fragments :
  forall acc s, fst (fold_left (onChunk idx) fragments (acc, s)) = acc ++ concat fragments.
Proof.
  induction fragments as [| chunk fragments IH]; intros acc s; cbn [fold_left concat].
  - rewrite app_nil_r. reflexivity.
  - rewrite onChunk_showPreview, IH, <- app_assoc. reflexivity.
Qed.

Lemma fold_onChunk_settled idx fragments :
  forall acc s capture,
    narrativeMatch acc = Some capture ->
    showPreview idx (narrativePreview acc) s = s ->
    snd (fold_left (onChunk idx) fragments (acc, s)) = s.
Proof.
  induction fragments as [| chunk fragments IH]; intros acc s capture Hm Hs; cbn [fold_left].
  - reflexivity.
  - rewrite onChunk_showPreview, (narrativePreview_app _ _ chunk Hm), Hs.
    apply (IH _ _ capture); [apply narrativeMatch_app; exact Hm |].
    rewrite (narrativePreview_app _ _ chunk Hm). exact Hs.
Qed.

Lemma fold_onChunk_last idx fragments :
  forall acc s,
    fragments <> [] ->
    let st := fold_left (onChunk idx) fragments (acc, s) in
    showPreview idx (narrativePreview (fst st)) (snd st) = snd st.
Proof.
  induction fragments as [| chunk fragments IH]; intros acc s Hne; [contradiction |].
  cbn [fold_left]. rewrite onChunk_showPreview.
  destruct fragments as [| chunk' fragments].
  - cbn [fold_left fst snd]. apply showPreview_twice.
  - apply IH. discriminate.
Qed.

(** X1.  Once the buffer holds a match of the expression, which is once
    the quote that closes the narrative has arrived, the fragments that
    follow change neither the capture nor the screen: during one stream
    the preview is set once and stays.  The capture is that of the
    leftmost match in the buffer; nothing is said here on how it relates
    to the narrative of the parsed document. *)
Theorem X1_preview_settles
    (narratorEntryIndex : nat) (before after : list jsstring) (s : Screen.t)
    (capture : jsstring) :
  narrativeMatch (concat before) = Some capture ->
  narrativeMatch (concat (before ++ after)) = Some capture
  /\ narrativePreview (concat (before ++ after)) = narrativePreview (concat before)
  /\ snd (consume narratorEntryIndex (before ++ after) s)
     = snd (consume narratorEntryIndex before s).
Proof.
  intros Hm. rewrite concat_app.
  split; [apply narrativeMatch_app; exact Hm |].
  split; [apply (narrativePreview_app _ capture); exact Hm |].
  unfold consume. rewrite fold_left_app.
  assert (Hne : before <> []) by (intros ->; vm_compute in Hm; discriminate Hm).
  pose proof (fold_onChunk_last narratorEntryIndex before [] s Hne) as Hlast.
  pose proof (fold_onChunk_buffer narratorEntryIndex before [] s) as Hbuf.
  destruct (fold_left (onChunk narratorEntryIndex) before ([], s)) as [buffer s1].
  cbn [fst snd app] in *. subst buffer.
  apply (fold_onChunk_settled _ _ _ _ capture Hm Hlast).
Qed.

Lemma X1_witness :
  narrativeMatch (concat Sample.helloFragments) = Some (js "Hello world")
  /\ snd (consume 2 (Sample.helloFragments ++ [jsq ",'junk':'"; jsq "tail'}"])
            (beginTurn (js "look") Sample.screen))
     = snd (consume 2 Sample.helloFragments (beginTurn (js "look") Sample.screen)).
Proof.
  assert (Hm : narrativeMatch (concat Sample.helloFragments) = Some (js "Hello world"))
    by (vm_compute; reflexivity).
  split; [exact Hm |].
  exact (proj2 (proj2 (X1_preview_settles 2 Sample.helloFragments
                         [jsq ",'junk':'"; jsq "tail'}"]
                         (beginTurn (js "look") Sample.screen) _ Hm))).
Defined.

(** ** The guard of a submit *)

Lemma trimStart_nil s : trimStart s = [] <-> forallb isSpace s = true.
Proof.
  induction s as [| c s IH]; cbn [trimStart forallb]; [tauto |].
  destruct (isSpace c); cbn [andb]; [exact IH | split; discriminate].
Qed.

Lemma trimStart_head s c r : trimStart s = c :: r -> isSpace c = false.
Proof.
  induction s as [| a s IH]; cbn [trimStart]; [discriminate |].
  destruct (isSpace a) eqn:Ha; [exact IH |]. intros H. injection H as <- _. exact Ha.
Qed.

(** The trimmed text is empty exactly when every code unit of the text
    is white space. *)
Lemma trim_blank s : truthy (trim s) = false <-> forallb isSpace s = true.
Proof.
  unfold trim, trimEnd.
  assert (Hnil : forall l : jsstring, truthy l = false <-> l = [])
    by (intros [| ? ?]; cbn; split; congruence).
  rewrite Hnil. split.
  - intros H. apply (f_equal (@rev N)) in H. rewrite rev_involutive in H. cbn [rev] in H.
    apply trimStart_nil in H. rewrite forallb_forall in H.
    destruct (trimStart s) as [| c r] eqn:E; [apply trimStart_nil; exact E |].
    pose proof (trimStart_head _ _ _ E) as Hc.
    rewrite (H c) in Hc; [discriminate Hc |].
    apply in_rev. rewrite rev_involutive. left. reflexivity.
  - intros H. apply trimStart_nil in H. rewrite H. reflexivity.
Qed.

Lemma returnsEarly_idle action s :
  returnsEarly action s = false <-> truthy (trim action) = true /\ idle s.
Proof.
  split.
  - intros H. apply returnsEarly_false in H. unfold idle. tauto.
  - intros (Ht & Hl & Ho & Hp & Hv). unfold returnsEarly.
    rewrite Ht, Hl, Ho, Hp, Hv. reflexivity.
Qed.

Lemma executeAction_clears_input syntaxErrorMessage action stream s s' :
  returnsEarly action s = false ->
  executeAction syntaxErrorMessage action stream s = Some s' ->
  Screen.playerInput s' = [].
Proof.
  intros Hguard Hrun.
  destruct (executeAction_cases _ _ _ _ _ Hrun)
    as [[Hearly _] | [[_ (response & _ & ->)] | [_ (err & _ & ->)]]].
  - rewrite Hguard in Hearly. discriminate Hearly.
  - unfold resolved. destruct (reconcileCharacter _ _). reflexivity.
  - reflexivity.
Qed.

Lemma forallb_false_witness {A} (f : A -> bool) (l : list A) :
  forallb f l = false -> exists x, In x l /\ f x = false.
Proof.
  induction l as [| a l IH]; cbn [forallb]; [discriminate |].
  destruct (f a) eqn:E; cbn [andb].
  - intros H. destruct (IH H) as (x & Hin & Hx). exists x. split; [right; exact Hin | exact Hx].
  - intros _. exists a. split; [left; reflexivity | exact E].
Qed.

(** The trimmed text is not empty exactly when the text has a code unit
    that is not white space. *)
Lemma trim_text (action : jsstring) :
  truthy (trim action) = true <-> exists c, In c action /\ isSpace c = false.
Proof.
  split.
  - intros Ht. destruct (forallb isSpace action) eqn:E.
    + apply trim_blank in E. congruence.
    + apply forallb_false_witness in E. exact E.
  - intros (c & Hin & Hc). destruct (truthy (trim action)) eqn:E; [reflexivity |].
    apply trim_blank in E. rewrite forallb_forall in E. rewrite (E c Hin) in Hc.
    discriminate Hc.
Qed.

Lemma returnsEarly_text action s :
  returnsEarly action s = false
  <-> idle s /\ exists c, In c action /\ isSpace c = false.
Proof. rewrite returnsEarly_idle, trim_text. tauto. Qed.

(** X2.  An action is taken up exactly when the screen is idle and the
    text has a code unit that is not white space; a text of white space
    only leaves the screen as it is.  A turn that was taken up empties the
    input field, so submitting the form again without typing does
    nothing. *)
Theorem X2_submit_needs_idle_screen_and_text :
  (forall action s,
     returnsEarly action s = false
     <-> idle s /\ exists c, In c action /\ isSpace c = false)
  /\ (forall syntaxErrorMessage action stream s,
        forallb isSpace action = true ->
        executeAction syntaxErrorMessage action stream s = Some s)
  /\ (forall syntaxErrorMessage action stream again s s',
        returnsEarly action s = false ->
        executeAction syntaxErrorMessage action stream s = Some s' ->
        handleSubmit syntaxErrorMessage again s' = Some s').
Proof.
  split; [| split].
  - exact returnsEarly_text.
  - intros msg action stream s Hblank. apply trim_blank in Hblank.
    unfold executeAction, returnsEarly. rewrite Hblank. reflexivity.
  - intros msg action stream again s s' Hguard Hrun.
    unfold handleSubmit, executeAction, returnsEarly.
    rewrite (executeAction_clears_input _ _ _ _ _ Hguard Hrun). reflexivity.
Qed.

Lemma X2_witness :
  executeAction Sample.message (js "   ") (Stream.mk Sample.xpDocument None) Sample.screen
  = Some Sample.screen
  /\ handleSubmit Sample.message (Stream.mk Sample.xpDocument None)
       (voided (js "fight") (ErrorObject (js "Unexpected end of JSON input")) Sample.screen)
     = Some (voided (js "fight") (ErrorObject (js "Unexpected end of JSON input"))
               Sample.screen).
Proof.
  destruct X2_submit_needs_idle_screen_and_text as (_ & Hblank & Hagain).
  split.
  - apply Hblank. vm_compute. reflexivity.
  - apply (Hagain Sample.message (js "fight") (Stream.mk Sample.truncated None)
             (Stream.mk Sample.xpDocument None) Sample.screen);
      vm_compute; reflexivity.
Defined.

(** X3.  An item that is not usable never starts a turn.  A usable item
    is submitted as the action use, a space, and the name of the item
    between quotes; this text is never blank, so on an idle screen the
    turn is always taken up, whatever the name of the item. *)
Theorem X3_item_use_is_a_submit :
  (forall syntaxErrorMessage item stream s,
     Item.usable item = false ->
     handleUseItem syntaxErrorMessage item stream s = Some s)
  /\ (forall syntaxErrorMessage item stream s,
        Item.usable item = true ->
        handleUseItem syntaxErrorMessage item stream s
        = executeAction syntaxErrorMessage (useAction item) stream s)
  /\ (forall item s, returnsEarly (useAction item) s = false <-> idle s).
Proof.
  split; [| split].
  - intros msg item stream s Hu. unfold handleUseItem. rewrite Hu. reflexivity.
  - intros msg item stream s Hu. unfold handleUseItem, useAction. rewrite Hu. cbn [negb orb].
    destruct (_ || _ || _ || _) eqn:E; [| reflexivity].
    symmetry. apply gated_executeAction. unfold gated.
    rewrite !orb_true_iff, bool_decide_eq_true in E. tauto.
  - intros item s.
    rewrite returnsEarly_text.
    split; [tauto |]. intros Hidle. split; [exact Hidle |].
    exists 117%N. split; [left; reflexivity | reflexivity].
Qed.

Lemma X3_witness :
  handleUseItem Sample.message
    (Item.mk (js "Key") (js "A rusty key") Common QuestItem false [])
    (Stream.mk Sample.xpDocument None) Sample.screen = Some Sample.screen
  /\ handleUseItem Sample.message Sample.potion (Stream.mk Sample.truncated None)
       Sample.screen
     = executeAction Sample.message (jsq "use 'Potion'") (Stream.mk Sample.truncated None)
         Sample.screen.
Proof.
  destruct X3_item_use_is_a_submit as (Hno & Hyes & _).
  split; [apply Hno; reflexivity |].
  rewrite (Hyes Sample.message Sample.potion _ Sample.screen eq_refl). reflexivity.
Defined.

(** ** What an accepted turn writes *)

Lemma resolved_gameState action response s :
  Screen.gameState (resolved action response s)
  = GameState.mk
      (GameState.lore (Screen.gameState s))
      (Scenario.withCharacter (GameState.scenario (Screen.gameState s))
         (fst (reconcileCharacter response (characterOf s))))
      (GeminiResponse.updatedInventory response)
      (GeminiResponse.newLocation response)
      ((GameState.storyLog (Screen.gameState s)
        ++ [StoryEntry.player action;
            StoryEntry.narrator (GeminiResponse.narrative response)])
       ++ dialogueEntries response
       ++ (if match GeminiResponse.requestImageGeneration response with
              | Some b => b && negb (GeminiResponse.isGameOver response)
              | None => false
              end
           then [StoryEntry.placeholder] else []))
      (GeminiResponse.newObjective response)
      (reconcileQuests response (GameState.quests (Screen.gameState s)))
      (GeminiResponse.isGameOver response)
      (GeminiResponse.gameOverMessage response).
Proof.
  unfold resolved, characterOf. destruct (reconcileCharacter _ _). reflexivity.
Qed.

(** X4.  After an accepted turn whose buffer parses, the inventory, the
    location, the main objective, the game-over flag and its message are
    those of the turn result, whatever they were before: an item that the
    turn result does not list is gone.  The setting, the goal and the
    first objective of the scenario stay. *)
Theorem X4_turn_result_replaces_inventory_and_place
    (syntaxErrorMessage : jsstring -> jsstring) (action : jsstring)
    (stream : Stream.t) (s : Screen.t) (response : GeminiResponse.t) :
  returnsEarly action s = false ->
  outcomeOf syntaxErrorMessage stream (concat (Stream.fragments stream)) = Parsed response ->
  exists s',
    executeAction syntaxErrorMessage action stream s = Some s'
    /\ GameState.inventory (Screen.gameState s') = GeminiResponse.updatedInventory response
    /\ (forall item,
          ~ In item (GeminiResponse.updatedInventory response) ->
          ~ In item (GameState.inventory (Screen.gameState s')))
    /\ GameState.currentLocation (Screen.gameState s') = GeminiResponse.newLocation response
    /\ GameState.objective (Screen.gameState s') = GeminiResponse.newObjective response
    /\ GameState.isGameOver (Screen.gameState s') = GeminiResponse.isGameOver response
    /\ GameState.gameOverMessage (Screen.gameState s')
       = GeminiResponse.gameOverMessage response
    /\ Scenario.setting (GameState.scenario (Screen.gameState s'))
       = Scenario.setting (GameState.scenario (Screen.gameState s))
    /\ Scenario.goal (GameState.scenario (Screen.gameState s'))
       = Scenario.goal (GameState.scenario (Screen.gameState s))
    /\ Scenario.objective (GameState.scenario (Screen.gameState s'))
       = Scenario.objective (GameState.scenario (Screen.gameState s)).
Proof.
  intros Hguard Hout. exists (resolved action response s).
  split; [apply executeAction_parsed; assumption |].
  rewrite resolved_gameState. cbn. repeat split. intros item H. exact H.
Qed.

Lemma X4_witness :
  exists s',
    executeAction Sample.message (js "fight") (Stream.mk Sample.xpDocument None)
      (Screen.withGameState Sample.screen
         (GameState.mk Sample.lore Sample.scenario [Sample.potion] (js "Harbor")
            [] (js "Leave the harbor") [] false []))
    = Some s'
    /\ GameState.inventory (Screen.gameState s') = []
    /\ GameState.currentLocation (Screen.gameState s') = js "Pier".
Proof.
  destruct (X4_turn_result_replaces_inventory_and_place Sample.message (js "fight")
              (Stream.mk Sample.xpDocument None)
              (Screen.withGameState Sample.screen
                 (GameState.mk Sample.lore Sample.scenario [Sample.potion] (js "Harbor")
                    [] (js "Leave the harbor") [] false []))
              Sample.xpResponse ltac:(vm_compute; reflexivity) ltac:(vm_compute; reflexivity))
    as (s' & Hrun & Hinv & _ & Hloc & _).
  exists s'. split; [exact Hrun | split; [exact Hinv | exact Hloc]].
Defined.

(** ** The story log *)

Lemma step_log_grows syntaxErrorMessage e s s' :
  step syntaxErrorMessage e s = Some s' ->
  GameState.storyLog (Screen.gameState s) `prefix_of` GameState.storyLog (Screen.gameState s').
Proof.
  assert (Hexec : forall action stream,
             executeAction syntaxErrorMessage action stream s = Some s' ->
             GameState.storyLog (Screen.gameState s)
               `prefix_of` GameState.storyLog (Screen.gameState s')).
  { intros action stream Hrun.
    destruct (executeAction_cases _ _ _ _ _ Hrun)
      as [[_ ->] | [[_ (response & _ & ->)] | [_ (err & _ & ->)]]].
    - reflexivity.
    - rewrite resolved_gameState. cbn [GameState.storyLog].
      rewrite <- app_assoc. apply prefix_app_r. reflexivity.
    - cbn. apply prefix_app_r. reflexivity. }
  intros Hstep. destruct e as [value | stream | item stream | | | statIncreases];
    cbn [step] in Hstep.
  - injection Hstep as <-. reflexivity.
  - exact (Hexec _ _ Hstep).
  - destruct (handleUseItem_cases syntaxErrorMessage item stream s) as [E | E];
      rewrite E in Hstep; [injection Hstep as <-; reflexivity | exact (Hexec _ _ Hstep)].
  - injection Hstep as <-. destruct (Screen.isLoading s); [reflexivity |].
    unfold handleAcceptUpdate. destruct (Screen.proposedUpdate s); reflexivity.
  - injection Hstep as <-. destruct (_ && _); reflexivity.
  - injection Hstep as <-. destruct (Screen.isLevelingUp s); reflexivity.
Qed.

(** X5.  An accepted turn whose buffer parses leaves in the log, after
    what was there, the player's action, the narrative of the turn result
    (not the preview), one narrator entry per dialogue line in the order of
    the turn result, each with its speaker, and, when an image is
    requested and the game is not over, one pending placeholder.  And
    through every sequence of steps of the screen (typing, a submit, the
    use of an item, a lore update taken or ignored, a confirmed
    level-up) the log only grows at its end: what was logged stays,
    where it was.  The callbacks of the image requests are not among
    these steps; they are the only code that rewrites or removes an
    entry. *)
Theorem X5_story_log_is_append_only :
  (forall syntaxErrorMessage action stream s response,
     returnsEarly action s = false ->
     outcomeOf syntaxErrorMessage stream (concat (Stream.fragments stream))
     = Parsed response ->
     exists s',
       executeAction syntaxErrorMessage action stream s = Some s'
       /\ GameState.storyLog (Screen.gameState s')
          = GameState.storyLog (Screen.gameState s)
            ++ [StoryEntry.player action;
                StoryEntry.narrator (GeminiResponse.narrative response)]
            ++ match GeminiResponse.dialogue response with
               | Some lines =>
                   List.map
                     (fun d => StoryEntry.mk Narrator (Dialogue.text d)
                                 (Some (Dialogue.characterName d)) None None)
                     lines
               | None => []
               end
            ++ (if bool_decide
                     (GeminiResponse.requestImageGeneration response = Some true
                      /\ GeminiResponse.isGameOver response = false)
                then [StoryEntry.placeholder] else []))
  /\ (forall syntaxErrorMessage events s s',
        run syntaxErrorMessage events s = Some s' ->
        GameState.storyLog (Screen.gameState s)
          `prefix_of` GameState.storyLog (Screen.gameState s')).
Proof.
  split.
  - intros msg action stream s response Hguard Hout. exists (resolved action response s).
    split; [apply executeAction_parsed; assumption |].
    rewrite resolved_gameState. cbn [GameState.storyLog]. rewrite <- app_assoc.
    f_equal. f_equal. unfold dialogueEntries, StoryEntry.spoken. f_equal.
    destruct (GeminiResponse.requestImageGeneration response) as [[|] |],
      (GeminiResponse.isGameOver response); cbn;
      try (rewrite bool_decide_eq_true_2 by (split; reflexivity); reflexivity);
      rewrite bool_decide_eq_false_2; try reflexivity; intros [H1 H2]; discriminate.
  - intros msg events. induction events as [| e events IH]; intros s s' Hrun; cbn [run] in Hrun.
    + injection Hrun as <-. reflexivity.
    + destruct (step msg e s) as [s1 |] eqn:Hstep; [| discriminate Hrun].
      etransitivity; [exact (step_log_grows _ _ _ _ Hstep) | exact (IH _ _ Hrun)].
Qed.

Lemma X5_witness :
  exists s',
    executeAction Sample.message (js "fight") (Stream.mk Sample.xpDocument None)
      Sample.screen = Some s'
    /\ GameState.storyLog (Screen.gameState s')
       = [StoryEntry.narrator (js "A grey harbor at dawn.");
          StoryEntry.player (js "fight");
          StoryEntry.narrator (js "You win the duel.")].
Proof.
  destruct (proj1 X5_story_log_is_append_only Sample.message (js "fight")
              (Stream.mk Sample.xpDocument None) Sample.screen Sample.xpResponse
              ltac:(vm_compute; reflexivity) ltac:(vm_compute; reflexivity))
    as (s' & Hrun & Hlog).
  exists s'. split; [exact Hrun |]. rewrite Hlog. vm_compute. reflexivity.
Defined.

(** ** The character through turns and level-ups *)

Lemma applyStats_fields response c :
  Character.health (applyStats response c)
  = match GeminiResponse.characterUpdate response with
    | Some cu => default (Character.health c) (CharacterUpdate.health cu)
    | None => Character.health c
    end
  /\ Character.mana (applyStats response c)
     = match GeminiResponse.characterUpdate response with
       | Some cu => default (Character.mana c) (CharacterUpdate.mana cu)
       | None => Character.mana c
       end
  /\ Character.stamina (applyStats response c)
     = match GeminiResponse.characterUpdate response with
       | Some cu => default (Character.stamina c) (CharacterUpdate.stamina cu)
       | None => Character.stamina c
       end
  /\ Character.name (applyStats response c) = Character.name c
  /\ Character.backstory (applyStats response c) = Character.backstory c.
Proof.
  unfold applyStats. destruct (GeminiResponse.characterUpdate response) as [cu |].
  - destruct (CharacterUpdate.health cu), (CharacterUpdate.mana cu),
      (CharacterUpdate.stamina cu); repeat split.
  - repeat split.
Qed.

Lemma reconcileCharacter_sameBuild response c :
  sameBuild c (fst (reconcileCharacter response c)).
Proof.
  destruct (applyStats_keeps response c) as (_ & Hn & Hl & Hh & Hm & Hs).
  destruct (applyStats_fields response c) as (_ & _ & _ & Hname & Hback).
  unfold reconcileCharacter, sameBuild.
  destruct (truthyXpGained response); cbn; repeat split; assumption.
Qed.

Lemma reconcileCharacter_stats response c :
  Character.health (fst (reconcileCharacter response c))
  = Character.health (applyStats response c)
  /\ Character.mana (fst (reconcileCharacter response c))
     = Character.mana (applyStats response c)
  /\ Character.stamina (fst (reconcileCharacter response c))
     = Character.stamina (applyStats response c).
Proof.
  unfold reconcileCharacter. destruct (truthyXpGained response); repeat split.
Qed.

Lemma sameBuild_refl c : sameBuild c c.
Proof. repeat split. Qed.

Lemma sameBuild_trans c1 c2 c3 : sameBuild c1 c2 -> sameBuild c2 c3 -> sameBuild c1 c3.
Proof.
  unfold sameBuild.
  intros (a1 & a2 & a3 & a4 & a5 & a6 & a7) (b1 & b2 & b3 & b4 & b5 & b6 & b7).
  repeat split; congruence.
Qed.

Lemma resolved_characterOf action response s :
  characterOf (resolved action response s)
  = fst (reconcileCharacter response (characterOf s)).
Proof. unfold characterOf at 1. rewrite resolved_gameState. reflexivity. Qed.

Lemma executeAction_sameBuild syntaxErrorMessage action stream s s' :
  executeAction syntaxErrorMessage action stream s = Some s' ->
  sameBuild (characterOf s) (characterOf s').
Proof.
  intros Hrun.
  destruct (executeAction_cases _ _ _ _ _ Hrun)
    as [[_ ->] | [[_ (response & _ & ->)] | [_ (err & _ & ->)]]].
  - apply sameBuild_refl.
  - rewrite resolved_characterOf. apply reconcileCharacter_sameBuild.
  - apply sameBuild_refl.
Qed.

Lemma step_sameBuild syntaxErrorMessage e s s' :
  isConfirmLevelUp e = false ->
  step syntaxErrorMessage e s = Some s' ->
  sameBuild (characterOf s) (characterOf s').
Proof.
  intros He Hstep. destruct e as [value | stream | item stream | | | statIncreases];
    cbn [step] in Hstep; try discriminate He.
  - injection Hstep as <-. apply sameBuild_refl.
  - exact (executeAction_sameBuild _ _ _ _ _ Hstep).
  - destruct (handleUseItem_cases syntaxErrorMessage item stream s) as [E | E];
      rewrite E in Hstep;
      [injection Hstep as <-; apply sameBuild_refl
      | exact (executeAction_sameBuild _ _ _ _ _ Hstep)].
  - injection Hstep as <-. destruct (Screen.isLoading s); [apply sameBuild_refl |].
    unfold handleAcceptUpdate. destruct (Screen.proposedUpdate s); apply sameBuild_refl.
  - injection Hstep as <-. destruct (_ && _); apply sameBuild_refl.
Qed.

(** X6.  A turn result overwrites health, mana and stamina with the
    values it carries, as they are, with no clamping to the range from
    zero to the maximum, and keeps the ones it does not carry.  No turn
    changes the name, the backstory, the level, a maximum or the
    threshold of the next level: through every sequence of steps of the
    screen without a confirmed level-up they stay as they were. *)
Theorem X6_turn_overwrites_stats_and_keeps_the_build :
  (forall syntaxErrorMessage action stream s response,
     returnsEarly action s = false ->
     outcomeOf syntaxErrorMessage stream (concat (Stream.fragments stream))
     = Parsed response ->
     exists s',
       executeAction syntaxErrorMessage action stream s = Some s'
       /\ Character.health (characterOf s')
          = match GeminiResponse.characterUpdate response with
            | Some cu => default (Character.health (characterOf s)) (CharacterUpdate.health cu)
            | None => Character.health (characterOf s)
            end
       /\ Character.mana (characterOf s')
          = match GeminiResponse.characterUpdate response with
            | Some cu => default (Character.mana (characterOf s)) (CharacterUpdate.mana cu)
            | None => Character.mana (characterOf s)
            end
       /\ Character.stamina (characterOf s')
          = match GeminiResponse.characterUpdate response with
            | Some cu =>
                default (Character.stamina (characterOf s)) (CharacterUpdate.stamina cu)
            | None => Character.stamina (characterOf s)
            end)
  /\ (forall syntaxErrorMessage events s s',
        Forall (fun e => isConfirmLevelUp e = false) events ->
        run syntaxErrorMessage events s = Some s' ->
        sameBuild (characterOf s) (characterOf s')).
Proof.
  split.
  - intros msg action stream s response Hguard Hout. exists (resolved action response s).
    split; [apply executeAction_parsed; assumption |].
    rewrite resolved_characterOf.
    destruct (reconcileCharacter_stats response (characterOf s)) as (-> & -> & ->).
    destruct (applyStats_fields response (characterOf s)) as (Hh & Hm & Hs & _).
    split; [exact Hh | split; [exact Hm | exact Hs]].
  - intros msg events. induction events as [| e events IH]; intros s s' Hall Hrun;
      cbn [run] in Hrun.
    + injection Hrun as <-. apply sameBuild_refl.
    + inversion Hall as [| ? ? He Hrest]; subst.
      destruct (step msg e s) as [s1 |] eqn:Hstep; [| discriminate Hrun].
      exact (sameBuild_trans _ _ _ (step_sameBuild _ _ _ _ He Hstep)
               (IH _ _ Hrest Hrun)).
Qed.

Lemma X6_witness :
  exists s',
    executeAction Sample.message (js "drink") (Stream.mk SampleStats.document None)
      Sample.screen = Some s'
    /\ Character.health (characterOf s') = 250
    /\ Character.maxHealth (characterOf s') = 100
    /\ Character.mana (characterOf s') = -5
    /\ Character.stamina (characterOf s') = 40.
Proof.
  destruct X6_turn_overwrites_stats_and_keeps_the_build as [Hturn Hrun].
  destruct (Hturn Sample.message (js "drink") (Stream.mk SampleStats.document None)
              Sample.screen SampleStats.response
              ltac:(vm_compute; reflexivity) ltac:(vm_compute; reflexivity))
    as (s' & Hexec & Hh & Hm & Hs).
  exists s'. split; [exact Hexec |].
  split; [exact Hh | split; [| split; [exact Hm | exact Hs]]].
  assert (Hbuild : sameBuild (characterOf Sample.screen) (characterOf s')).
  { apply (Hrun Sample.message [SubmitForm (Stream.mk SampleStats.document None)]
             (Screen.withPlayerInput Sample.screen (js "drink")) s').
    - repeat constructor.
    - cbn [run step]. unfold handleSubmit. cbn [Screen.playerInput Screen.withPlayerInput].
      change (executeAction Sample.message (js "drink") (Stream.mk SampleStats.document None)
                (Screen.withPlayerInput Sample.screen (js "drink")))
        with (executeAction Sample.message (js "drink")
                (Stream.mk SampleStats.document None) Sample.screen).
      rewrite Hexec. reflexivity. }
  destruct Hbuild as (_ & _ & _ & Hmax & _). rewrite Hmax. reflexivity.
Defined.

Lemma executeAction_levelUpEarned syntaxErrorMessage action stream s s' :
  levelUpEarned s ->
  executeAction syntaxErrorMessage action stream s = Some s' ->
  levelUpEarned s'.
Proof.
  intros Hinv Hrun.
  destruct (executeAction_cases _ _ _ _ _ Hrun)
    as [[_ ->] | [[Hguard (response & _ & ->)] | [Hguard (err & _ & ->)]]].
  - exact Hinv.
  - destruct (returnsEarly_false action s Hguard) as (_ & _ & _ & _ & Hlev).
    destruct (resolved_character action response s) as [_ Hflag].
    fold (characterOf s) in Hflag. rewrite Hlev in Hflag. cbn [orb] in Hflag.
    unfold levelUpEarned. rewrite Hflag, resolved_characterOf.
    unfold reconcileCharacter.
    destruct (applyStats_keeps response (characterOf s)) as (Hx & Hn & _).
    destruct (truthyXpGained response) as [g |]; cbn [fst snd]; [| discriminate].
    cbn [Character.xp Character.xpToNextLevel Character.withXp].
    rewrite Z.geb_leb, Z.leb_le. lia.
  - destruct (returnsEarly_false action s Hguard) as (_ & _ & _ & _ & Hlev).
    unfold levelUpEarned. cbn [voided Screen.isLevelingUp]. rewrite Hlev. discriminate.
Qed.

Lemma step_levelUpEarned syntaxErrorMessage e s s' :
  levelUpEarned s -> step syntaxErrorMessage e s = Some s' -> levelUpEarned s'.
Proof.
  intros Hinv Hstep. destruct e as [value | stream | item stream | | | statIncreases];
    cbn [step] in Hstep.
  - injection Hstep as <-. exact Hinv.
  - exact (executeAction_levelUpEarned _ _ _ _ _ Hinv Hstep).
  - destruct (handleUseItem_cases syntaxErrorMessage item stream s) as [E | E];
      rewrite E in Hstep;
      [injection Hstep as <-; exact Hinv
      | exact (executeAction_levelUpEarned _ _ _ _ _ Hinv Hstep)].
  - injection Hstep as <-. destruct (Screen.isLoading s); [exact Hinv |].
    unfold handleAcceptUpdate. destruct (Screen.proposedUpdate s); exact Hinv.
  - injection Hstep as <-. destruct (_ && _); exact Hinv.
  - injection Hstep as <-. destruct (Screen.isLevelingUp s) eqn:E; [| exact Hinv].
    unfold levelUpEarned. cbn. discriminate.
Qed.

Lemma run_levelUpEarned syntaxErrorMessage events :
  forall s s',
    levelUpEarned s -> run syntaxErrorMessage events s = Some s' -> levelUpEarned s'.
Proof.
  induction events as [| e events IH]; intros s s' Hinv Hrun; cbn [run] in Hrun.
  - injection Hrun as <-. exact Hinv.
  - destruct (step syntaxErrorMessage e s) as [s1 |] eqn:Hstep; [| discriminate Hrun].
    exact (IH _ _ (step_levelUpEarned _ _ _ _ Hinv Hstep) Hrun).
Qed.

(** X7.  On every screen reached from the initial one by steps of the
    screen, a pending level-up has the experience for it; so the
    experience that a confirmed level-up carries over is never negative,
    although a turn may take experience away. *)
Theorem X7_level_up_is_earned
    (syntaxErrorMessage : jsstring -> jsstring) (lore : Lore.t) (scenario : Scenario.t)
    (events : list Event) (s : Screen.t) :
  run syntaxErrorMessage events (Screen.initial lore scenario) = Some s ->
  levelUpEarned s
  /\ (forall statIncreases,
        Screen.isLevelingUp s = true ->
        Character.xp (characterOf (handleLevelUpConfirm statIncreases s)) >= 0).
Proof.
  intros Hrun.
  assert (Hinv : levelUpEarned s).
  { assert (Hinit : levelUpEarned (Screen.initial lore scenario))
      by (intros H; discriminate H).
    exact (run_levelUpEarned _ _ _ _ Hinit Hrun). }
  split; [exact Hinv |].
  intros statIncreases E.
  specialize (Hinv E). unfold characterOf in *. cbn. lia.
Qed.

Lemma X7_witness :
  exists s,
    run Sample.message
      [InputChange (js "fight"); SubmitForm (Stream.mk Sample.xpDocument None)]
      Sample.screen = Some s
    /\ Screen.isLevelingUp s = true
    /\ Character.xp (characterOf s) >= Character.xpToNextLevel (characterOf s).
Proof.
  assert (Hrun : run Sample.message
                   [InputChange (js "fight"); SubmitForm (Stream.mk Sample.xpDocument None)]
                   Sample.screen
                 = Some (resolved (js "fight") Sample.xpResponse Sample.screen))
    by (vm_compute; reflexivity).
  exists (resolved (js "fight") Sample.xpResponse Sample.screen).
  split; [exact Hrun |].
  destruct (X7_level_up_is_earned Sample.message Sample.lore Sample.scenario _ _ Hrun)
    as [Hinv _].
  split; [vm_compute; reflexivity | apply Hinv; vm_compute; reflexivity].
Defined.

(** X8.  A confirmed level-up clears the pending flag even when the
    experience carried over still reaches the new threshold (stated where
    the arithmetic of the level-up is exact in the numbers of the
    language); the flag then stays cleared through turns that grant no
    experience, and only a turn with a gain other than zero sets it
    again.  So a gain worth several levels gives one level at a time, and
    the next one waits for the next gain. *)
Theorem X8_one_level_per_gain :
  (forall statIncreases s,
     levelUpExact statIncreases (characterOf s) ->
     Character.xp (characterOf s) - Character.xpToNextLevel (characterOf s)
     >= Character.xpToNextLevel (characterOf s) * 3 / 2 ->
     let s' := handleLevelUpConfirm statIncreases s in
     Screen.isLevelingUp s' = false
     /\ Character.xpToNextLevel (characterOf s')
        = Character.xpToNextLevel (characterOf s) * 3 / 2
     /\ Character.xp (characterOf s') >= Character.xpToNextLevel (characterOf s'))
  /\ (forall syntaxErrorMessage action stream s response,
        returnsEarly action s = false ->
        outcomeOf syntaxErrorMessage stream (concat (Stream.fragments stream))
        = Parsed response ->
        truthyXpGained response = None ->
        exists s',
          executeAction syntaxErrorMessage action stream s = Some s'
          /\ Screen.isLevelingUp s' = false
          /\ Character.xp (characterOf s') = Character.xp (characterOf s)).
Proof.
  split.
  - intros statIncreases s Hexact H s'.
    destruct Hexact as (_ & _ & _ & _ & _ & Hproduct & _).
    unfold s', handleLevelUpConfirm, characterOf in *.
    cbn [Screen.gameState Screen.withGameState Screen.withIsLevelingUp
         Screen.isLevelingUp GameState.scenario GameState.withScenario
         Scenario.character Scenario.withCharacter].
    unfold levelUp. cbn [Character.xp Character.xpToNextLevel].
    rewrite (timesOneAndHalf_exact _ Hproduct).
    split; [reflexivity | split; [reflexivity | lia]].
  - intros msg action stream s response Hguard Hout Hnone.
    exists (resolved action response s). split; [apply executeAction_parsed; assumption |].
    destruct (returnsEarly_false action s Hguard) as (_ & _ & _ & _ & Hlev).
    destruct (resolved_character action response s) as [_ Hflag].
    fold (characterOf s) in Hflag.
    rewrite resolved_characterOf, Hflag, (reconcileCharacter_none _ _ Hnone), Hlev.
    cbn [fst snd orb]. split; [reflexivity |].
    apply applyStats_keeps.
Qed.

Lemma X8_witness :
  exists s1,
    executeAction Sample.message (js "fight") (Stream.mk SampleStats.windfall None)
      Sample.screen = Some s1
    /\ Character.xp (characterOf s1) = 495
    /\ levelUpExact allPointsToHealth (characterOf s1)
    /\ Screen.isLevelingUp (handleLevelUpConfirm allPointsToHealth s1) = false
    /\ Character.xp (characterOf (handleLevelUpConfirm allPointsToHealth s1)) = 395
    /\ Character.xpToNextLevel (characterOf (handleLevelUpConfirm allPointsToHealth s1))
       = 150.
Proof.
  exists (resolved (js "fight") SampleStats.windfallResponse Sample.screen).
  split; [vm_compute; reflexivity |]. split; [vm_compute; reflexivity |].
  assert (Hexact : levelUpExact allPointsToHealth
                     (characterOf
                        (resolved (js "fight") SampleStats.windfallResponse Sample.screen)))
    by (unfold levelUpExact, isSafeInteger; vm_compute;
        repeat split; solve [reflexivity | discriminate]).
  split; [exact Hexact |].
  destruct (proj1 X8_one_level_per_gain allPointsToHealth
              (resolved (js "fight") SampleStats.windfallResponse Sample.screen)
              Hexact ltac:(vm_compute; intros H; discriminate H)) as (Hflag & Hnext & _).
  split; [exact Hflag | split; [vm_compute; reflexivity |]].
  rewrite Hnext. vm_compute. reflexivity.
Defined.

(** ** The budget of the level-up modal *)

Lemma initial_budgeted : budgeted LevelUpModal.initial 0.
Proof.
  unfold budgeted. cbn.
  repeat split; try lia; exists 0; reflexivity.
Qed.

Lemma handleIncrease_budgeted stat m k :
  budgeted m k -> budgeted (LevelUpModal.handleIncrease stat m) (S k).
Proof.
  intros (Hp & Hh & Hm & Hs & [h Dh] & [a Da] & [t Dt] & Hsum).
  unfold budgeted, LevelUpModal.handleIncrease.
  destruct (Z.gtb_spec (LevelUpModal.points m) 0) as [Hpos | Hzero].
  - destruct stat; cbn [LevelUpModal.points LevelUpModal.healthInc LevelUpModal.manaInc
                        LevelUpModal.staminaInc];
      repeat split; try lia;
      try (exists h; exact Dh); try (exists a; exact Da); try (exists t; exact Dt).
    + exists (h + 1). lia.
    + exists (a + 1). lia.
    + exists (t + 1). lia.
  - repeat split; try lia;
      try (exists h; exact Dh); try (exists a; exact Da); try (exists t; exact Dt).
Qed.

Lemma fold_modalStep_budgeted events :
  forall m k,
    budgeted m k ->
    budgeted (fold_left modalStep events m)
      (fold_left (fun k e => match e with ClickIncrease _ => S k | Remount => 0%nat end)
         events k).
Proof.
  induction events as [| e events IH]; intros m k H; cbn [fold_left]; [exact H |].
  apply IH. destruct e as [stat |]; cbn [modalStep].
  - apply handleIncrease_budgeted, H.
  - exact initial_budgeted.
Qed.

(** X9.  Whatever the clicks on the modal and however often a render of
    the game screen mounts it anew, the points left are ten less the
    clicks since the last mount, never below zero; no increase is
    negative, each is a multiple of five, and the three increases and
    five units per point left add up to fifty.  A click with no point
    left changes nothing, and a new mount discards what was allocated.
    The Confirm button passes an allocation only when no point is left,
    so every allocation that reaches the level-up adds up to fifty. *)
Theorem X9_modal_budget (events : list ModalEvent) :
  let m := spend events in
  budgeted m (clicksSinceMount events)
  /\ (forall stat, LevelUpModal.points m = 0 -> LevelUpModal.handleIncrease stat m = m)
  /\ spend (events ++ [Remount]) = LevelUpModal.initial
  /\ (confirm m = None <-> (clicksSinceMount events < 10)%nat)
  /\ (forall statIncreases,
        confirm m = Some statIncreases ->
        0 <= StatIncreases.maxHealth statIncreases
        /\ 0 <= StatIncreases.maxMana statIncreases
        /\ 0 <= StatIncreases.maxStamina statIncreases
        /\ StatIncreases.maxHealth statIncreases + StatIncreases.maxMana statIncreases
           + StatIncreases.maxStamina statIncreases = 50).
Proof.
  intros m.
  pose proof (fold_modalStep_budgeted events _ _ initial_budgeted) as H.
  fold (spend events) in H. fold (clicksSinceMount events) in H. fold m in H.
  split; [exact H |].
  destruct H as (Hp & Hh & Hm & Hs & _ & _ & _ & Hsum).
  split.
  { intros stat Hzero. unfold LevelUpModal.handleIncrease. rewrite Hzero. reflexivity. }
  split.
  { unfold spend. rewrite fold_left_app. reflexivity. }
  unfold confirm. destruct (Z.gtb_spec (LevelUpModal.points m) 0) as [Hpos | Hzero].
  - split; [split; [intros _; lia | reflexivity] | discriminate].
  - split; [split; [discriminate | intros Hk; lia] |].
    intros statIncreases E. injection E as <-.
    cbn [LevelUpModal.handleConfirm StatIncreases.maxHealth StatIncreases.maxMana
         StatIncreases.maxStamina].
    repeat split; lia.
Qed.

Lemma X9_witness :
  exists statIncreases,
    confirm
      (spend ([ClickIncrease StatMana; ClickIncrease StatMana; Remount]
              ++ repeat (ClickIncrease StatHealth) 10))
    = Some statIncreases
    /\ StatIncreases.maxHealth statIncreases + StatIncreases.maxMana statIncreases
       + StatIncreases.maxStamina statIncreases = 50.
Proof.
  exists (StatIncreases.mk 50 0 0).
  assert (E : confirm
                (spend ([ClickIncrease StatMana; ClickIncrease StatMana; Remount]
                        ++ repeat (ClickIncrease StatHealth) 10))
              = Some (StatIncreases.mk 50 0 0)) by (vm_compute; reflexivity).
  split; [exact E |].
  exact (proj2 (proj2 (proj2
           (proj2 (proj2 (proj2 (proj2
              (X9_modal_budget
                 ([ClickIncrease StatMana; ClickIncrease StatMana; Remount]
                  ++ repeat (ClickIncrease StatHealth) 10)))))
              (StatIncreases.mk 50 0 0) E)))).
Defined.

(** ** The image callbacks *)

Lemma imageArrived_log imageUrl g :
  Forall (fun entry => pending entry = false) (GameState.storyLog (imageArrived imageUrl g)).
Proof.
  unfold imageArrived. cbn [GameState.storyLog GameState.withStoryLog].
  apply Forall_forall. intros e He. apply list_elem_of_In, List.in_map_iff in He.
  destruct He as (e0 & <- & _). destruct (pending e0) eqn:E; [reflexivity | exact E].
Qed.

Lemma imageFailed_log g :
  Forall (fun entry => pending entry = false) (GameState.storyLog (imageFailed g)).
Proof.
  unfold imageFailed. cbn [GameState.storyLog GameState.withStoryLog].
  apply Forall_forall. intros e He. apply list_elem_of_In, List.filter_In in He.
  destruct He as [_ He]. apply negb_true_iff in He. exact He.
Qed.

Lemma settled_imageArrived imageUrl g :
  Forall (fun entry => pending entry = false) (GameState.storyLog g) ->
  imageArrived imageUrl g = g.
Proof.
  intros H. unfold imageArrived. rewrite map_fixed.
  - destruct g; reflexivity.
  - eapply Forall_impl; [exact H |]. intros e He. cbn beta. rewrite He. reflexivity.
Qed.

Lemma settled_imageFailed g :
  Forall (fun entry => pending entry = false) (GameState.storyLog g) ->
  imageFailed g = g.
Proof.
  intros H. unfold imageFailed.
  replace (List.filter _ (GameState.storyLog g)) with (GameState.storyLog g).
  - destruct g; reflexivity.
  - symmetry. apply List.forallb_filter_id. apply forallb_forall. intros e He.
    rewrite Forall_forall in H. rewrite (H e); [reflexivity | apply list_elem_of_In; exact He].
Qed.

(** X10.  The callback of an arrived image puts the image on every
    placeholder that is pending at that moment, and the callback of a
    failed request removes every pending placeholder, whichever request
    each placeholder belongs to.  So with two requests outstanding the
    first answer decides for both: after an arrival the second image, or
    the second failure, changes nothing (the first image shows in both
    places), and after a failure the image of the other request has no
    place left and is dropped. *)
Theorem X10_first_image_answer_settles_every_placeholder :
  (forall imageUrl g,
     Forall (fun entry => pending entry = false)
       (GameState.storyLog (imageArrived imageUrl g))
     /\ length (GameState.storyLog (imageArrived imageUrl g))
        = length (GameState.storyLog g))
  /\ (forall first second g,
        imageArrived second (imageArrived first g) = imageArrived first g)
  /\ (forall first g, imageFailed (imageArrived first g) = imageArrived first g)
  /\ (forall second g, imageArrived second (imageFailed g) = imageFailed g)
  /\ (forall g, imageFailed (imageFailed g) = imageFailed g)
  /\ (forall g entry,
        In entry (GameState.storyLog (imageFailed g))
        <-> In entry (GameState.storyLog g) /\ pending entry = false).
Proof.
  split.
  { intros imageUrl g. split; [apply imageArrived_log |].
    unfold imageArrived. cbn [GameState.storyLog GameState.withStoryLog].
    apply List.length_map. }
  split; [intros; apply settled_imageArrived, imageArrived_log |].
  split; [intros; apply settled_imageFailed, imageArrived_log |].
  split; [intros; apply settled_imageArrived, imageFailed_log |].
  split; [intros; apply settled_imageFailed, imageFailed_log |].
  intros g entry. unfold imageFailed. cbn [GameState.storyLog GameState.withStoryLog].
  rewrite List.filter_In, negb_true_iff. reflexivity.
Qed.

(** ** An image callback during a turn *)

Lemma shown_app acc a b t :
  shown acc (a ++ b) t = shown (acc ++ concat a) b (shown acc a t).
Proof.
  revert acc t. induction a as [| chunk a IH]; intros acc t; cbn [app shown concat].
  - rewrite app_nil_r. reflexivity.
  - rewrite IH, <- app_assoc. reflexivity.
Qed.

Lemma fold_onChunk_shown action g fragments :
  forall t acc s,
    Screen.gameState s = inTurn action g t ->
    fold_left (onChunk (length (GameState.storyLog g) + 1)) fragments (acc, s)
    = (acc ++ concat fragments,
       Screen.withGameState s (inTurn action g (shown acc fragments t))).
Proof.
  induction fragments as [| chunk fragments IH]; intros t acc s Hs;
    cbn [fold_left concat shown].
  - rewrite app_nil_r. f_equal. rewrite <- Hs. destruct s; reflexivity.
  - rewrite onChunk_showPreview. unfold showPreview.
    destruct (narrativePreview (acc ++ chunk)) as [text |].
    + assert (E : Screen.withGameState s
                    (GameState.withStoryLog (Screen.gameState s)
                       (setIfPresent (GameState.storyLog (Screen.gameState s))
                          (length (GameState.storyLog g) + 1)
                          (fun entry => StoryEntry.withText entry text)))
                  = Screen.withGameState s (inTurn action g text)).
      { rewrite Hs. unfold inTurn.
        cbn [GameState.storyLog GameState.withStoryLog]. rewrite setIfPresent_narrator.
        destruct g; reflexivity. }
      rewrite E, (IH text) by reflexivity. rewrite <- app_assoc.
      destruct s; reflexivity.
    + rewrite (IH t _ _ Hs), <- app_assoc. reflexivity.
Qed.

Lemma onImage_inTurn outcome action g t s :
  onImage outcome (Screen.withGameState s (inTurn action g t))
  = Screen.withGameState s
      (inTurn action
         match outcome with
         | Some imageUrl => imageArrived imageUrl g
         | None => imageFailed g
         end t).
Proof.
  unfold onImage, inTurn, imageArrived, imageFailed.
  destruct outcome as [imageUrl |];
    cbn [Screen.gameState Screen.withGameState GameState.storyLog GameState.withStoryLog];
    [rewrite List.map_app | rewrite List.filter_app]; destruct g; reflexivity.
Qed.

Lemma fold_onChunk_stale idx fragments :
  forall acc s,
    (length (GameState.storyLog (Screen.gameState s)) <= idx)%nat ->
    fold_left (onChunk idx) fragments (acc, s) = (acc ++ concat fragments, s).
Proof.
  induction fragments as [| chunk fragments IH]; intros acc s Hlen; cbn [fold_left concat].
  - rewrite app_nil_r. reflexivity.
  - rewrite onChunk_showPreview.
    assert (E : showPreview idx (narrativePreview (acc ++ chunk)) s = s).
    { unfold showPreview. destruct (narrativePreview _); [| reflexivity].
      unfold setIfPresent. rewrite lookup_ge_None_2 by exact Hlen.
      destruct s as [g ? ? ? ?]; destruct g; reflexivity. }
    rewrite E, IH by exact Hlen. rewrite <- app_assoc. reflexivity.
Qed.

Lemma settledLog_length log :
  existsb pending log = true -> (length (settledLog log) < length log)%nat.
Proof.
  unfold settledLog. induction log as [| e log IH]; cbn [existsb List.filter length];
    [discriminate |].
  destruct (pending e); cbn [negb orb length].
  - intros _. pose proof (List.filter_length_le (fun entry => negb (pending entry)) log). lia.
  - intros H. specialize (IH H). lia.
Qed.

Lemma returnsEarly_onImage action outcome s :
  returnsEarly action (onImage outcome s) = returnsEarly action s.
Proof. destruct outcome; reflexivity. Qed.

Lemma onImage_arrived_length imageUrl s :
  length (GameState.storyLog (Screen.gameState (onImage (Some imageUrl) s)))
  = length (GameState.storyLog (Screen.gameState s)).
Proof.
  unfold onImage, imageArrived.
  cbn [Screen.gameState Screen.withGameState GameState.storyLog GameState.withStoryLog].
  apply List.length_map.
Qed.

(** The state in which the callback finds a turn after [n] fragments. *)
Lemma across_received action fragments n s :
  fold_left (onChunk (length (GameState.storyLog (Screen.gameState s)) + 1))
    (take n fragments) ([], beginTurn action s)
  = (concat (take n fragments),
     Screen.withGameState (beginTurn action s)
       (inTurn action (Screen.gameState s) (shown [] (take n fragments) []))).
Proof.
  rewrite (fold_onChunk_shown action (Screen.gameState s) (take n fragments) [] []
             (beginTurn action s) (beginTurn_gameState action s)).
  reflexivity.
Qed.

(** X11.  An image that arrives while a turn is in flight, after any
    number of fragments of the stream, leaves the same screen as an
    image that arrived just before the submit: the arrival keeps the
    length of the log, so the index that the turn holds for its
    narrator's entry stays right, and the arrival touches neither of the
    two entries of the turn. *)
Theorem X11_image_arrival_commutes_with_turn
    (syntaxErrorMessage : jsstring -> jsstring) (action : jsstring) (stream : Stream.t)
    (n : nat) (imageUrl : jsstring) (s : Screen.t) :
  returnsEarly action s = false ->
  executeActionAcross syntaxErrorMessage action stream n (Some imageUrl) s
  = executeAction syntaxErrorMessage action stream (onImage (Some imageUrl) s).
Proof.
  intros Hguard. unfold executeActionAcross, executeAction.
  rewrite returnsEarly_onImage, Hguard, onImage_arrived_length.
  rewrite across_received, onImage_inTurn.
  set (g := Screen.gameState s). set (g' := imageArrived imageUrl g).
  assert (Hlen : length (GameState.storyLog g) = length (GameState.storyLog g')).
  { unfold g', imageArrived. cbn [GameState.storyLog GameState.withStoryLog].
    symmetry. apply List.length_map. }
  rewrite Hlen.
  rewrite (fold_onChunk_shown action g' (drop n (Stream.fragments stream))
             (shown [] (take n (Stream.fragments stream)) [])); [| reflexivity].
  unfold consume.
  rewrite (fold_onChunk_shown action g' (Stream.fragments stream) [] []
             (beginTurn action (onImage (Some imageUrl) s))); [| reflexivity].
  rewrite <- concat_app, take_drop.
  replace (shown (concat (take n (Stream.fragments stream)))
             (drop n (Stream.fragments stream))
             (shown [] (take n (Stream.fragments stream)) []))
    with (shown [] (Stream.fragments stream) []).
  2:{ rewrite <- (take_drop n (Stream.fragments stream)) at 1. apply shown_app. }
  cbn [app].
  replace (Screen.withGameState
             (Screen.withGameState (beginTurn action s)
                (inTurn action g' (shown [] (take n (Stream.fragments stream)) [])))
             (inTurn action g' (shown [] (Stream.fragments stream) [])))
    with (Screen.withGameState (beginTurn action (onImage (Some imageUrl) s))
            (inTurn action g' (shown [] (Stream.fragments stream) [])))
    by (destruct s; reflexivity).
  reflexivity.
Qed.

Lemma X11_witness :
  executeActionAcross Sample.message (js "look") SampleImages.stream 1
    (Some (js "data:image/jpeg;base64,AAAA")) SampleImages.screen
  = executeAction Sample.message (js "look") SampleImages.stream
      (onImage (Some (js "data:image/jpeg;base64,AAAA")) SampleImages.screen).
Proof.
  apply X11_image_arrival_commutes_with_turn. vm_compute. reflexivity.
Defined.

Lemma arraySet_end (log : list StoryEntry.t) e :
  arraySet log (length log) e = Some (log ++ [e]).
Proof.
  unfold arraySet.
  destruct (decide (length log < length log)%nat) as [H | _]; [lia |].
  destruct (decide (length log = length log)) as [_ | H]; [reflexivity | congruence].
Qed.

(** After a failed image request under a turn, with a placeholder
    pending at the submit, the rest of the stream changes nothing on
    the screen. *)
Lemma across_failed action fragments n s :
  existsb pending (GameState.storyLog (Screen.gameState s)) = true ->
  let idx := (length (GameState.storyLog (Screen.gameState s)) + 1)%nat in
  let '(received, s0) := fold_left (onChunk idx) (take n fragments) ([], beginTurn action s) in
  fold_left (onChunk idx) (drop n fragments) (received, onImage None s0)
  = (concat fragments,
     Screen.withGameState (beginTurn action s)
       (inTurn action (imageFailed (Screen.gameState s))
          (shown [] (take n fragments) []))).
Proof.
  intros Hpending idx. unfold idx. rewrite across_received, onImage_inTurn.
  rewrite fold_onChunk_stale.
  - rewrite <- concat_app, take_drop. destruct s; reflexivity.
  - unfold inTurn, imageFailed.
    cbn [Screen.gameState Screen.withGameState GameState.storyLog GameState.withStoryLog].
    rewrite length_app. cbn [length].
    pose proof (settledLog_length _ Hpending) as Hlt. unfold settledLog in Hlt. lia.
Qed.

(** X12.  When the request of an image fails while a turn is in flight
    and a placeholder was pending at the submit, the failure callback
    removes the placeholder and the narrator's entry of the turn moves
    down, away from the index that the turn holds.  From then on no
    preview is written, and a turn that ends in the catch block writes
    nothing either: the log ends with the player's entry and a narrator
    entry that shows what the preview showed when the failure came (the
    empty text if none), and the error text is not put on the screen.
    The other cells are as after any caught turn. *)
Theorem X12_image_failure_hides_the_error_of_a_turn
    (syntaxErrorMessage : jsstring -> jsstring) (action : jsstring) (stream : Stream.t)
    (n : nat) (err : Thrown) (s : Screen.t) :
  returnsEarly action s = false ->
  existsb pending (GameState.storyLog (Screen.gameState s)) = true ->
  outcomeOf syntaxErrorMessage stream (concat (Stream.fragments stream)) = Caught err ->
  executeActionAcross syntaxErrorMessage action stream n None s
  = Some (Screen.mk
            (GameState.withStoryLog (Screen.gameState s)
               (halted action (shown [] (take n (Stream.fragments stream)) []) s))
            [] false (Screen.proposedUpdate s) (Screen.isLevelingUp s)).
Proof.
  intros Hguard Hpending Hout. unfold executeActionAcross. rewrite Hguard.
  pose proof (across_failed action (Stream.fragments stream) n s Hpending) as E.
  cbv zeta in E.
  destruct (fold_left _ (take n (Stream.fragments stream)) _) as [received s0].
  rewrite E, Hout. f_equal.
  unfold catchTurn, setIfPresent, inTurn, imageFailed, halted, settledLog.
  cbn [Screen.gameState Screen.withGameState GameState.storyLog GameState.withStoryLog].
  rewrite lookup_ge_None_2.
  - destruct s as [g ? ? ? ?]; destruct g; reflexivity.
  - rewrite length_app. cbn [length].
    pose proof (settledLog_length _ Hpending) as Hlt. unfold settledLog in Hlt. lia.
Qed.

Lemma X12_witness :
  executeActionAcross Sample.message (js "look") SampleImages.cut 0 None
    SampleImages.screen
  = Some (Screen.mk
            (GameState.withStoryLog (Screen.gameState SampleImages.screen)
               [StoryEntry.narrator (js "A grey harbor at dawn.");
                StoryEntry.player (js "look"); StoryEntry.narrator []])
            [] false None false).
Proof.
  exact (X12_image_failure_hides_the_error_of_a_turn Sample.message (js "look")
           SampleImages.cut 0
           (ErrorObject (Sample.message (concat Sample.truncated)))
           SampleImages.screen
           ltac:(vm_compute; reflexivity) ltac:(vm_compute; reflexivity)
           ltac:(vm_compute; reflexivity)).
Defined.

(** X13.  In the same situation, with exactly one placeholder pending at
    the submit, a turn whose buffer parses does not replace its
    narrator's entry: the index it holds is now the end of the log, so
    the narrative is appended as a further entry after the entry that
    still shows the preview (or nothing), ahead of the dialogue; when
    the preview was complete the narrative stands twice in the log.
    Everything but the log is as after an undisturbed turn. *)
Theorem X13_image_failure_doubles_the_narrator_entry
    (syntaxErrorMessage : jsstring -> jsstring) (action : jsstring) (stream : Stream.t)
    (n : nat) (response : GeminiResponse.t) (s : Screen.t) :
  returnsEarly action s = false ->
  (length (settledLog (GameState.storyLog (Screen.gameState s))) + 1
   = length (GameState.storyLog (Screen.gameState s)))%nat ->
  outcomeOf syntaxErrorMessage stream (concat (Stream.fragments stream)) = Parsed response ->
  let undisturbed := resolved action response s in
  executeActionAcross syntaxErrorMessage action stream n None s
  = Some (Screen.withGameState undisturbed
            (GameState.withStoryLog (Screen.gameState undisturbed)
               (halted action (shown [] (take n (Stream.fragments stream)) []) s
                ++ [StoryEntry.narrator (GeminiResponse.narrative response)]
                ++ dialogueEntries response
                ++ (if match GeminiResponse.requestImageGeneration response with
                       | Some b => b && negb (GeminiResponse.isGameOver response)
                       | None => false
                       end
                    then [StoryEntry.placeholder] else [])))).
Proof.
  intros Hguard Hone Hout undisturbed. unfold undisturbed, executeActionAcross.
  rewrite Hguard.
  assert (Hpending : existsb pending (GameState.storyLog (Screen.gameState s)) = true).
  { destruct (existsb pending (GameState.storyLog (Screen.gameState s))) eqn:E;
      [reflexivity |].
    exfalso. unfold settledLog in Hone.
    rewrite List.forallb_filter_id in Hone; [lia |].
    apply forallb_forall. intros e He. apply negb_true_iff.
    destruct (pending e) eqn:Pe; [| reflexivity].
    assert (existsb pending (GameState.storyLog (Screen.gameState s)) = true)
      by (apply existsb_exists; exists e; split; assumption).
    congruence. }
  pose proof (across_failed action (Stream.fragments stream) n s Hpending) as E.
  cbv zeta in E.
  destruct (fold_left _ (take n (Stream.fragments stream)) _) as [received s0].
  rewrite E, Hout.
  unfold applyResponse, reconcile, resolved, inTurn, imageFailed, halted.
  cbn [Screen.gameState Screen.withGameState GameState.storyLog GameState.withStoryLog
       GameState.scenario GameState.lore GameState.quests].
  fold (settledLog (GameState.storyLog (Screen.gameState s))).
  replace (length (GameState.storyLog (Screen.gameState s)) + 1)%nat
    with (length (settledLog (GameState.storyLog (Screen.gameState s))
                  ++ [StoryEntry.player action;
                      StoryEntry.narrator
                        (shown [] (take n (Stream.fragments stream)) [])]))
    by (rewrite length_app; cbn [length]; lia).
  rewrite arraySet_end. cbn [mbind option_bind].
  destruct (reconcileCharacter _ _) as [updatedCharacter levelUp].
  cbn [mbind option_bind]. f_equal.
  destruct s as [g input loading proposed leveling].
  cbn [Screen.gameState Screen.isLevelingUp Screen.proposedUpdate Screen.isLoading
       Screen.playerInput beginTurn Screen.withGameState Screen.withIsLoading
       Screen.withPlayerInput].
  destruct levelUp, (GeminiResponse.loreUpdate response) as [u |],
    (GeminiResponse.requestImageGeneration response) as [[|] |],
    (GeminiResponse.isGameOver response) eqn:Over;
    cbn; rewrite ?Over, ?orb_true_r, ?orb_false_r, ?app_nil_r, <- ?app_assoc; reflexivity.
Qed.

Lemma X13_witness :
  GameState.storyLog <$>
    (Screen.gameState <$>
       executeActionAcross Sample.message (js "look") SampleImages.stream 1 None
         SampleImages.screen)
  = Some [StoryEntry.narrator (js "A grey harbor at dawn.");
          StoryEntry.player (js "look"); StoryEntry.narrator (js "You win the duel.");
          StoryEntry.narrator (js "You win the duel.")].
Proof.
  rewrite (X13_image_failure_doubles_the_narrator_entry Sample.message (js "look")
             SampleImages.stream 1 Sample.xpResponse SampleImages.screen
             ltac:(vm_compute; reflexivity) ltac:(vm_compute; reflexivity)
             ltac:(vm_compute; reflexivity)).
  vm_compute. reflexivity.
Defined.

(** ** The phases of the application *)

Lemma App_step_coherent s e : App.coherent s = true -> App.coherent (App.step s e) = true.
Proof.
  destruct s as [[| |] [l |] [sc |]]; cbn; try discriminate; intros _;
    destruct e; reflexivity.
Qed.

Lemma App_run_coherent events :
  forall s, App.coherent s = true -> App.coherent (App.run events s) = true.
Proof.
  unfold App.run. induction events as [| e events IH]; intros s Hs; cbn [fold_left];
    [exact Hs |].
  apply IH, App_step_coherent, Hs.
Qed.

(** X14.  Whatever callbacks the components call, in whatever order, the
    phase and the two cells of the application agree: during lore
    creation both cells are empty, during scenario creation the lore is
    there and no scenario, during play both are there.  So the fallbacks
    of [renderContent] are never taken: the lore generator is shown
    exactly in the lore-creation phase, and the scenario generator and
    the game screen get the lore and the scenario that the cells hold. *)
Theorem X14_phase_and_cells_agree (events : list App.Event) :
  let s := App.run events App.initial in
  App.coherent s = true
  /\ (App.renderContent s = App.LoreGeneratorContent
      <-> App.gamePhase s = App.LORE_CREATION)
  /\ (App.gamePhase s = App.SCENARIO_CREATION ->
      exists l, App.lore s = Some l /\ App.scenario s = None
                /\ App.renderContent s = App.ScenarioGeneratorContent l)
  /\ (App.gamePhase s = App.GAMEPLAY ->
      exists l sc, App.lore s = Some l /\ App.scenario s = Some sc
                   /\ App.renderContent s = App.GameScreenContent l sc).
Proof.
  intros s. pose proof (App_run_coherent events App.initial eq_refl) as H.
  fold s in H. split; [exact H |]. revert H.
  destruct s as [[| |] [l |] [sc |]]; cbn; try discriminate; intros _.
  - repeat split; try discriminate; reflexivity.
  - split; [split; discriminate |]. split; [| discriminate].
    intros _. exists l. repeat split.
  - split; [split; discriminate |]. split; [discriminate |].
    intros _. exists l, sc. repeat split.
Qed.

Lemma X14_witness :
  exists l sc,
    App.renderContent
      (App.run [App.LoreCreated Sample.lore; App.ScenarioCreated Sample.scenario]
         App.initial)
    = App.GameScreenContent l sc.
Proof.
  destruct (proj2 (proj2 (proj2
              (X14_phase_and_cells_agree
                 [App.LoreCreated Sample.lore; App.ScenarioCreated Sample.scenario])))
              eq_refl)
    as (l & sc & _ & _ & H).
  exists l, sc. exact H.
Defined.

(** ** The stages of the world builder *)

Lemma present_true {A} (x : option A) :
  bool_decide (is_Some x) = true -> exists v, x = Some v.
Proof. destruct x as [v |]; [intros _; exists v; reflexivity | discriminate]. Qed.

Lemma present_false {A} (x : option A) : bool_decide (is_Some x) = false -> x = None.
Proof.
  destruct x as [v |]; [| reflexivity].
  intros H. apply bool_decide_eq_false in H. exfalso. apply H. eexists. reflexivity.
Qed.

(** Reads the fields of a builder off the list of those that are there. *)
Ltac fields H :=
  cbn in H; injection H as ? ? ? ? ? ? ? ? ? ? ? ? ?;
  repeat match goal with
         | E : bool_decide (is_Some ?x) = true |- _ =>
             apply present_true in E; destruct E as [? ->]
         | E : bool_decide (is_Some ?x) = false |- _ =>
             apply present_false in E; subst x
         end.

Lemma handle_wellFormed e s :
  wellFormed s -> exists s', LoreWizard.handle e s = Some s' /\ wellFormed s'.
Proof.
  intros (Hload & Hfin & Hheld & Hsigils & Hfinal).
  destruct s as [step [wn cc fs tl loc chars kn sec cos mag races crea hist]
                   final mode spark conflict anomaly detailed generated loading err].
  cbn in Hload, Hfin, Hheld, Hsigils, Hfinal. subst loading.
  assert (Hsame : wellFormed
            (LoreWizard.mk step
               (LoreBuilder.mk wn cc fs tl loc chars kn sec cos mag races crea hist)
               final mode spark conflict anomaly detailed generated false err)).
  { repeat split; assumption. }
  assert (Hinputs : forall mode' spark' conflict' anomaly' detailed',
            wellFormed
              (LoreWizard.mk step
                 (LoreBuilder.mk wn cc fs tl loc chars kn sec cos mag races crea hist)
                 final mode' spark' conflict' anomaly' detailed' generated false err)).
  { intros. repeat split; assumption. }
  assert (Herr : forall err',
            wellFormed
              (LoreWizard.mk step
                 (LoreBuilder.mk wn cc fs tl loc chars kn sec cos mag races crea hist)
                 final mode spark conflict anomaly detailed generated false err')).
  { intros. repeat split; assumption. }
  destruct step; try (exfalso; apply Hfin; reflexivity).
  - (* inputs *)
    destruct final as [final |]; [destruct Hfinal as [Hc _]; discriminate Hc |].
    destruct e; try (eexists; split; [reflexivity | exact Hsame]);
      unfold LoreWizard.handle; cbn [LoreWizard.renderContent LoreWizard.isLoading
        LoreWizard.step andb].
    + destruct mode; eexists; (split; [reflexivity |]); [apply Hinputs | exact Hsame].
    + destruct mode; eexists; (split; [reflexivity |]); [apply Hinputs | exact Hsame].
    + destruct mode; eexists; (split; [reflexivity |]); [apply Hinputs | exact Hsame].
    + destruct mode; eexists; (split; [reflexivity |]); [exact Hsame | apply Hinputs].
    + eexists; split; [reflexivity |]. unfold LoreWizard.handleStartWeaving.
      match goal with |- wellFormed (if ?c then _ else _) => destruct c end;
        [apply Herr |].
      destruct answer as [data |]; cbn; [| apply Herr].
      repeat split; cbn; try discriminate; reflexivity.
  - (* foundation review *)
    destruct final as [final |]; [destruct Hfinal as [Hc _]; discriminate Hc |].
    fields Hheld.
    destruct e; try (eexists; split; [reflexivity | exact Hsame]);
      unfold LoreWizard.handle; cbn [LoreWizard.renderContent LoreWizard.isLoading
        LoreWizard.step andb].
    + eexists; split; [reflexivity |]. unfold LoreWizard.handleRerollFoundation.
      destruct answer as [data |]; cbn; [| apply Herr].
      repeat split; cbn; try discriminate; reflexivity.
    + unfold LoreWizard.handleAcceptFoundation. cbn.
      eexists; split; [reflexivity |].
      destruct answer as [data |]; cbn; [| apply Herr].
      repeat split; cbn; try discriminate; reflexivity.
  - (* factions review *)
    destruct final as [final |]; [destruct Hfinal as [Hc _]; discriminate Hc |].
    fields Hheld.
    destruct e; try (eexists; split; [reflexivity | exact Hsame]);
      unfold LoreWizard.handle; cbn [LoreWizard.renderContent LoreWizard.isLoading
        LoreWizard.step andb].
    destruct (LoreWizard.acceptFactionsDisabled _) eqn:Hgate;
      [eexists; split; [reflexivity | exact Hsame] |].
    unfold LoreWizard.handleAcceptFactions. cbn.
    eexists; split; [reflexivity |].
    destruct cosmologyAnswer as [cosmology |]; cbn; [| apply Herr].
    destruct magicAnswer as [magicSystem |]; cbn; [| apply Herr].
    repeat split; cbn; try discriminate; try reflexivity.
    intros _. exact Hgate.
  - (* systems review *)
    destruct final as [final |]; [destruct Hfinal as [Hc _]; discriminate Hc |].
    fields Hheld.
    destruct e; try (eexists; split; [reflexivity | exact Hsame]);
      unfold LoreWizard.handle; cbn [LoreWizard.renderContent LoreWizard.isLoading
        LoreWizard.step andb].
    unfold LoreWizard.handleAcceptSystems. cbn.
    eexists; split; [reflexivity |].
    destruct answer as [data |]; cbn; [| apply Herr].
    repeat split; cbn; try discriminate; try reflexivity.
    intros _. apply Hsigils. reflexivity.
  - (* inhabitants review *)
    destruct final as [final |]; [destruct Hfinal as [Hc _]; discriminate Hc |].
    fields Hheld.
    destruct e; try (eexists; split; [reflexivity | exact Hsame]);
      unfold LoreWizard.handle; cbn [LoreWizard.renderContent LoreWizard.isLoading
        LoreWizard.step andb].
    eexists; split; [reflexivity |]. unfold LoreWizard.handleFinalizeWorld.
    destruct locationsResult as [locations |], secretsResult as [secrets |]; cbn;
      try apply Herr.
    repeat split; cbn; try discriminate; try reflexivity.
    + intros _. apply Hsigils. reflexivity.
    + eexists. reflexivity.
  - (* complete *)
    exists (LoreWizard.mk LoreGenerator.Complete
              (LoreBuilder.mk wn cc fs tl loc chars kn sec cos mag races crea hist)
              final mode spark conflict anomaly detailed generated false err).
    split; [| exact Hsame].
    unfold LoreWizard.handle. cbn. destruct final, e; reflexivity.
Qed.

Lemma run_wellFormed events :
  forall s, wellFormed s -> exists s', LoreWizard.run events s = Some s' /\ wellFormed s'.
Proof.
  induction events as [| e events IH]; intros s Hs; cbn [LoreWizard.run].
  - exists s. split; [reflexivity | exact Hs].
  - destruct (handle_wellFormed e s Hs) as (s1 & E & H1). rewrite E. apply IH, H1.
Qed.

Lemma initial_wellFormed : wellFormed LoreWizard.initial.
Proof. repeat split; cbn; discriminate. Qed.

(** X15.  Whatever the user does in the world builder and whatever the
    gateway answers, no handler meets a builder that lacks a field its
    casts assert, and between two events the builder holds the fields of
    its step and no other: nothing at the inputs; name, concept and
    timeline from the foundation review on; the factions from the
    factions review on; cosmology and magic system from the systems
    review on; races, creatures and historical figures from the
    inhabitants review on.  The step is never left at finalizing, so the
    spinner branch and the default branch of [renderContent] show only
    while a handler runs, and the final lore is there at the last step,
    so the error text of that branch is never shown.  The final lore is
    then a whole [Lore]: the cast is right, its characters and its
    knowledge are empty, and every faction has a sigil. *)
Theorem X15_builder_holds_the_fields_of_its_step (events : list LoreWizard.Event) :
  exists s,
    LoreWizard.run events LoreWizard.initial = Some s
    /\ wellFormed s
    /\ LoreWizard.renderContent s <> LoreWizard.ErrorRenderingLore
    /\ LoreWizard.renderContent s <> LoreWizard.FinalizingSpinner
    /\ (LoreWizard.step s = LoreGenerator.Complete ->
        exists final lore,
          LoreWizard.finalLore s = Some final
          /\ LoreBuilder.asLore final = Some lore
          /\ Lore.characters lore = []
          /\ Lore.knowledge lore = []
          /\ LoreBuilder.factions (LoreWizard.loreBuilder s) = Some (Lore.factions lore)
          /\ Forall (fun f => truthy (Faction.sigilImageUrl f) = true)
               (Lore.factions lore)).
Proof.
  destruct (run_wellFormed events _ initial_wellFormed) as (s & Hrun & Hs).
  exists s. split; [exact Hrun |]. split; [exact Hs |].
  destruct Hs as (Hload & Hfin & Hheld & Hsigils & Hfinal).
  destruct s as [step [wn cc fs tl loc chars kn sec cos mag races crea hist]
                   final mode spark conflict anomaly detailed generated loading err].
  cbn in Hload, Hfin, Hheld, Hsigils, Hfinal. subst loading.
  unfold LoreWizard.renderContent.
  cbn [LoreWizard.isLoading LoreWizard.step LoreWizard.finalLore LoreWizard.loreBuilder
       andb].
  destruct step; try (exfalso; apply Hfin; reflexivity);
    try (repeat split; discriminate).
  destruct final as [final |]; [| exfalso; apply Hfinal; reflexivity].
  split; [discriminate |]. split; [discriminate |]. intros _.
  destruct Hfinal as (_ & finalDetails & ->). fields Hheld.
  eexists. eexists. split; [reflexivity |]. split; [reflexivity |].
  cbn. split; [reflexivity |]. split; [reflexivity |]. split; [reflexivity |].
  specialize (Hsigils eq_refl). unfold LoreWizard.acceptFactionsDisabled in Hsigils.
  cbn in Hsigils. apply Forall_forall. intros f Hf.
  destruct (truthy (Faction.sigilImageUrl f)) eqn:E; [reflexivity |].
  rewrite <- Hsigils. apply existsb_exists. exists f.
  split; [apply list_elem_of_In; exact Hf |]. rewrite E. reflexivity.
Qed.

Lemma X15_witness :
  exists s final lore,
    LoreWizard.run (SampleWizard.opening SampleFactions.reliable ++ SampleWizard.closing)
      LoreWizard.initial = Some s
    /\ LoreWizard.finalLore s = Some final
    /\ LoreBuilder.asLore final = Some lore
    /\ Lore.knowledge lore = [].
Proof.
  destruct (X15_builder_holds_the_fields_of_its_step
              (SampleWizard.opening SampleFactions.reliable ++ SampleWizard.closing))
    as (s & Hrun & _ & _ & _ & Hcomplete).
  assert (Hstep : LoreWizard.step s = LoreGenerator.Complete).
  { pose proof Hrun as Hc. vm_compute in Hc. injection Hc as <-. reflexivity. }
  destruct (Hcomplete Hstep) as (final & lore & Hf & Hl & _ & Hk & _).
  exists s, final, lore. repeat split; assumption.
Defined.

(** Splits the matches of a hypothesis. *)
Ltac crack H :=
  repeat match type of H with
         | context [match ?x with _ => _ end] => destruct x eqn:?
         end.

(** X16.  An event of the world builder leaves the step where it is or
    moves it to the next one, never back and never further.  When the
    step stays, whether the event was not offered, a prompt was blank or
    a call of the gateway failed, the builder, the final lore and the
    anomaly are what they were (a reroll apart, which replaces the
    foundation): nothing made so far is lost, and nothing of a stage
    that failed half way is kept, so that the cosmology of a systems
    stage whose magic system failed is asked for again.  When the step
    moves, the error is cleared. *)
Theorem X16_a_stage_advances_or_stays (e : LoreWizard.Event) (s s' : LoreWizard.t) :
  LoreWizard.step s <> LoreGenerator.Finalizing ->
  LoreWizard.handle e s = Some s' ->
  (LoreWizard.step s' = LoreWizard.step s
   \/ LoreWizard.step s' = LoreWizard.next (LoreWizard.step s))
  /\ (LoreWizard.step s' = LoreWizard.step s ->
      LoreWizard.isReroll e = false ->
      LoreWizard.loreBuilder s' = LoreWizard.loreBuilder s
      /\ LoreWizard.finalLore s' = LoreWizard.finalLore s
      /\ LoreWizard.generatedAnomaly s' = LoreWizard.generatedAnomaly s)
  /\ (LoreWizard.step s' <> LoreWizard.step s ->
      LoreWizard.error s' = None /\ LoreWizard.isLoading s' = false).
Proof.
  intros Hfin H.
  destruct s as [step b final mode spark conflict anomaly detailed generated loading err].
  unfold LoreWizard.handle, LoreWizard.renderContent in H.
  cbn [LoreWizard.isLoading LoreWizard.step LoreWizard.finalLore LoreWizard.loreBuilder
       LoreWizard.inputMode] in H.
  cbn [LoreWizard.step] in Hfin |- *.
  destruct step; try (exfalso; apply Hfin; reflexivity);
    rewrite ?andb_false_r in H; destruct e;
    unfold LoreWizard.handleStartWeaving, LoreWizard.handleRerollFoundation,
      LoreWizard.handleAcceptFoundation, LoreWizard.handleAcceptFactions,
      LoreWizard.handleAcceptSystems, LoreWizard.handleFinalizeWorld,
      generateLoreFoundation, LoreGenerator.generateLoreFactions, generateLoreCosmology,
      generateLoreMagicSystem, generateLoreInhabitants, generateFinalLoreDetails in H;
    crack H; try discriminate H;
    try (match goal with
         | E : match ?f with _ => _ end = _ |- _ => destruct f; discriminate E
         end);
    injection H as <-;
    cbn [LoreWizard.step LoreWizard.loreBuilder LoreWizard.finalLore
         LoreWizard.generatedAnomaly LoreWizard.error LoreWizard.isLoading
         LoreWizard.settle LoreWizard.withInputs LoreWizard.next LoreWizard.isReroll];
    (split; [first [left; reflexivity | right; reflexivity] |]);
    (split; [intros Hs Hr; try discriminate Hs; try discriminate Hr; repeat split
            | intros Hs; try (exfalso; apply Hs; reflexivity); repeat split]).
Qed.

Lemma X16_witness :
  exists s',
    LoreWizard.handle (LoreWizard.ClickAcceptFactions (Some SampleWizard.cosmology) None)
      SampleWizard.reviewed = Some s'
    /\ LoreWizard.loreBuilder s' = LoreWizard.loreBuilder SampleWizard.reviewed.
Proof.
  destruct (LoreWizard.handle
              (LoreWizard.ClickAcceptFactions (Some SampleWizard.cosmology) None)
              SampleWizard.reviewed) as [s' |] eqn:E;
    [| vm_compute in E; discriminate E].
  exists s'. split; [reflexivity |].
  apply (X16_a_stage_advances_or_stays
           (LoreWizard.ClickAcceptFactions (Some SampleWizard.cosmology) None)
           SampleWizard.reviewed s' ltac:(vm_compute; discriminate) E);
    [| reflexivity].
  vm_compute in E. injection E as <-. reflexivity.
Defined.

Lemma handle_final e s :
  (LoreWizard.step s = LoreGenerator.FactionsReview
   /\ LoreWizard.acceptFactionsDisabled s = true)
  \/ LoreWizard.step s = LoreGenerator.Complete ->
  LoreWizard.handle e s = Some s.
Proof.
  destruct s as [step b final mode spark conflict anomaly detailed generated loading err].
  unfold LoreWizard.handle, LoreWizard.renderContent.
  cbn [LoreWizard.isLoading LoreWizard.step LoreWizard.finalLore].
  intros [[-> Hgate] | ->]; rewrite andb_false_r.
  - destruct e; try reflexivity. rewrite Hgate. reflexivity.
  - destruct final, e; reflexivity.
Qed.

(** X17.  Two states of the world builder are final.  At the factions
    review with a sigil missing (the image service failed for a faction)
    no event changes any cell: the only control of the panel is
    disabled, and nothing asks for the sigil again.  At the last step no
    event changes any cell either: the lore can only be handed on. *)
Theorem X17_failed_sigil_and_last_step_are_final
    (events : list LoreWizard.Event) (s : LoreWizard.t) :
  (LoreWizard.step s = LoreGenerator.FactionsReview
   /\ LoreWizard.acceptFactionsDisabled s = true)
  \/ LoreWizard.step s = LoreGenerator.Complete ->
  LoreWizard.run events s = Some s.
Proof.
  intros Hs. induction events as [| e events IH]; cbn [LoreWizard.run]; [reflexivity |].
  rewrite (handle_final e s Hs). exact IH.
Qed.

Lemma X17_witness :
  LoreWizard.run SampleWizard.closing SampleWizard.stuck = Some SampleWizard.stuck.
Proof.
  apply X17_failed_sigil_and_last_step_are_final. left.
  split; vm_compute; reflexivity.
Defined.

Lemma filled_spec s :
  filled s
  <-> (match LoreWizard.inputMode s with
       | LoreWizard.Simple => true
       | LoreWizard.Detailed => false
       end
       && (negb (truthy (trim (LoreWizard.spark s)))
           || negb (truthy (trim (LoreWizard.conflict s)))
           || negb (truthy (trim (LoreWizard.anomaly s))))
       || negb match LoreWizard.inputMode s with
               | LoreWizard.Simple => true
               | LoreWizard.Detailed => false
               end
          && negb (truthy (trim (LoreWizard.detailedPrompt s)))) = false.
Proof.
  unfold filled. destruct (LoreWizard.inputMode s); cbn [andb orb negb];
    rewrite <- ?trim_text.
  - rewrite orb_false_r.
    destruct (truthy (trim (LoreWizard.spark s))),
      (truthy (trim (LoreWizard.conflict s))),
      (truthy (trim (LoreWizard.anomaly s))); cbn; intuition congruence.
  - destruct (truthy (trim (LoreWizard.detailedPrompt s))); cbn; intuition congruence.
Qed.

(** X18.  At the inputs, weaving starts exactly when every prompt of the
    current input mode has a character that is not white space, the
    prompts of the other mode being ignored, and the gateway answers.
    With a blank prompt only the error changes, whatever the gateway
    would answer; with the prompts filled and no answer the step stays
    and the error is the message of the gateway; with an answer the
    builder is the foundation without its anomaly, which is kept apart,
    beside the anomaly that the user wrote. *)
Theorem X18_weaving_starts_with_filled_prompts
    (answer : option Foundation.t) (s : LoreWizard.t) :
  LoreWizard.step s = LoreGenerator.Inputs ->
  LoreWizard.isLoading s = false ->
  exists s',
    LoreWizard.handle (LoreWizard.ClickStartWeaving answer) s = Some s'
    /\ (LoreWizard.step s' = LoreGenerator.FoundationReview
        <-> filled s /\ is_Some answer)
    /\ (~ filled s ->
        s' = LoreWizard.mk (LoreWizard.step s) (LoreWizard.loreBuilder s)
               (LoreWizard.finalLore s) (LoreWizard.inputMode s) (LoreWizard.spark s)
               (LoreWizard.conflict s) (LoreWizard.anomaly s)
               (LoreWizard.detailedPrompt s) (LoreWizard.generatedAnomaly s) false
               (Some (js "Please fill out all creative prompts to begin.")))
    /\ (filled s -> answer = None ->
        s' = LoreWizard.settle s LoreGenerator.Inputs (LoreWizard.loreBuilder s)
               (LoreWizard.finalLore s) (LoreWizard.generatedAnomaly s)
               (Some (js "Failed to forge the world's foundation. The cosmic energies are unstable.")))
    /\ (forall data,
          filled s -> answer = Some data ->
          s' = LoreWizard.settle s LoreGenerator.FoundationReview
                 (LoreBuilder.mk (Some (Foundation.worldName data))
                    (Some (Foundation.coreConcept data)) None
                    (Some (Foundation.timeline data))
                    None None None None None None None None None)
                 (LoreWizard.finalLore s) (Foundation.anomaly data) None
          /\ LoreWizard.anomaly s' = LoreWizard.anomaly s).
Proof.
  intros Hstep Hload. pose proof (filled_spec s) as Hfilled.
  destruct s as [step b final mode spark conflict anomaly detailed generated loading err].
  cbn [LoreWizard.step LoreWizard.isLoading] in Hstep, Hload. subst step loading.
  unfold LoreWizard.handle, LoreWizard.renderContent, LoreWizard.handleStartWeaving.
  cbn [LoreWizard.isLoading LoreWizard.step LoreWizard.finalLore LoreWizard.loreBuilder
       LoreWizard.inputMode LoreWizard.spark LoreWizard.conflict LoreWizard.anomaly
       LoreWizard.detailedPrompt LoreWizard.generatedAnomaly andb] in Hfilled |- *.
  match type of Hfilled with _ <-> ?c = false => destruct c end.
  - assert (Hno : ~ filled
                    (LoreWizard.mk LoreGenerator.Inputs b final mode spark conflict
                       anomaly detailed generated false err))
      by (intros H; apply Hfilled in H; discriminate H).
    eexists. split; [reflexivity |]. cbn [LoreWizard.step].
    split; [split; [discriminate | intros [H _]; contradiction] |].
    split; [reflexivity |].
    split; [intros H; contradiction | intros data H; contradiction].
  - assert (Hyes : filled
                     (LoreWizard.mk LoreGenerator.Inputs b final mode spark conflict
                        anomaly detailed generated false err))
      by (apply Hfilled; reflexivity).
    eexists. split; [reflexivity |].
    destruct answer as [data |]; cbn.
    + split; [split; [intros _; split; [exact Hyes | eexists; reflexivity] | reflexivity] |].
      split; [intros H; contradiction |].
      split; [discriminate |].
      intros data' _ H. injection H as <-. split; reflexivity.
    + split; [split; [discriminate | intros [_ [x H]]; discriminate H] |].
      split; [intros H; contradiction |].
      split; [reflexivity | discriminate].
Qed.

Lemma X18_witness :
  exists s',
    LoreWizard.handle (LoreWizard.ClickStartWeaving (Some SampleWizard.foundation))
      SampleWizard.ready = Some s'
    /\ LoreWizard.step s' = LoreGenerator.FoundationReview.
Proof.
  destruct (X18_weaving_starts_with_filled_prompts (Some SampleWizard.foundation)
              SampleWizard.ready eq_refl eq_refl) as (s' & E & Hiff & _).
  exists s'. split; [exact E |]. apply Hiff. split.
  - cbn. repeat split; eexists; (split; [left; reflexivity | reflexivity]).
  - eexists. reflexivity.
Defined.

(** ** The image of a scene *)

Lemma firstImage_spec parts imageUrl :
  firstImage parts = Some imageUrl
  <-> exists before part data after,
        parts = before ++ part :: after
        /\ Forall (fun p => Part.inlineData p = None) before
        /\ Part.inlineData part = Some data
        /\ imageUrl = js "data:image/png;base64," ++ data.
Proof.
  induction parts as [| p parts IH]; cbn [firstImage].
  - split; [discriminate |]. intros (before & part & data & after & H & _).
    destruct before; discriminate H.
  - destruct (Part.inlineData p) as [d |] eqn:E.
    + split.
      * intros H. injection H as <-. exists [], p, d, parts. repeat split; [constructor | exact E].
      * intros (before & part & data & after & H & Hb & Hp & ->).
        destruct before as [| b before]; cbn [app] in H; injection H as -> ->.
        -- rewrite E in Hp. injection Hp as ->. reflexivity.
        -- apply Forall_cons in Hb. destruct Hb as [Hb _]. congruence.
    + rewrite IH. split.
      * intros (before & part & data & after & -> & Hb & Hp & ->).
        exists (p :: before), part, data, after. repeat split; [constructor; assumption | exact Hp].
      * intros (before & part & data & after & H & Hb & Hp & ->).
        destruct before as [| b before]; cbn [app] in H; injection H as -> ->.
        -- congruence.
        -- apply Forall_cons in Hb. destruct Hb as [_ Hb].
           exists before, part, data, after. repeat split; assumption.
Qed.

Lemma firstImage_none parts :
  firstImage parts = None -> Forall (fun p => Part.inlineData p = None) parts.
Proof.
  induction parts as [| p parts IH]; cbn [firstImage]; intros H; [constructor |].
  destruct (Part.inlineData p) eqn:E; [discriminate H |].
  constructor; [exact E | apply IH, H].
Qed.

(** X19.  [generateImage] gives the inline data of the first part of the
    answer that has any, behind the prefix of a PNG data address, and
    looks at no part after it; the address is never the empty string.
    In every other case, an answer with no image included, it throws the
    one message of the function: the message of its own inner throw is
    never seen by a caller.  So the screen shows an image exactly when
    the answer holds one, and the callback of a failure removes the
    pending placeholders. *)
Theorem X19_scene_image_is_first_inline_part (answer : Thrown + list Part.t) :
  match generateImage answer with
  | inr imageUrl =>
      truthy imageUrl = true
      /\ (exists before part data after,
            answer = inr (before ++ part :: after)
            /\ Forall (fun p => Part.inlineData p = None) before
            /\ Part.inlineData part = Some data
            /\ imageUrl = js "data:image/png;base64," ++ data)
      /\ (forall s,
            Screen.gameState (settleImage answer s)
            = imageArrived imageUrl (Screen.gameState s))
  | inl thrown =>
      thrown = ErrorObject
                 (js "Failed to conjure a vision of the scene. The aether is cloudy.")
      /\ (forall parts,
            answer = inr parts -> Forall (fun p => Part.inlineData p = None) parts)
      /\ (forall s,
            Screen.gameState (settleImage answer s) = imageFailed (Screen.gameState s))
  end.
Proof.
  unfold settleImage, generateImage, tryGenerateImage.
  destruct answer as [thrown | parts].
  - split; [reflexivity |]. split; [discriminate | reflexivity].
  - destruct (firstImage parts) as [imageUrl |] eqn:E.
    + pose proof (proj1 (firstImage_spec parts imageUrl) E)
        as (before & part & data & after & -> & Hb & Hp & ->).
      split; [reflexivity |]. split; [| reflexivity].
      exists before, part, data, after. repeat split; assumption.
    + split; [reflexivity |]. split; [| reflexivity].
      intros parts' H. injection H as <-.
      apply firstImage_none, E.
Qed.

Lemma X19_witness :
  Screen.gameState
    (settleImage
       (inr [Part.mk (Some (js "Here is the scene.")) None;
             Part.mk None (Some (js "QUJD")); Part.mk None (Some (js "REVG"))])
       SampleImages.screen)
  = imageArrived (js "data:image/png;base64,QUJD") (Screen.gameState SampleImages.screen).
Proof.
  exact (proj2 (proj2
           (X19_scene_image_is_first_inline_part
              (inr [Part.mk (Some (js "Here is the scene.")) None;
                    Part.mk None (Some (js "QUJD")); Part.mk None (Some (js "REVG"))])))
           SampleImages.screen).
Defined.
